(** * OceanPlugin: UBuoyancyComponent

    A shallow embedding of [BuoyancyComponent.cpp] / [BuoyancyComponent.h].

    - C++ [float] is IEEE-754 binary32, modelled with the Standard Library's
      [SpecFloat] operations at precision 24 and maximal exponent 128
      (round to nearest, ties to even; NaN, infinities and signed zeros as
      in the standard).
    - The component, the primitive it moves and the world are records; the
      engine's mutators ([AddForceAtLocation], [SetLinearDamping], ...) are
      field updates and the tick is a function on the whole state.
    - The engine helpers the component calls ([FMath::Clamp], [FMath::Sign],
      [FVector] operators, [FVector::Size], [FVector::GetSafeNormal]) are
      transcribed from the engine's headers; [FMath::InvSqrt] is the one of
      [GenericPlatformMath].
    - Forces handed to [AddForceAtLocation] are accumulated by the engine for
      the next physics step: the mass, velocity and transform the tick reads
      do not change while it runs.
    - [SetWorldLocation] is called with [bSweep = true]; the sweep (stopping
      at a blocking hit) is the engine's affair, and the call is modelled as
      placing the component at the requested location. *)

From Stdlib Require Import Reals Lra.
From Stdlib Require Import ZArith List Bool Lia Permutation.
From Stdlib Require Import Floats.SpecFloat.
Import ListNotations.
Open Scope Z_scope.

(** ** IEEE-754 binary32 *)

Module F32.

Definition prec : Z := 24.
Definition emax : Z := 128.

Definition float := spec_float.

Definition add : float -> float -> float := SFadd prec emax.
Definition sub : float -> float -> float := SFsub prec emax.
Definition mul : float -> float -> float := SFmul prec emax.
Definition div : float -> float -> float := SFdiv prec emax.
Definition sqrt : float -> float := SFsqrt prec emax.
Definition neg : float -> float := SFopp.
Definition fabs : float -> float := SFabs.

(** [a < b], [a > b], [a == b] of C++; all three are false on NaN. *)
Definition ltb (a b : float) : bool := SFltb a b.
Definition gtb (a b : float) : bool := SFltb b a.
Definition eqb (a b : float) : bool := SFeqb a b.
Definition leb (a b : float) : bool := SFleb a b.

(** Conversion of an integer to [float] (round to nearest even). *)
Definition of_int (n : Z) : float := binary_normalize prec emax n 0 false.

Definition zero : float := S754_zero false.
Definition one : float := of_int 1.
Definition two : float := of_int 2.

(** [valid x]: the term [x] denotes a binary32 number (canonical mantissa
    and exponent); the operations above map such terms to such terms. *)
Definition valid (x : float) : bool := valid_binary prec emax x.

Definition is_nan (x : float) : bool :=
  match x with S754_nan => true | _ => false end.

Definition is_finite (x : float) : bool :=
  match x with S754_zero _ | S754_finite _ _ _ => true | _ => false end.

End F32.

Abbreviation float := F32.float.

(** ** Engine mathematics (UnrealMathUtility.h, Vector.h) *)

Module FMath.

(** [return X<Min ? Min : X<Max ? X : Max;] *)
Definition Clamp (X Min Max : float) : float :=
  if F32.ltb X Min then Min else if F32.ltb X Max then X else Max.

(** [return (A > 0) ? 1 : ((A < 0) ? -1 : 0);] *)
Definition Sign (A : float) : float :=
  if F32.gtb A F32.zero then F32.one
  else if F32.ltb A F32.zero then F32.neg F32.one
  else F32.zero.

(** [1.e-8f] *)
Definition SMALL_NUMBER : float := F32.div F32.one (F32.of_int 100000000).

(** GenericPlatformMath: [1.0f / sqrtf(F)]. *)
Definition InvSqrt (F : float) : float := F32.div F32.one (F32.sqrt F).

End FMath.

Module Vec.

Record FVector := mkFVector { X : float; Y : float; Z : float }.

Definition ZeroVector : FVector := mkFVector F32.zero F32.zero F32.zero.

(** [FVector::operator+(const FVector&)] *)
Definition add (a b : FVector) : FVector :=
  mkFVector (F32.add (X a) (X b)) (F32.add (Y a) (Y b)) (F32.add (Z a) (Z b)).

(** [FVector::operator-()] *)
Definition neg (a : FVector) : FVector :=
  mkFVector (F32.neg (X a)) (F32.neg (Y a)) (F32.neg (Z a)).

(** [FVector::operator*(const FVector&)], component-wise. *)
Definition mulv (a b : FVector) : FVector :=
  mkFVector (F32.mul (X a) (X b)) (F32.mul (Y a) (Y b)) (F32.mul (Z a) (Z b)).

(** [FVector::operator*(float)] *)
Definition scale (a : FVector) (k : float) : FVector :=
  mkFVector (F32.mul (X a) k) (F32.mul (Y a) k) (F32.mul (Z a) k).

(** [X*X + Y*Y + Z*Z] *)
Definition SizeSquared (a : FVector) : float :=
  F32.add (F32.add (F32.mul (X a) (X a)) (F32.mul (Y a) (Y a)))
          (F32.mul (Z a) (Z a)).

(** [FMath::Sqrt(X*X + Y*Y + Z*Z)] *)
Definition Size (a : FVector) : float := F32.sqrt (SizeSquared a).

(** [FVector::GetSafeNormal(Tolerance = SMALL_NUMBER)] *)
Definition GetSafeNormal (a : FVector) : FVector :=
  let SquareSum := SizeSquared a in
  if F32.eqb SquareSum F32.one then a
  else if F32.ltb SquareSum FMath.SMALL_NUMBER then ZeroVector
  else scale a (FMath.InvSqrt SquareSum).

End Vec.

Abbreviation FVector := Vec.FVector.
Abbreviation mkFVector := Vec.mkFVector.

(** ** Engine objects the component talks to *)

(** The wave-field provider ([OceanManager.h]); only
    [GetWaveHeightValue] is called by the component. *)
Record AOceanManager := mkOceanManager {
  GetWaveHeightValue : FVector -> FVector
}.

(** [FTransform]: [TransformPosition(V)] is
    [Rotation.RotateVector(Scale3D*V) + Translation]; the rotation and scale
    part is kept as one function. *)
Record FTransform := mkTransform {
  RotateScale : FVector -> FVector;
  Translation : FVector
}.

Definition TransformPosition (t : FTransform) (V : FVector) : FVector :=
  Vec.add (RotateScale t V) (Translation t).

Record FBodyInstance := mkBodyInstance {
  IsValidBodyInstance : bool;
  GetUnrealWorldVelocityAtPoint : FVector -> FVector
}.

(** The updated component ([UpdatedComponent] and [UpdatedPrimitive] point to
    the same object).  [Forces] lists the [AddForceAtLocation] calls received
    since the last physics step, oldest first, as (force, location). *)
Record UPrimitiveComponent := mkPrimitive {
  IsSimulatingPhysics : bool;
  ComponentToWorld : FTransform;
  Mass : float;
  LinearDamping : float;
  AngularDamping : float;
  PhysicsLinearVelocity : FVector;
  BodyInstance : option FBodyInstance;
  Forces : list (FVector * FVector)
}.

Definition GetComponentLocation (p : UPrimitiveComponent) : FVector :=
  Translation (ComponentToWorld p).

Definition GetComponentTransform (p : UPrimitiveComponent) : FTransform :=
  ComponentToWorld p.

Definition SetWorldLocation (p : UPrimitiveComponent) (NewLocation : FVector)
  : UPrimitiveComponent :=
  mkPrimitive (IsSimulatingPhysics p)
    (mkTransform (RotateScale (ComponentToWorld p)) NewLocation)
    (Mass p) (LinearDamping p) (AngularDamping p)
    (PhysicsLinearVelocity p) (BodyInstance p) (Forces p).

Definition AddForceAtLocation (p : UPrimitiveComponent) (Force Location : FVector)
  : UPrimitiveComponent :=
  mkPrimitive (IsSimulatingPhysics p) (ComponentToWorld p)
    (Mass p) (LinearDamping p) (AngularDamping p)
    (PhysicsLinearVelocity p) (BodyInstance p)
    (Forces p ++ [(Force, Location)]).

Definition SetPhysicsLinearVelocity (p : UPrimitiveComponent) (NewVel : FVector)
  : UPrimitiveComponent :=
  mkPrimitive (IsSimulatingPhysics p) (ComponentToWorld p)
    (Mass p) (LinearDamping p) (AngularDamping p)
    NewVel (BodyInstance p) (Forces p).

Definition SetLinearDamping (p : UPrimitiveComponent) (InDamping : float)
  : UPrimitiveComponent :=
  mkPrimitive (IsSimulatingPhysics p) (ComponentToWorld p)
    (Mass p) InDamping (AngularDamping p)
    (PhysicsLinearVelocity p) (BodyInstance p) (Forces p).

Definition SetAngularDamping (p : UPrimitiveComponent) (InDamping : float)
  : UPrimitiveComponent :=
  mkPrimitive (IsSimulatingPhysics p) (ComponentToWorld p)
    (Mass p) (LinearDamping p) InDamping
    (PhysicsLinearVelocity p) (BodyInstance p) (Forces p).

(** The constraint spawned by [InitializeComponent]. *)
Inductive ELinearConstraintMotion := LCM_Free | LCM_Limited | LCM_Locked.
Inductive EAngularConstraintMotion := ACM_Free | ACM_Limited | ACM_Locked.

Record FConstraintInstance := mkConstraint {
  LinearXMotion : ELinearConstraintMotion;
  LinearYMotion : ELinearConstraintMotion;
  LinearZMotion : ELinearConstraintMotion;
  LinearLimitSize : float;
  AngularSwing1Motion : EAngularConstraintMotion;
  AngularSwing2Motion : EAngularConstraintMotion;
  AngularTwistMotion : EAngularConstraintMotion;
  bSwingLimitSoft : bool;
  bTwistLimitSoft : bool;
  Swing1LimitAngle : float;
  Swing2LimitAngle : float;
  TwistLimitAngle : float;
  SwingLimitStiffness : float;
  SwingLimitDamping : float;
  TwistLimitStiffness : float;
  TwistLimitDamping : float
}.

(** Colour of a debug sphere: [FLinearColor(0.8, 0.7, 0.2, 0.8)] out of the
    water, [FLinearColor(0, 0.2, 0.7, 0.8)] under it. *)
Inductive DebugColor := DebugYellow | DebugBlue.

(** What the component reads from and writes to its world. *)
Record UWorld := mkWorld {
  OceanManagers : list AOceanManager;       (* TActorIterator<AOceanManager> *)
  GravityZ : float;                         (* GetGravityZ() *)
  Constraints : list (FVector * FConstraintInstance);
  DebugSpheres : list (FVector * float * DebugColor)
}.

Definition DrawDebugSphere (w : UWorld) (Center : FVector) (Radius : float)
  (Color : DebugColor) : UWorld :=
  mkWorld (OceanManagers w) (GravityZ w) (Constraints w)
          (DebugSpheres w ++ [(Center, Radius, Color)]).

Definition SpawnConstraint (w : UWorld) (Location : FVector)
  (c : FConstraintInstance) : UWorld :=
  mkWorld (OceanManagers w) (GravityZ w) (Constraints w ++ [(Location, c)])
          (DebugSpheres w).

(** ** The component (BuoyancyComponent.h) *)

Record UBuoyancyComponent := mkBuoyancy {
  OceanManager : option AOceanManager;
  MeshDensity : float;
  FluidDensity : float;
  FluidLinearDamping : float;
  FluidAngularDamping : float;
  VelocityDamper : FVector;
  ClampMaxVelocity : bool;
  MaxUnderwaterVelocity : float;
  TestPointRadius : float;
  TestPoints : list FVector;
  PointDensityOverride : list float;
  DrawDebugPoints : bool;
  EnableStayUprightConstraint : bool;
  StayUprightStiffness : float;
  StayUprightDamping : float;
  _SignedRadius : float;
  _baseAngularDamping : float;
  _baseLinearDamping : float
}.

(** The component, the primitive it updates and the world. *)
Record State := mkState {
  Self : UBuoyancyComponent;
  UpdatedPrimitive : UPrimitiveComponent;
  World : UWorld
}.

(** ** BuoyancyComponent.cpp *)

(** [UBuoyancyComponent::UBuoyancyComponent]: the defaults; every other
    property starts zeroed. *)
Definition Defaults : UBuoyancyComponent :=
  mkBuoyancy
    None
    (F32.of_int 600)                              (* MeshDensity = 600.0f *)
    (F32.of_int 1025)                             (* FluidDensity = 1025.0f *)
    F32.one                                       (* FluidLinearDamping = 1.0f *)
    F32.one                                       (* FluidAngularDamping = 1.0f *)
    (let tenth := F32.div F32.one (F32.of_int 10) in
     mkFVector tenth tenth tenth)                 (* FVector(0.1, 0.1, 0.1) *)
    false
    (F32.of_int 1000)                             (* MaxUnderwaterVelocity = 1000.f *)
    (F32.of_int 10)                               (* TestPointRadius = 10.0f *)
    [] [] false false
    (F32.of_int 50)                               (* StayUprightStiffness = 50.0f *)
    (F32.of_int 5)                                (* StayUprightDamping = 5.0f *)
    F32.zero F32.zero F32.zero.

(** The settings of the stay-upright constraint. *)
Definition StayUprightConstraint (c : UBuoyancyComponent) : FConstraintInstance :=
  mkConstraint
    LCM_Free LCM_Free LCM_Free
    F32.zero
    ACM_Limited ACM_Limited ACM_Limited
    true true
    F32.zero F32.zero F32.zero
    (StayUprightStiffness c) (StayUprightDamping c)
    (StayUprightStiffness c) (StayUprightDamping c).

(** [UBuoyancyComponent::InitializeComponent] *)
Definition InitializeComponent (s : State) : State :=
  let c := Self s in
  let p := UpdatedPrimitive s in
  (* If no OceanManager is defined auto-detect *)
  let manager :=
    match OceanManager c with
    | Some m => Some m
    | None => hd_error (OceanManagers (World s))
    end in
  (* Stay upright physics constraint *)
  let w :=
    if EnableStayUprightConstraint c
    then SpawnConstraint (World s) (GetComponentLocation p) (StayUprightConstraint c)
    else World s in
  (* abs(TestPointRadius): the float overload *)
  let radius := F32.fabs (TestPointRadius c) in
  (* Signed based on gravity, just in case we need an upside down world *)
  let signed := F32.mul (FMath.Sign (GravityZ w)) radius in
  mkState
    (mkBuoyancy manager
       (MeshDensity c) (FluidDensity c)
       (FluidLinearDamping c) (FluidAngularDamping c)
       (VelocityDamper c) (ClampMaxVelocity c) (MaxUnderwaterVelocity c)
       radius
       (TestPoints c) (PointDensityOverride c) (DrawDebugPoints c)
       (EnableStayUprightConstraint c)
       (StayUprightStiffness c) (StayUprightDamping c)
       signed
       (AngularDamping p)
       (LinearDamping p))
    p w.

(** [UBuoyancyComponent::GetVelocityAtPoint] with [BoneName = NAME_None]. *)
Definition GetVelocityAtPoint (Target : UPrimitiveComponent) (Point : FVector)
  : FVector :=
  match BodyInstance Target with
  | Some BI =>
      if IsValidBodyInstance BI then GetUnrealWorldVelocityAtPoint BI Point
      else Vec.ZeroVector
  | None => Vec.ZeroVector
  end.

(** *** The body of the point loop, expression by expression *)

(** [waveHeight > (worldTestPoint.Z + _SignedRadius)] *)
Definition IsUnderwater (c : UBuoyancyComponent) (waveHeight : float)
  (worldTestPoint : FVector) : bool :=
  F32.gtb waveHeight (F32.add (Vec.Z worldTestPoint) (_SignedRadius c)).

(** [(waveHeight - (worldTestPoint.Z + _SignedRadius)) / (TestPointRadius * 2)] *)
Definition RawDepthMultiplier (c : UBuoyancyComponent) (waveHeight : float)
  (worldTestPoint : FVector) : float :=
  F32.div
    (F32.sub waveHeight (F32.add (Vec.Z worldTestPoint) (_SignedRadius c)))
    (F32.mul (TestPointRadius c) F32.two).

(** [FMath::Clamp(DepthMultiplier, 0.f, 1.f)] *)
Definition DepthMultiplier (c : UBuoyancyComponent) (waveHeight : float)
  (worldTestPoint : FVector) : float :=
  FMath.Clamp (RawDepthMultiplier c waveHeight worldTestPoint) F32.zero F32.one.

(** [PointDensityOverride.IsValidIndex(pointIndex) ?
     PointDensityOverride[pointIndex] : MeshDensity] *)
Definition PointDensity (c : UBuoyancyComponent) (pointIndex : Z) : float :=
  if (0 <=? pointIndex) && (pointIndex <? Z.of_nat (length (PointDensityOverride c)))
  then nth (Z.to_nat pointIndex) (PointDensityOverride c) (MeshDensity c)
  else MeshDensity c.

(** [GetMass() / PointDensity * FluidDensity * -GetGravityZ() / TotalPoints
     * DepthMultiplier] *)
Definition BuoyancyForceZ (c : UBuoyancyComponent) (mass gravityZ TotalPoints : float)
  (pointIndex : Z) (depth : float) : float :=
  F32.mul
    (F32.div
       (F32.mul
          (F32.mul (F32.div mass (PointDensity c pointIndex)) (FluidDensity c))
          (F32.neg gravityZ))
       TotalPoints)
    depth.

(** [-GetVelocityAtPoint(UpdatedPrimitive, worldTestPoint) * VelocityDamper
     * GetMass() * DepthMultiplier] *)
Definition DampingForce (c : UBuoyancyComponent) (p : UPrimitiveComponent)
  (worldTestPoint : FVector) (depth : float) : FVector :=
  Vec.scale
    (Vec.scale
       (Vec.mulv (Vec.neg (GetVelocityAtPoint p worldTestPoint)) (VelocityDamper c))
       (Mass p))
    depth.

(** The force handed to [AddForceAtLocation] for a point under water. *)
Definition PointForce (c : UBuoyancyComponent) (p : UPrimitiveComponent)
  (gravityZ TotalPoints : float) (pointIndex : Z)
  (waveHeight : float) (worldTestPoint : FVector) : FVector :=
  let depth := DepthMultiplier c waveHeight worldTestPoint in
  let buoyancy := BuoyancyForceZ c (Mass p) gravityZ TotalPoints pointIndex depth in
  let damping := DampingForce c p worldTestPoint depth in
  mkFVector (Vec.X damping) (Vec.Y damping) (F32.add (Vec.Z damping) buoyancy).

(** The locals that live across iterations. *)
Record LoopState := mkLoop {
  PointsUnderWater : Z;
  Current : State
}.

(** One iteration of [for (pointIndex ...)]. *)
Definition PointStep (manager : AOceanManager) (TotalPoints : float)
  (transform : FTransform) (pointIndex : Z) (testPoint : FVector)
  (l : LoopState) : LoopState :=
  let s := Current l in
  let c := Self s in
  let worldTestPoint := TransformPosition transform testPoint in
  let waveHeight := Vec.Z (GetWaveHeightValue manager worldTestPoint) in
  let isUnderwater := IsUnderwater c waveHeight worldTestPoint in
  (* If test point radius is touching water add buoyancy force *)
  let count := if isUnderwater then PointsUnderWater l + 1 else PointsUnderWater l in
  let p :=
    if isUnderwater
    then AddForceAtLocation (UpdatedPrimitive s)
           (PointForce c (UpdatedPrimitive s) (GravityZ (World s)) TotalPoints
                       pointIndex waveHeight worldTestPoint)
           worldTestPoint
    else UpdatedPrimitive s in
  let w :=
    if DrawDebugPoints c
    then DrawDebugSphere (World s) worldTestPoint (TestPointRadius c)
           (if isUnderwater then DebugBlue else DebugYellow)
    else World s in
  mkLoop count (mkState c p w).

(** [for (int pointIndex = 0; pointIndex < TotalPoints; pointIndex++)]:
    [rest] are the elements of [TestPoints] from [pointIndex] on.  The guard
    compares the index, converted to [float], with the [float] count. *)
Fixpoint PointLoop (manager : AOceanManager) (TotalPoints : float)
  (transform : FTransform) (pointIndex : Z) (rest : list FVector)
  (l : LoopState) : LoopState :=
  match rest with
  | [] => l
  | testPoint :: rest' =>
      if F32.ltb (F32.of_int pointIndex) TotalPoints
      then PointLoop manager TotalPoints transform (pointIndex + 1) rest'
             (PointStep manager TotalPoints transform pointIndex testPoint l)
      else l
  end.

(** Clamp the velocity to MaxUnderwaterVelocity if there is any point
    underwater. *)
Definition ClampVelocity (c : UBuoyancyComponent) (count : Z)
  (p : UPrimitiveComponent) : UPrimitiveComponent :=
  if ClampMaxVelocity c && (0 <? count)
     && F32.gtb (Vec.Size (PhysicsLinearVelocity p)) (MaxUnderwaterVelocity c)
  then SetPhysicsLinearVelocity p
         (Vec.scale (Vec.GetSafeNormal (PhysicsLinearVelocity p))
                    (MaxUnderwaterVelocity c))
  else p.

(** [base + Fluid / TotalPoints * PointsUnderWater] *)
Definition FluidDamping (base fluid TotalPoints : float) (count : Z) : float :=
  F32.add base (F32.mul (F32.div fluid TotalPoints) (F32.of_int count)).

(** Update damping based on number of underwater test points. *)
Definition UpdateDamping (c : UBuoyancyComponent) (TotalPoints : float)
  (count : Z) (p : UPrimitiveComponent) : UPrimitiveComponent :=
  SetAngularDamping
    (SetLinearDamping p
       (FluidDamping (_baseLinearDamping c) (FluidLinearDamping c) TotalPoints count))
    (FluidDamping (_baseAngularDamping c) (FluidAngularDamping c) TotalPoints count).

(** [UBuoyancyComponent::TickComponent] *)
Definition TickComponent (s : State) : State :=
  match OceanManager (Self s) with
  | None => s
  | Some manager =>
      let p := UpdatedPrimitive s in
      if negb (IsSimulatingPhysics p) then
        let waveHeight := GetWaveHeightValue manager (GetComponentLocation p) in
        mkState (Self s)
          (SetWorldLocation p
             (mkFVector (Vec.X (GetComponentLocation p))
                        (Vec.Y (GetComponentLocation p))
                        (Vec.Z waveHeight)))
          (World s)
      else
        let TotalPoints := F32.of_int (Z.of_nat (length (TestPoints (Self s)))) in
        if F32.ltb TotalPoints F32.one then s
        else
          let transform := GetComponentTransform p in
          let l := PointLoop manager TotalPoints transform 0
                     (TestPoints (Self s)) (mkLoop 0 s) in
          let s' := Current l in
          let c := Self s' in
          mkState c
            (UpdateDamping c TotalPoints (PointsUnderWater l)
               (ClampVelocity c (PointsUnderWater l) (UpdatedPrimitive s')))
            (World s')
  end.

(** * Definitions used to state and prove the properties *)

(** ** Outputs of the point loop *)

(** What the point loop adds, as functions of the inputs of the tick. *)
Section LoopOutputs.
Variables (c : UBuoyancyComponent) (p : UPrimitiveComponent) (gravityZ : float)
          (manager : AOceanManager) (TotalPoints : float) (transform : FTransform).

Definition WorldPoint (testPoint : FVector) : FVector :=
  TransformPosition transform testPoint.

Definition WaveHeight (testPoint : FVector) : float :=
  Vec.Z (GetWaveHeightValue manager (WorldPoint testPoint)).

Definition Submerged (testPoint : FVector) : bool :=
  IsUnderwater c (WaveHeight testPoint) (WorldPoint testPoint).

Fixpoint LoopForces (pointIndex : Z) (rest : list FVector) : list (FVector * FVector) :=
  match rest with
  | [] => []
  | testPoint :: rest' =>
      (if Submerged testPoint
       then [(PointForce c p gravityZ TotalPoints pointIndex
                         (WaveHeight testPoint) (WorldPoint testPoint),
              WorldPoint testPoint)]
       else [])
      ++ LoopForces (pointIndex + 1) rest'
  end.

Fixpoint LoopCount (rest : list FVector) : Z :=
  match rest with
  | [] => 0
  | testPoint :: rest' =>
      (if Submerged testPoint then 1 else 0) + LoopCount rest'
  end.

Fixpoint LoopSpheres (rest : list FVector) : list (FVector * float * DebugColor) :=
  match rest with
  | [] => []
  | testPoint :: rest' =>
      (if DrawDebugPoints c
       then [(WorldPoint testPoint, TestPointRadius c,
              if Submerged testPoint then DebugBlue else DebugYellow)]
       else [])
      ++ LoopSpheres rest'
  end.
End LoopOutputs.

(** The test points the loop visits: the loop stops at the first index that
    is not below the [float] count. *)
Fixpoint Visited (TotalPoints : float) (pointIndex : Z) (rest : list FVector)
  : list FVector :=
  match rest with
  | [] => []
  | testPoint :: rest' =>
      if F32.ltb (F32.of_int pointIndex) TotalPoints
      then testPoint :: Visited TotalPoints (pointIndex + 1) rest'
      else []
  end.

Definition WithForces (p : UPrimitiveComponent) (fs : list (FVector * FVector)) :=
  mkPrimitive (IsSimulatingPhysics p) (ComponentToWorld p) (Mass p)
    (LinearDamping p) (AngularDamping p) (PhysicsLinearVelocity p)
    (BodyInstance p) (Forces p ++ fs).

Definition WithSpheres (w : UWorld) (ds : list (FVector * float * DebugColor)) :=
  mkWorld (OceanManagers w) (GravityZ w) (Constraints w) (DebugSpheres w ++ ds).

(** ** Rounding in binary32

    A value is written [n / d * 2 ^ b] with integers [n], [d] and [b].  The
    definitions below describe how [SpecFloat]'s [binary_round_aux] treats
    it: the bracket it is given, the canonical bracket after the first
    shift, and the float it returns. *)

(** Position of a remainder [r] in a step of width [q]. *)
Definition loc_of (r q : Z) : location :=
  if r =? 0 then loc_Exact else loc_Inexact (Z.compare (2 * r) q).

(** [m], [e], [l] bracket the value [n / d * 2 ^ b]. *)
Record Bracket (n d b m e : Z) (l : location) : Prop := mkBracket {
  br_exp : b <= e;
  br_den : 0 < d;
  br_lo : m * (2 ^ (e - b) * d) <= n;
  br_hi : n < (m + 1) * (2 ^ (e - b) * d);
  br_loc : l = loc_of (n - m * (2 ^ (e - b) * d)) (2 ^ (e - b) * d)
}.

Definition BracketR (n d b : Z) (mrs : shr_record) (e : Z) : Prop :=
  Bracket n d b (shr_m mrs) e (loc_of_shr_record mrs).

(** A bracket at the exponent the format gives the value: the mantissa has
    at most 24 digits, and fewer than 24 only at the least exponent. *)
Record Canon (n d b : Z) (mrs : shr_record) (e : Z) : Prop := mkCanon {
  cn_br : BracketR n d b mrs e;
  cn_emin : -149 <= e;
  cn_hi : shr_m mrs < 2 ^ 24;
  cn_lo : shr_m mrs < 2 ^ 23 -> e = -149
}.

(** The exponent [e] is not above the one the format gives the value. *)
Definition Fine (n d b e : Z) : Prop :=
  e <= -149 \/ 2 ^ (e - b + 23) * d <= n.

(** Rounding a canonical bracket to nearest even, then renormalising. *)
Definition finish (s : bool) (mrs : shr_record) (E : Z) : spec_float :=
  let m := round_nearest_even (shr_m mrs) (loc_of_shr_record mrs) in
  if m =? 0 then S754_zero s
  else if m <? 2 ^ 24
       then (if E <=? 104 then S754_finite s (Z.to_pos m) E else S754_infinity s)
       else (if E + 1 <=? 104 then S754_finite s 8388608 (E + 1)
             else S754_infinity s).

(** The float of a rounded mantissa [r] at exponent [E]. *)
Definition fin (s : bool) (r E : Z) : spec_float :=
  if r =? 0 then S754_zero s
  else if r <? 2 ^ 24
       then (if E <=? 104 then S754_finite s (Z.to_pos r) E else S754_infinity s)
       else (if E + 1 <=? 104 then S754_finite s 8388608 (E + 1)
             else S754_infinity s).

(** [f] is the rounding of the non-negative value [n / d * 2 ^ b]. *)
Definition RoundsTo (n d b : Z) (f : spec_float) : Prop :=
  exists mrs E, Canon n d b mrs E /\ f = finish false mrs E.

(** Shapes of results. *)
Definition nonneg_shape (f : spec_float) : Prop :=
  match f with
  | S754_zero false | S754_finite false _ _ | S754_infinity false => True
  | _ => False
  end.

Definition key (f : spec_float) : Z * Z * Z :=
  match f with
  | S754_nan | S754_zero _ => (0, 0, 0)
  | S754_infinity false => (2, 0, 0)
  | S754_infinity true => (-2, 0, 0)
  | S754_finite false m e => (1, e, Zpos m)
  | S754_finite true m e => (-1, - e, - Zpos m)
  end.

Definition lex_le (a b : Z * Z * Z) : Prop :=
  let '(a1, a2, a3) := a in
  let '(b1, b2, b3) := b in
  a1 < b1 \/ (a1 = b1 /\ (a2 < b2 \/ (a2 = b2 /\ a3 <= b3))).

Definition lex_lt (a b : Z * Z * Z) : Prop :=
  let '(a1, a2, a3) := a in
  let '(b1, b2, b3) := b in
  a1 < b1 \/ (a1 = b1 /\ (a2 < b2 \/ (a2 = b2 /\ a3 < b3))).

Definition lex_compare (a b : Z * Z * Z) : comparison :=
  let '(a1, a2, a3) := a in
  let '(b1, b2, b3) := b in
  match a1 ?= b1 with
  | Eq => match a2 ?= b2 with Eq => a3 ?= b3 | c => c end
  | c => c
  end.

(** [ival f]: the value of a finite [f] in units of [2 ^ -149]. *)
Definition ival (f : spec_float) : Z :=
  match f with
  | S754_finite s m e => (if s then -1 else 1) * (Zpos m * 2 ^ (e + 149))
  | _ => 0
  end.

(** [f] is the rounding of the signed value [N / d * 2 ^ b]. *)
Definition Rep (N d b : Z) (f : spec_float) : Prop :=
  (N = 0 /\ exists s, f = S754_zero s) \/
  (0 < N /\ RoundsTo N d b f) \/
  (N < 0 /\ exists g, RoundsTo (- N) d b g /\ f = SFopp g).

(** [Clamp((h - a) / d, 0, 1)] *)
Definition DepthOf (a d h : float) : float :=
  FMath.Clamp (F32.div (F32.sub h a) d) F32.zero F32.one.

(** ** Example inputs and variants of a state *)


(** A flat sea at a given height. *)
Definition FlatOcean (height : float) : AOceanManager :=
  mkOceanManager (fun location => mkFVector (Vec.X location) (Vec.Y location) height).

(** A body at the origin, not rotated or scaled, of mass 100, at rest. *)
Definition RestingBody (simulating : bool) : UPrimitiveComponent :=
  mkPrimitive simulating
    (mkTransform (fun v => v) Vec.ZeroVector)
    (F32.of_int 100) F32.zero F32.zero Vec.ZeroVector
    (Some (mkBodyInstance true (fun _ => Vec.ZeroVector)))
    [].

(** A world with gravity [-980] and nothing else in it. *)
Definition EmptyWorld : UWorld := mkWorld [] (F32.neg (F32.of_int 980)) [] [].

(** The default component with a provider and test points set. *)
Definition Configured (manager : option AOceanManager) (points : list FVector)
  : UBuoyancyComponent :=
  mkBuoyancy manager
    (MeshDensity Defaults) (FluidDensity Defaults)
    (FluidLinearDamping Defaults) (FluidAngularDamping Defaults)
    (VelocityDamper Defaults) (ClampMaxVelocity Defaults)
    (MaxUnderwaterVelocity Defaults) (TestPointRadius Defaults)
    points
    (PointDensityOverride Defaults) (DrawDebugPoints Defaults)
    (EnableStayUprightConstraint Defaults)
    (StayUprightStiffness Defaults) (StayUprightDamping Defaults)
    (_SignedRadius Defaults) (_baseAngularDamping Defaults)
    (_baseLinearDamping Defaults).

(** A buoy with one test point at its origin in a flat sea of height 5,
    after [InitializeComponent]. *)
Definition Buoy (simulating : bool) : State :=
  InitializeComponent
    (mkState (Configured (Some (FlatOcean (F32.of_int 5))) [Vec.ZeroVector])
             (RestingBody simulating) EmptyWorld).

(** The scenario of the specification: one test point at the origin of the
    body, radius 1, gravity down, sea exactly at [point.z + signedRadius]. *)
Definition BoundaryState : State :=
  InitializeComponent
    (mkState
       (mkBuoyancy (Some (FlatOcean (F32.neg F32.one)))
          (MeshDensity Defaults) (FluidDensity Defaults)
          (FluidLinearDamping Defaults) (FluidAngularDamping Defaults)
          (VelocityDamper Defaults) false (MaxUnderwaterVelocity Defaults)
          F32.one [Vec.ZeroVector] [] false false
          (StayUprightStiffness Defaults) (StayUprightDamping Defaults)
          F32.zero F32.zero F32.zero)
       (RestingBody true) EmptyWorld).

(** A component without provider, and one with a provider and no test point. *)
Definition Unbound : State :=
  mkState (Configured None [Vec.ZeroVector]) (RestingBody true) EmptyWorld.

Definition Pointless : State :=
  mkState (Configured (Some (FlatOcean (F32.of_int 5))) [])
          (RestingBody true) EmptyWorld.

(** A world with gravity pointing up, and a component initialised in it with
    test-point radius [0.1f], in a sea of height [0.8f]. *)
Definition UpsideDownWorld : UWorld := mkWorld [] (F32.of_int 980) [] [].

Definition Tenth : float := F32.div F32.one (F32.of_int 10).
Definition EightTenths : float := F32.div (F32.of_int 8) (F32.of_int 10).
Definition Half : float := F32.div F32.one F32.two.

Definition UpsideDown : State :=
  InitializeComponent
    (mkState
       (mkBuoyancy (Some (FlatOcean EightTenths))
          (MeshDensity Defaults) (FluidDensity Defaults)
          (FluidLinearDamping Defaults) (FluidAngularDamping Defaults)
          (VelocityDamper Defaults) false (MaxUnderwaterVelocity Defaults)
          Tenth [mkFVector F32.zero F32.zero Half] [] false false
          (StayUprightStiffness Defaults) (StayUprightDamping Defaults)
          F32.zero F32.zero F32.zero)
       (RestingBody true) UpsideDownWorld).

(** A component with radius 0 at a point of height 0 in a sea of height 1:
    the divisor is 0 and the quotient is [+infinity]. *)
Definition ZeroRadius : State :=
  InitializeComponent
    (mkState
       (mkBuoyancy (Some (FlatOcean F32.one))
          (MeshDensity Defaults) (FluidDensity Defaults)
          (FluidLinearDamping Defaults) (FluidAngularDamping Defaults)
          (VelocityDamper Defaults) false (MaxUnderwaterVelocity Defaults)
          F32.zero [Vec.ZeroVector] [] false false
          (StayUprightStiffness Defaults) (StayUprightDamping Defaults)
          F32.zero F32.zero F32.zero)
       (RestingBody true) EmptyWorld).


(** A buoy drifting at [2^-15] along X with the clamp enabled at
    [MaxUnderwaterVelocity = 2^-20]: its squared speed is below
    [SMALL_NUMBER]. *)
Definition Drifting : State :=
  InitializeComponent
    (mkState
       (mkBuoyancy (Some (FlatOcean (F32.of_int 5)))
          (MeshDensity Defaults) (FluidDensity Defaults)
          (FluidLinearDamping Defaults) (FluidAngularDamping Defaults)
          (VelocityDamper Defaults) true (S754_finite false 8388608 (-43))
          (TestPointRadius Defaults) [Vec.ZeroVector] [] false false
          (StayUprightStiffness Defaults) (StayUprightDamping Defaults)
          F32.zero F32.zero F32.zero)
       (mkPrimitive true (mkTransform (fun v => v) Vec.ZeroVector)
          (F32.of_int 100) F32.zero F32.zero
          (mkFVector (S754_finite false 8388608 (-38)) F32.zero F32.zero)
          (Some (mkBodyInstance true (fun _ => Vec.ZeroVector))) [])
       EmptyWorld).

(** A buoy moving at a given velocity with the clamp enabled at the default
    limit 1000. *)
Definition Moving (velocity : FVector) : State :=
  InitializeComponent
    (mkState
       (mkBuoyancy (Some (FlatOcean (F32.of_int 5)))
          (MeshDensity Defaults) (FluidDensity Defaults)
          (FluidLinearDamping Defaults) (FluidAngularDamping Defaults)
          (VelocityDamper Defaults) true (MaxUnderwaterVelocity Defaults)
          (TestPointRadius Defaults) [Vec.ZeroVector] [] false false
          (StayUprightStiffness Defaults) (StayUprightDamping Defaults)
          F32.zero F32.zero F32.zero)
       (mkPrimitive true (mkTransform (fun v => v) Vec.ZeroVector)
          (F32.of_int 100) F32.zero F32.zero
          velocity
          (Some (mkBodyInstance true (fun _ => Vec.ZeroVector))) [])
       EmptyWorld).

(** At 2000 along X, and at 1000 along both X and Y. *)
Definition Speeding : State :=
  Moving (mkFVector (F32.of_int 2000) F32.zero F32.zero).

Definition Diagonal : State :=
  Moving (mkFVector (F32.of_int 1000) (F32.of_int 1000) F32.zero).

(** The component with another list of test points. *)
Definition WithTestPoints (c : UBuoyancyComponent) (points : list FVector)
  : UBuoyancyComponent :=
  mkBuoyancy (OceanManager c)
    (MeshDensity c) (FluidDensity c) (FluidLinearDamping c) (FluidAngularDamping c)
    (VelocityDamper c) (ClampMaxVelocity c) (MaxUnderwaterVelocity c)
    (TestPointRadius c) points (PointDensityOverride c) (DrawDebugPoints c)
    (EnableStayUprightConstraint c) (StayUprightStiffness c) (StayUprightDamping c)
    (_SignedRadius c) (_baseAngularDamping c) (_baseLinearDamping c).


(** Two test points, the first under water and the second above it, and a
    density override for index 0 only. *)
Definition TwoPoints (points : list FVector) : State :=
  mkState
    (mkBuoyancy (Some (FlatOcean (F32.of_int 5)))
       (MeshDensity Defaults) (FluidDensity Defaults)
       (FluidLinearDamping Defaults) (FluidAngularDamping Defaults)
       (VelocityDamper Defaults) false (MaxUnderwaterVelocity Defaults)
       (TestPointRadius Defaults) points [F32.of_int 300] false false
       (StayUprightStiffness Defaults) (StayUprightDamping Defaults)
       (F32.neg (F32.of_int 10)) F32.zero F32.zero)
    (RestingBody true) EmptyWorld.

Definition Low : FVector := Vec.ZeroVector.
Definition High : FVector := mkFVector F32.zero F32.zero (F32.of_int 100).


(** ** Further variants of a state *)

(** The component bound to another provider, and with other density
    overrides. *)
Definition WithOceanManager (c : UBuoyancyComponent) (manager : option AOceanManager)
  : UBuoyancyComponent :=
  mkBuoyancy manager
    (MeshDensity c) (FluidDensity c) (FluidLinearDamping c) (FluidAngularDamping c)
    (VelocityDamper c) (ClampMaxVelocity c) (MaxUnderwaterVelocity c)
    (TestPointRadius c) (TestPoints c) (PointDensityOverride c) (DrawDebugPoints c)
    (EnableStayUprightConstraint c) (StayUprightStiffness c) (StayUprightDamping c)
    (_SignedRadius c) (_baseAngularDamping c) (_baseLinearDamping c).

Definition WithPointDensityOverride (c : UBuoyancyComponent) (overrides : list float)
  : UBuoyancyComponent :=
  mkBuoyancy (OceanManager c)
    (MeshDensity c) (FluidDensity c) (FluidLinearDamping c) (FluidAngularDamping c)
    (VelocityDamper c) (ClampMaxVelocity c) (MaxUnderwaterVelocity c)
    (TestPointRadius c) (TestPoints c) overrides (DrawDebugPoints c)
    (EnableStayUprightConstraint c) (StayUprightStiffness c) (StayUprightDamping c)
    (_SignedRadius c) (_baseAngularDamping c) (_baseLinearDamping c).

Definition Rebound (s : State) (manager : AOceanManager) : State :=
  mkState (WithOceanManager (Self s) (Some manager)) (UpdatedPrimitive s) (World s).

Definition Overridden (s : State) (overrides : list float) : State :=
  mkState (WithPointDensityOverride (Self s) overrides) (UpdatedPrimitive s) (World s).

(** The test points with their indices, starting at [first]. *)
Definition IndexedFrom (first : nat) (points : list FVector) : list (Z * FVector) :=
  combine (map Z.of_nat (seq first (length points))) points.

Definition Indexed (points : list FVector) : list (Z * FVector) :=
  IndexedFrom 0 points.

(** The sign bit of a [float] that is not NaN. *)
Definition signbit (x : float) : bool :=
  match x with
  | S754_zero s | S754_infinity s | S754_finite s _ _ => s
  | S754_nan => false
  end.

Definition is_zero (x : float) : bool :=
  match x with
  | S754_zero _ => true
  | _ => false
  end.

(** The component with debug drawing switched on or off. *)
Definition WithDrawDebugPoints (c : UBuoyancyComponent) (draw : bool)
  : UBuoyancyComponent :=
  mkBuoyancy (OceanManager c)
    (MeshDensity c) (FluidDensity c) (FluidLinearDamping c) (FluidAngularDamping c)
    (VelocityDamper c) (ClampMaxVelocity c) (MaxUnderwaterVelocity c)
    (TestPointRadius c) (TestPoints c) (PointDensityOverride c) draw
    (EnableStayUprightConstraint c) (StayUprightStiffness c) (StayUprightDamping c)
    (_SignedRadius c) (_baseAngularDamping c) (_baseLinearDamping c).

(** A body moving at 2000 along X with the clamp enabled at 1000, its one
    test point 100 above the origin in a sea of height 5. *)
Definition HighAndDry : State :=
  mkState (WithTestPoints (Self Speeding) [High]) (UpdatedPrimitive Speeding)
          (World Speeding).

(** [x >= 0], or [x] is NaN. *)
Definition not_negative (x : float) : bool :=
  F32.is_nan x || F32.leb F32.zero x.

(** A sea of height 5 along the Z axis and 7 elsewhere, whose wave vector
    also has horizontal components. *)
Definition Swell : AOceanManager :=
  mkOceanManager
    (fun location =>
       if F32.eqb (Vec.X location) F32.zero && F32.eqb (Vec.Y location) F32.zero
       then mkFVector F32.one F32.two (F32.of_int 5)
       else mkFVector F32.one F32.two (F32.of_int 7)).

(** [x'] is NaN, a zero, or has the sign of [x]. *)
Definition keeps_sign (x x' : float) : bool :=
  F32.is_nan x' || is_zero x' || Bool.eqb (signbit x') (signbit x).

(** NaN, or the sign bit is clear. *)
Definition unsigned (x : float) : bool :=
  F32.is_nan x || negb (signbit x).

(** A buoy moving at (-2000, 3000, 0) with the clamp enabled at 1000. *)
Definition Veering : State :=
  Moving (mkFVector (F32.neg (F32.of_int 2000)) (F32.of_int 3000) F32.zero).

(** A buoy moving at 10 along X with the clamp enabled at -1000. *)
Definition Backwards : State :=
  InitializeComponent
    (mkState
       (mkBuoyancy (Some (FlatOcean (F32.of_int 5)))
          (MeshDensity Defaults) (FluidDensity Defaults)
          (FluidLinearDamping Defaults) (FluidAngularDamping Defaults)
          (VelocityDamper Defaults) true (F32.neg (F32.of_int 1000))
          (TestPointRadius Defaults) [Vec.ZeroVector] [] false false
          (StayUprightStiffness Defaults) (StayUprightDamping Defaults)
          F32.zero F32.zero F32.zero)
       (mkPrimitive true (mkTransform (fun v => v) Vec.ZeroVector)
          (F32.of_int 100) F32.zero F32.zero
          (mkFVector (F32.of_int 10) F32.zero F32.zero)
          (Some (mkBodyInstance true (fun _ => Vec.ZeroVector))) [])
       EmptyWorld).

Definition Drawing (s : State) (draw : bool) : State :=
  mkState (WithDrawDebugPoints (Self s) draw) (UpdatedPrimitive s) (World s).

(** A configured but not yet initialised component on a body with linear
    damping 3 and angular damping 2, its test point 100 above a sea of
    height 5. *)
Definition Damped : State :=
  mkState (Configured (Some (FlatOcean (F32.of_int 5))) [High])
    (mkPrimitive true (mkTransform (fun v => v) Vec.ZeroVector)
       (F32.of_int 100) (F32.of_int 3) F32.two Vec.ZeroVector
       (Some (mkBodyInstance true (fun _ => Vec.ZeroVector))) [])
    EmptyWorld.

(** The buoy on a body that sinks at 3 units per second. *)
Definition Sinking : State :=
  mkState (Self (Buoy true))
    (mkPrimitive true (mkTransform (fun v => v) Vec.ZeroVector)
       (F32.of_int 100) F32.zero F32.zero Vec.ZeroVector
       (Some (mkBodyInstance true
                (fun _ => mkFVector F32.zero F32.zero (F32.neg (F32.of_int 3)))))
       [])
    EmptyWorld.

(** ** The point loop by index

    [for (int pointIndex = 0; pointIndex < TotalPoints; pointIndex++)] with
    [TestPoints[pointIndex]] read from the array: the loop ends when its
    condition fails, and reading at an index outside the array is an error
    of its own.  [fuel] bounds the number of times the condition is
    evaluated. *)
Inductive LoopOutcome :=
| Finished (l : LoopState)
| OutOfRange (pointIndex : Z)
| OutOfFuel.

Fixpoint IndexLoop (fuel : nat) (manager : AOceanManager) (TotalPoints : float)
  (transform : FTransform) (points : list FVector) (pointIndex : Z)
  (l : LoopState) : LoopOutcome :=
  match fuel with
  | O => OutOfFuel
  | S fuel' =>
      if F32.ltb (F32.of_int pointIndex) TotalPoints
      then
        if (0 <=? pointIndex) && (pointIndex <? Z.of_nat (length points))
        then
          match nth_error points (Z.to_nat pointIndex) with
          | Some testPoint =>
              IndexLoop fuel' manager TotalPoints transform points (pointIndex + 1)
                (PointStep manager TotalPoints transform pointIndex testPoint l)
          | None => OutOfRange pointIndex
          end
        else OutOfRange pointIndex
      else Finished l
  end.

(** ** Real values of floats

    The velocity clamp is stated over the reals: [val f] is the real number
    a finite float denotes, [u32] the unit of rounding of binary32 and
    [eta32] half its least positive number. *)
Definition val (f : float) : R := (IZR (ival f) / IZR (2 ^ 149))%R.

Definition u32 : R := (/ IZR (2 ^ 24))%R.

Definition eta32 : R := (/ IZR (2 ^ 150))%R.

(** [2^127], a float above every value the clamp forms. *)
Definition Huge : float := S754_finite false 8388608 104.

(** A buoy moving at [2^127] along X, with the clamp enabled at 1000: the
    square of its speed overflows. *)
Definition Racing : State := Moving (mkFVector Huge F32.zero F32.zero).

(** A buoy moving at [(3, 4, 0)] with the clamp enabled at the least
    positive float, [2^-149]. *)
Definition Crawling : State :=
  InitializeComponent
    (mkState
       (mkBuoyancy (Some (FlatOcean (F32.of_int 5)))
          (MeshDensity Defaults) (FluidDensity Defaults)
          (FluidLinearDamping Defaults) (FluidAngularDamping Defaults)
          (VelocityDamper Defaults) true (S754_finite false 1 (-149))
          (TestPointRadius Defaults) [Vec.ZeroVector] [] false false
          (StayUprightStiffness Defaults) (StayUprightDamping Defaults)
          F32.zero F32.zero F32.zero)
       (mkPrimitive true (mkTransform (fun v => v) Vec.ZeroVector)
          (F32.of_int 100) F32.zero F32.zero
          (mkFVector (F32.of_int 3) (F32.of_int 4) F32.zero)
          (Some (mkBodyInstance true (fun _ => Vec.ZeroVector))) [])
       EmptyWorld).

(** Quarter of the step at which a square root with remainder [r] above the
    integer root [q] is placed: on the root, below or above the middle. *)
Definition sqrt_pick (r q : Z) : Z :=
  if r =? 0 then 0 else if r <=? q then 1 else 3.

(** The real speed of a velocity. *)
Definition speed (v : FVector) : R :=
  sqrt (val (Vec.X v) * val (Vec.X v) + val (Vec.Y v) * val (Vec.Y v)
        + val (Vec.Z v) * val (Vec.Z v))%R.

(** Writes the powers of two under [IZR] as numerals, for [lra]. *)
Ltac consts :=
  unfold u32, eta32 in *;
  repeat match goal with
    | H : context [IZR (2 ^ ?k)] |- _ =>
        let v := eval vm_compute in (2 ^ k)%Z in change (2 ^ k)%Z with v in H
    | |- context [IZR (2 ^ ?k)] =>
        let v := eval vm_compute in (2 ^ k)%Z in change (2 ^ k)%Z with v
    end.

(** * Binary32 arithmetic rounds the exact result monotonically *)

Lemma digits2_pos_bounds (p : positive) :
  2 ^ (Zpos (digits2_pos p) - 1) <= Zpos p < 2 ^ Zpos (digits2_pos p).
Proof.
  induction p as [p IH | p IH |]; cbn [digits2_pos].
  - rewrite Pos2Z.inj_succ.
    replace (Z.succ (Zpos (digits2_pos p)) - 1) with (Z.succ (Zpos (digits2_pos p) - 1)) by lia.
    rewrite !Z.pow_succ_r by lia. lia.
  - rewrite Pos2Z.inj_succ.
    replace (Z.succ (Zpos (digits2_pos p)) - 1) with (Z.succ (Zpos (digits2_pos p) - 1)) by lia.
    rewrite !Z.pow_succ_r by lia. lia.
  - cbn. lia.
Qed.

Lemma digits2_pos_le (p : positive) (k : Z) :
  0 <= k -> Zpos p < 2 ^ k -> Zpos (digits2_pos p) <= k.
Proof.
  intros Hk Hp. destruct (digits2_pos_bounds p) as [Hlo _].
  destruct (Z_le_gt_dec (Zpos (digits2_pos p)) k) as [|Hgt]; [assumption|].
  exfalso. assert (2 ^ k <= 2 ^ (Zpos (digits2_pos p) - 1)) by (apply Z.pow_le_mono_r; lia).
  lia.
Qed.

Lemma digits2_pos_ge (p : positive) (k : Z) :
  0 <= k -> 2 ^ k <= Zpos p -> k < Zpos (digits2_pos p).
Proof.
  intros Hk Hp. destruct (digits2_pos_bounds p) as [_ Hhi].
  destruct (Z_lt_le_dec k (Zpos (digits2_pos p))) as [|Hle]; [assumption|].
  exfalso. assert (2 ^ Zpos (digits2_pos p) <= 2 ^ k) by (apply Z.pow_le_mono_r; lia).
  lia.
Qed.

Lemma iter_xO_val (p k : positive) :
  Zpos (Pos.iter xO p k) = Zpos p * 2 ^ Zpos k.
Proof.
  revert p. induction k as [|k IH] using Pos.peano_ind; intros p.
  - cbn. lia.
  - rewrite Pos.iter_succ, Pos2Z.inj_succ, Z.pow_succ_r by lia.
    rewrite Pos2Z.inj_xO, IH. lia.
Qed.

Lemma iter_xO_digits (p k : positive) :
  Zpos (digits2_pos (Pos.iter xO p k)) = Zpos (digits2_pos p) + Zpos k.
Proof.
  revert p. induction k as [|k IH] using Pos.peano_ind; intros p.
  - cbn. lia.
  - rewrite Pos.iter_succ. cbn [digits2_pos]. rewrite Pos2Z.inj_succ, IH. lia.
Qed.

Lemma loc_of_shr_record_of_loc m l :
  loc_of_shr_record (shr_record_of_loc m l) = l.
Proof. destruct l as [|[]]; reflexivity. Qed.

Lemma shr_m_shr_record_of_loc m l : shr_m (shr_record_of_loc m l) = m.
Proof. destruct l as [|[]]; reflexivity. Qed.

Lemma Bracket_nonneg n d b m e l : Bracket n d b m e l -> 0 <= n -> 0 <= m.
Proof.
  intros [He Hd Hlo Hhi _] Hn.
  assert (0 < 2 ^ (e - b)) by (apply Z.pow_pos_nonneg; lia).
  nia.
Qed.

Lemma shr_1_spec m r s :
  0 <= m ->
  shr_1 (Build_shr_record m r s) = Build_shr_record (m / 2) (Z.odd m) (r || s).
Proof.
  intros Hm. destruct m as [|[p|p|]|p]; try lia; cbn [shr_1].
  - reflexivity.
  - f_equal. apply Z.div_unique with (r := 1); lia.
  - f_equal. apply Z.div_unique with (r := 0); lia.
  - reflexivity.
Qed.

Lemma shr_1_bracket n d b mrs e :
  0 <= n -> BracketR n d b mrs e -> BracketR n d b (shr_1 mrs) (e + 1).
Proof.
  intros Hn H. pose proof (Bracket_nonneg _ _ _ _ _ _ H Hn) as Hm.
  destruct H as [He Hd Hlo Hhi Hloc].
  assert (Hq : 0 < 2 ^ (e - b)) by (apply Z.pow_pos_nonneg; lia).
  assert (Hq2 : 2 ^ (e + 1 - b) = 2 * 2 ^ (e - b)).
  { replace (e + 1 - b) with (Z.succ (e - b)) by lia. apply Z.pow_succ_r; lia. }
  destruct mrs as [m r s]. cbn [shr_m] in *.
  rewrite shr_1_spec by assumption.
  set (Q := 2 ^ (e - b) * d) in *.
  assert (HQ : 0 < Q) by (subst Q; nia).
  assert (HQ2 : 2 ^ (e + 1 - b) * d = 2 * Q) by (subst Q; rewrite Hq2; ring).
  pose proof (Z.div_mod m 2 ltac:(lia)) as Hdm.
  pose proof (Z.mod_pos_bound m 2 ltac:(lia)) as Hmod.
  rewrite Zmod_odd in Hdm, Hmod.
  set (m' := m / 2) in *. clearbody m'.
  assert (Hm2 : m = 2 * m' + (if Z.odd m then 1 else 0)) by exact Hdm.
  clear Hdm Hmod.
  unfold loc_of in Hloc.
  constructor; cbn [shr_m loc_of_shr_record]; rewrite ?HQ2; try lia.
  - destruct (Z.odd m); nia.
  - destruct (Z.odd m); nia.
  - unfold loc_of.
    destruct (Z.eqb_spec (n - m * Q) 0) as [E0|E0];
      [|destruct (Z.compare_spec (2 * (n - m * Q)) Q) as [E1|E1|E1]];
      destruct r, s; cbn in Hloc; try discriminate Hloc; cbn [orb];
      destruct (Z.odd m);
      destruct (Z.eqb_spec (n - m' * (2 * Q)) 0) as [F0|F0]; try nia;
      destruct (Z.compare_spec (2 * (n - m' * (2 * Q))) (2 * Q)) as [F1|F1|F1];
      try nia; reflexivity.
Qed.

Lemma iter_shr_1_bracket n d b :
  0 <= n ->
  forall k mrs e, BracketR n d b mrs e ->
                  BracketR n d b (iter_pos shr_1 k mrs) (e + Zpos k).
Proof.
  intros Hn. induction k as [k IH|k IH|]; intros mrs e H; cbn [iter_pos].
  - replace (e + Zpos k~1) with (e + 1 + Zpos k + Zpos k) by lia.
    apply IH, IH, shr_1_bracket; assumption.
  - replace (e + Zpos k~0) with (e + Zpos k + Zpos k) by lia.
    apply IH, IH; assumption.
  - apply shr_1_bracket; assumption.
Qed.

Lemma shr_bracket n d b mrs e k :
  0 <= n -> 0 <= k -> BracketR n d b mrs e ->
  snd (shr mrs e k) = e + k /\ BracketR n d b (fst (shr mrs e k)) (e + k).
Proof.
  intros Hn Hk H. destruct k as [|k|k]; try lia; cbn [shr fst snd].
  - rewrite Z.add_0_r. auto.
  - split; [reflexivity|]. apply iter_shr_1_bracket; assumption.
Qed.

Lemma pow2_split (a c : Z) : 0 <= a -> 0 <= c -> 2 ^ (a + c) = 2 ^ a * 2 ^ c.
Proof. intros. apply Z.pow_add_r; assumption. Qed.

Lemma shr_fexp_canon n d b m e l :
  0 <= n -> Bracket n d b m e l -> Fine n d b e ->
  Canon n d b (fst (shr_fexp F32.prec F32.emax m e l))
              (snd (shr_fexp F32.prec F32.emax m e l)).
Proof.
  intros Hn H HF. pose proof (Bracket_nonneg _ _ _ _ _ _ H Hn) as Hm.
  unfold shr_fexp, fexp, emin, F32.prec, F32.emax.
  set (k := Z.max (Zdigits2 m + e - 24) (3 - 128 - 24) - e).
  assert (HR : BracketR n d b (shr_record_of_loc m l) e).
  { unfold BracketR. now rewrite shr_m_shr_record_of_loc, loc_of_shr_record_of_loc. }
  destruct H as [He Hd Hlo Hhi _].
  assert (Hq : 0 < 2 ^ (e - b)) by (apply Z.pow_pos_nonneg; lia).
  (* digits of m *)
  assert (HD : 0 <= Zdigits2 m /\ (m = 0 -> Zdigits2 m = 0) /\
               (0 < m -> 2 ^ (Zdigits2 m - 1) <= m) /\ m < 2 ^ Zdigits2 m).
  { destruct m as [|p|p]; try lia; cbn [Zdigits2].
    - cbn. lia.
    - pose proof (digits2_pos_bounds p). lia. }
  destruct HD as (HD0 & HDz & HDlo & HDhi).
  set (D := Zdigits2 m) in *.
  assert (Hk : 0 <= k).
  { destruct HF as [HF|HF]; [lia|].
    assert (2 ^ (e - b + 23) = 2 ^ (e - b) * 2 ^ 23) by (apply pow2_split; lia).
    assert (2 ^ 23 < 2 ^ D) by nia.
    assert (23 < D).
    { destruct (Z_lt_le_dec 23 D); [assumption|].
      assert (2 ^ D <= 2 ^ 23) by (apply Z.pow_le_mono_r; lia). lia. }
    lia. }
  destruct (shr_bracket n d b _ e k Hn Hk HR) as [Hs Hb].
  rewrite Hs. set (mrs := fst _) in *. clearbody mrs.
  pose proof Hb as [He' _ Hlo' Hhi' _].
  assert (Hq' : 2 ^ (e + k - b) = 2 ^ (e - b) * 2 ^ k).
  { replace (e + k - b) with (e - b + k) by lia. apply pow2_split; lia. }
  assert (Hpk : 0 < 2 ^ k) by (apply Z.pow_pos_nonneg; lia).
  rewrite Hq' in Hlo', Hhi'.
  constructor; [assumption|lia| |].
  - (* fewer than 2^24 *)
    assert (Hle : D <= 24 + k) by lia.
    assert (2 ^ D <= 2 ^ (24 + k)) by (apply Z.pow_le_mono_r; lia).
    assert (2 ^ (24 + k) = 2 ^ 24 * 2 ^ k) by (apply pow2_split; lia).
    assert (shr_m mrs * 2 ^ k < 2 ^ D).
    { apply Z.mul_lt_mono_pos_r with (p := 2 ^ (e - b) * d); [nia|]. nia. }
    nia.
  - intros Hsmall.
    destruct (Z.eq_dec (e + k) (-149)) as [|Hne]; [assumption|exfalso].
    assert (Hk' : k = D - 24) by lia.
    assert (0 < m) by (destruct (Z.eq_dec m 0); [specialize (HDz ltac:(assumption)); lia|lia]).
    specialize (HDlo ltac:(assumption)).
    assert (2 ^ (D - 1) = 2 ^ 23 * 2 ^ k).
    { replace (D - 1) with (23 + k) by lia. apply pow2_split; lia. }
    assert (2 ^ 23 * 2 ^ k * (2 ^ (e - b) * d) <= n) by nia.
    assert (2 ^ 23 < shr_m mrs + 1).
    { apply Z.mul_lt_mono_pos_r with (p := 2 ^ (e - b) * 2 ^ k * d); [nia|]. nia. }
    lia.
Qed.

Lemma round_nearest_even_range m l :
  m <= round_nearest_even m l <= m + 1.
Proof.
  unfold round_nearest_even. destruct l as [|[]]; try lia.
  destruct (Z.even m); lia.
Qed.

Lemma shr_fexp_small m E :
  -149 <= E -> 0 <= m < 2 ^ 24 ->
  shr_fexp F32.prec F32.emax m E loc_Exact = (shr_record_of_loc m loc_Exact, E).
Proof.
  intros HE Hm. unfold shr_fexp, fexp, emin, F32.prec, F32.emax.
  assert (HD : Zdigits2 m <= 24).
  { destruct m as [|p|p]; cbn [Zdigits2]; try lia.
    apply digits2_pos_le; lia. }
  set (k := Z.max (Zdigits2 m + E - 24) (3 - 128 - 24) - E).
  assert (Hk : k <= 0) by lia. clearbody k.
  destruct k as [|k|k]; try lia; reflexivity.
Qed.

Lemma binary_round_aux_finish n d b s m e l :
  0 <= n -> Bracket n d b m e l -> Fine n d b e ->
  binary_round_aux F32.prec F32.emax s m e l
  = finish s (fst (shr_fexp F32.prec F32.emax m e l))
             (snd (shr_fexp F32.prec F32.emax m e l)).
Proof.
  intros Hn H HF. pose proof (shr_fexp_canon _ _ _ _ _ _ Hn H HF) as HC.
  unfold binary_round_aux.
  destruct (shr_fexp F32.prec F32.emax m e l) as [mrs E]. cbn [fst snd] in *.
  destruct HC as [Hb HE Hhi Hlo].
  pose proof (Bracket_nonneg _ _ _ _ _ _ Hb Hn) as Hm.
  unfold finish.
  pose proof (round_nearest_even_range (shr_m mrs) (loc_of_shr_record mrs)) as Hr.
  set (r := round_nearest_even (shr_m mrs) (loc_of_shr_record mrs)) in *.
  clearbody r.
  destruct (Z.ltb_spec r (2 ^ 24)) as [Hlt|Hge].
  - rewrite shr_fexp_small by lia. cbn [shr_m shr_record_of_loc].
    destruct r as [|p|p]; try lia; cbn [Z.eqb]; reflexivity.
  - assert (r = 2 ^ 24) by lia. subst r.
    unfold shr_fexp, fexp, emin, F32.prec, F32.emax.
    change (Zdigits2 (2 ^ 24)) with 25.
    replace (Z.max (25 + E - 24) (3 - 128 - 24) - E) with 1 by lia.
    cbn. reflexivity.
Qed.

Lemma finish_fin s mrs E :
  finish s mrs E = fin s (round_nearest_even (shr_m mrs) (loc_of_shr_record mrs)) E.
Proof. reflexivity. Qed.

Lemma SFleb_pos_finite m1 e1 m2 e2 :
  e1 < e2 \/ (e1 = e2 /\ (m1 <= m2)%positive) ->
  SFleb (S754_finite false m1 e1) (S754_finite false m2 e2) = true.
Proof.
  intros H. unfold SFleb, SFcompare.
  destruct (Z.compare_spec e1 e2) as [E|E|E].
  - destruct H as [H|[_ H]]; [lia|].
    change (Pos.compare_cont Eq m1 m2) with (Pos.compare m1 m2).
    destruct (Pos.compare_spec m1 m2) as [F|F|F]; try reflexivity. lia.
  - reflexivity.
  - lia.
Qed.

Lemma fin_mono r1 E1 r2 E2 :
  0 <= r1 <= 2 ^ 24 -> 0 <= r2 <= 2 ^ 24 ->
  (E1 = E2 /\ r1 <= r2) \/ (E1 < E2 /\ 2 ^ 23 <= r2) ->
  SFleb (fin false r1 E1) (fin false r2 E2) = true.
Proof.
  intros H1 H2 H. unfold fin.
  destruct (Z.eqb_spec r1 0) as [Z1|Z1]; destruct (Z.eqb_spec r2 0) as [Z2|Z2];
    try lia.
  - reflexivity.
  - destruct (r2 <? 2 ^ 24); [destruct (E2 <=? 104)|destruct (E2 + 1 <=? 104)];
      reflexivity.
  - destruct (Z.ltb_spec r1 (2 ^ 24)) as [L1|L1];
      destruct (Z.ltb_spec r2 (2 ^ 24)) as [L2|L2];
      [destruct (Z.leb_spec E1 104); destruct (Z.leb_spec E2 104)
      |destruct (Z.leb_spec E1 104); destruct (Z.leb_spec (E2 + 1) 104)
      |destruct (Z.leb_spec (E1 + 1) 104); destruct (Z.leb_spec E2 104)
      |destruct (Z.leb_spec (E1 + 1) 104); destruct (Z.leb_spec (E2 + 1) 104)];
      try reflexivity; try lia.
    all: apply SFleb_pos_finite.
    all: destruct r1 as [|p1|p1]; try lia; destruct r2 as [|p2|p2]; try lia.
    all: cbn [Z.to_pos]; lia.
Qed.

Lemma finish_mono n1 d1 n2 d2 b mrs1 E1 mrs2 E2 :
  0 <= n1 -> 0 <= n2 ->
  Canon n1 d1 b mrs1 E1 -> Canon n2 d2 b mrs2 E2 ->
  n1 * d2 <= n2 * d1 ->
  SFleb (finish false mrs1 E1) (finish false mrs2 E2) = true.
Proof.
  intros Hn1 Hn2 [B1 Hm1 Hh1 Hl1] [B2 Hm2 Hh2 Hl2] Hle.
  pose proof (Bracket_nonneg _ _ _ _ _ _ B1 Hn1) as P1.
  pose proof (Bracket_nonneg _ _ _ _ _ _ B2 Hn2) as P2.
  rewrite !finish_fin.
  pose proof (round_nearest_even_range (shr_m mrs1) (loc_of_shr_record mrs1)) as R1.
  pose proof (round_nearest_even_range (shr_m mrs2) (loc_of_shr_record mrs2)) as R2.
  destruct B1 as [Hb1 Hd1 Hlo1 Hhi1 Hloc1]. destruct B2 as [Hb2 Hd2 Hlo2 Hhi2 Hloc2].
  assert (Hq1 : 0 < 2 ^ (E1 - b)) by (apply Z.pow_pos_nonneg; lia).
  assert (Hq2 : 0 < 2 ^ (E2 - b)) by (apply Z.pow_pos_nonneg; lia).
  apply fin_mono; try lia.
  destruct (Z.lt_trichotomy E1 E2) as [Hlt|[Heq|Hgt]].
  - right. split; [assumption|]. lia.
  - left. split; [assumption|]. subst E2.
    set (P := 2 ^ (E1 - b)) in *.
    assert (HM : shr_m mrs1 <= shr_m mrs2).
    { assert (shr_m mrs1 * (P * d1 * d2) < (shr_m mrs2 + 1) * (P * d1 * d2)) by nia.
      assert (0 < P * d1 * d2) by nia.
      assert (shr_m mrs1 < shr_m mrs2 + 1) by (eapply Z.mul_lt_mono_pos_r; eassumption).
      lia. }
    destruct (Z.eq_dec (shr_m mrs1) (shr_m mrs2)) as [HMe|HMn]; [|lia].
    set (M := shr_m mrs1) in *. rewrite <- HMe in *. clear HMe HM.
    rewrite Hloc1, Hloc2. unfold loc_of, round_nearest_even.
    set (X1 := n1 - M * (P * d1)). set (X2 := n2 - M * (P * d2)).
    assert (HX : X1 * d2 <= X2 * d1) by (subst X1 X2; nia).
    assert (0 <= X1) by (subst X1; lia). assert (0 <= X2) by (subst X2; lia).
    destruct (Z.eqb_spec X1 0) as [A1|A1]; destruct (Z.eqb_spec X2 0) as [A2|A2];
      try (destruct (Z.compare_spec (2 * X1) (P * d1)) as [C1|C1|C1]);
      try (destruct (Z.compare_spec (2 * X2) (P * d2)) as [C2|C2|C2]);
      try (destruct (Z.even M)); try lia; try nia.
  - exfalso.
    assert (Hp : 2 ^ (E1 - b) = 2 ^ (E2 - b) * 2 ^ (E1 - E2)).
    { replace (E1 - b) with ((E2 - b) + (E1 - E2)) by lia. apply pow2_split; lia. }
    assert (Hp2 : 2 <= 2 ^ (E1 - E2)).
    { change 2 with (2 ^ 1) at 1. apply Z.pow_le_mono_r; lia. }
    assert (2 ^ 23 <= shr_m mrs1) by lia.
    set (P := 2 ^ (E2 - b)) in *. set (K := 2 ^ (E1 - E2)) in *.
    rewrite Hp in *.
    assert (2 ^ 24 = 2 * 2 ^ 23) by reflexivity.
    assert (n2 * d1 < 2 ^ 24 * P * d2 * d1) by nia.
    assert (2 ^ 23 * (P * K) * d1 * d2 <= n1 * d2) by nia.
    assert (2 ^ 24 * P * d2 * d1 <= 2 ^ 23 * (P * K) * d1 * d2) by nia.
    lia.
Qed.

Lemma loc_of_scale r q k : 0 < k -> loc_of (r * k) (q * k) = loc_of r q.
Proof.
  intros Hk. unfold loc_of.
  destruct (Z.eqb_spec (r * k) 0) as [A|A]; destruct (Z.eqb_spec r 0) as [B|B];
    try nia; try reflexivity.
  f_equal.
  destruct (Z.compare_spec (2 * (r * k)) (q * k)); destruct (Z.compare_spec (2 * r) q);
    try reflexivity; nia.
Qed.

Lemma Bracket_rebase n d b m e l j :
  0 <= j -> Bracket n d b m e l -> Bracket (n * 2 ^ j) d (b - j) m e l.
Proof.
  intros Hj [He Hd Hlo Hhi Hloc].
  assert (Hp : 2 ^ (e - (b - j)) = 2 ^ (e - b) * 2 ^ j).
  { replace (e - (b - j)) with (e - b + j) by lia. apply pow2_split; lia. }
  assert (Hk : 0 < 2 ^ j) by (apply Z.pow_pos_nonneg; lia).
  assert (Hq : 0 < 2 ^ (e - b)) by (apply Z.pow_pos_nonneg; lia).
  constructor; rewrite ?Hp; try lia; try nia.
  rewrite Hloc.
  replace (n * 2 ^ j - m * (2 ^ (e - b) * 2 ^ j * d))
    with ((n - m * (2 ^ (e - b) * d)) * 2 ^ j) by ring.
  replace (2 ^ (e - b) * 2 ^ j * d) with (2 ^ (e - b) * d * 2 ^ j) by ring.
  symmetry. apply loc_of_scale. assumption.
Qed.

Lemma Bracket_scale n d b m e l k :
  0 < k -> Bracket n d b m e l -> Bracket (n * k) (d * k) b m e l.
Proof.
  intros Hk [He Hd Hlo Hhi Hloc].
  assert (Hq : 0 < 2 ^ (e - b)) by (apply Z.pow_pos_nonneg; lia).
  constructor; try lia; try nia.
  rewrite Hloc.
  replace (n * k - m * (2 ^ (e - b) * (d * k)))
    with ((n - m * (2 ^ (e - b) * d)) * k) by ring.
  replace (2 ^ (e - b) * (d * k)) with (2 ^ (e - b) * d * k) by ring.
  symmetry. apply loc_of_scale. assumption.
Qed.

Lemma RoundsTo_rebase n d b f j :
  0 <= j -> RoundsTo n d b f -> RoundsTo (n * 2 ^ j) d (b - j) f.
Proof.
  intros Hj (mrs & E & [B H1 H2 H3] & ->). exists mrs, E. split; [|reflexivity].
  constructor; try assumption. apply Bracket_rebase; assumption.
Qed.

Lemma RoundsTo_scale n d b f k :
  0 < k -> RoundsTo n d b f -> RoundsTo (n * k) (d * k) b f.
Proof.
  intros Hj (mrs & E & [B H1 H2 H3] & ->). exists mrs, E. split; [|reflexivity].
  constructor; try assumption. apply Bracket_scale; assumption.
Qed.

Lemma RoundsTo_mono n1 d1 n2 d2 b f1 f2 :
  0 <= n1 -> 0 <= n2 ->
  RoundsTo n1 d1 b f1 -> RoundsTo n2 d2 b f2 -> n1 * d2 <= n2 * d1 ->
  SFleb f1 f2 = true.
Proof.
  intros Hn1 Hn2 (m1 & E1 & C1 & ->) (m2 & E2 & C2 & ->) Hle.
  exact (finish_mono _ _ _ _ _ _ _ _ _ Hn1 Hn2 C1 C2 Hle).
Qed.

Lemma binary_round_aux_rounds n d b m e l :
  0 <= n -> Bracket n d b m e l -> Fine n d b e ->
  RoundsTo n d b (binary_round_aux F32.prec F32.emax false m e l).
Proof.
  intros Hn H HF.
  exists (fst (shr_fexp F32.prec F32.emax m e l)), (snd (shr_fexp F32.prec F32.emax m e l)).
  split; [apply shr_fexp_canon; assumption|].
  eapply binary_round_aux_finish; eassumption.
Qed.

Lemma finish_opp mrs E : finish true mrs E = SFopp (finish false mrs E).
Proof.
  unfold finish.
  destruct (_ =? 0); [reflexivity|].
  destruct (_ <? _); [destruct (E <=? 104)|destruct (E + 1 <=? 104)]; reflexivity.
Qed.

Lemma binary_round_aux_opp n d b m e l :
  0 <= n -> Bracket n d b m e l -> Fine n d b e ->
  binary_round_aux F32.prec F32.emax true m e l
  = SFopp (binary_round_aux F32.prec F32.emax false m e l).
Proof.
  intros Hn H HF.
  rewrite !(binary_round_aux_finish n d b) by assumption. apply finish_opp.
Qed.

Lemma finish_shape mrs E : nonneg_shape (finish false mrs E).
Proof.
  unfold finish.
  destruct (_ =? 0); [exact I|].
  destruct (_ <? _); [destruct (E <=? 104)|destruct (E + 1 <=? 104)]; exact I.
Qed.

Lemma RoundsTo_shape n d b f : RoundsTo n d b f -> nonneg_shape f.
Proof. intros (mrs & E & _ & ->). apply finish_shape. Qed.

Lemma digits2_pos_unique p k :
  2 ^ (k - 1) <= Zpos p < 2 ^ k -> 0 < k -> Zpos (digits2_pos p) = k.
Proof.
  intros [Hlo Hhi] Hk.
  pose proof (digits2_pos_le p k ltac:(lia) Hhi).
  pose proof (digits2_pos_ge p (k - 1) ltac:(lia) Hlo). lia.
Qed.

Lemma finish_valid n d b mrs E :
  0 <= n -> Canon n d b mrs E -> F32.valid (finish false mrs E) = true.
Proof.
  intros Hn [B HE Hhi Hlo].
  pose proof (Bracket_nonneg _ _ _ _ _ _ B Hn) as Hm.
  rewrite finish_fin.
  pose proof (round_nearest_even_range (shr_m mrs) (loc_of_shr_record mrs)) as Hr.
  set (r := round_nearest_even _ _) in *. clearbody r.
  unfold fin.
  destruct (Z.eqb_spec r 0); [reflexivity|].
  destruct (Z.ltb_spec r (2 ^ 24)).
  - destruct (Z.leb_spec E 104); [|reflexivity].
    destruct r as [|p|p]; try lia. cbn [Z.to_pos].
    unfold F32.valid, valid_binary, bounded, canonical_mantissa, fexp, emin,
      F32.prec, F32.emax.
    apply andb_true_intro. split; [|apply Z.leb_le; lia].
    apply Z.eqb_eq.
    pose proof (digits2_pos_le p 24 ltac:(lia) ltac:(lia)).
    destruct (Z.eq_dec E (-149)); [lia|].
    assert (2 ^ 23 <= Zpos p) by lia.
    pose proof (digits2_pos_ge p 23 ltac:(lia) ltac:(assumption)). lia.
  - destruct (Z.leb_spec (E + 1) 104); [|reflexivity].
    unfold F32.valid, valid_binary, bounded, canonical_mantissa, fexp, emin,
      F32.prec, F32.emax.
    apply andb_true_intro. split; [|apply Z.leb_le; lia].
    apply Z.eqb_eq. change (Zpos (digits2_pos 8388608)) with 24. lia.
Qed.

Lemma RoundsTo_valid n d b f : 0 <= n -> RoundsTo n d b f -> F32.valid f = true.
Proof. intros Hn (mrs & E & C & ->). eapply finish_valid; eassumption. Qed.

(** *** The order of [SFcompare] *)

Lemma SFcompare_key x y :
  F32.is_nan x = false -> F32.is_nan y = false ->
  SFcompare x y = Some (lex_compare (key x) (key y)).
Proof.
  destruct x as [sx|sx| |sx mx ex], y as [sy|sy| |sy my ey]; cbn [F32.is_nan];
    intros Hx Hy; try discriminate; try (destruct sx); try (destruct sy);
    try reflexivity.
  all: cbn [SFcompare key lex_compare]; f_equal.
  all: change (-1 ?= -1) with Eq; cbv iota.
  all: rewrite Z.compare_opp.
  all: rewrite (Z.compare_antisym ex ey).
  all: destruct (ex ?= ey); cbn [CompOpp]; try reflexivity.
  all: change (Pos.compare_cont Eq mx my) with (Pos.compare mx my).
  all: rewrite Z.compare_opp; cbn [Z.compare].
  all: now rewrite (Pos.compare_antisym mx my).
Qed.

Lemma lex_compare_le a b :
  lex_le a b <-> (lex_compare a b = Lt \/ lex_compare a b = Eq).
Proof.
  destruct a as [[a1 a2] a3], b as [[b1 b2] b3]. unfold lex_le, lex_compare.
  destruct (Z.compare_spec a1 b1) as [C1|C1|C1];
    destruct (Z.compare_spec a2 b2) as [C2|C2|C2];
    destruct (Z.compare_spec a3 b3) as [C3|C3|C3]; split; intros H;
    try lia; try (left; reflexivity); try (right; reflexivity);
    try (destruct H; discriminate).
Qed.

Lemma lex_compare_lt a b : lex_lt a b <-> lex_compare a b = Lt.
Proof.
  destruct a as [[a1 a2] a3], b as [[b1 b2] b3]. unfold lex_lt, lex_compare.
  destruct (Z.compare_spec a1 b1) as [C1|C1|C1];
    destruct (Z.compare_spec a2 b2) as [C2|C2|C2];
    destruct (Z.compare_spec a3 b3) as [C3|C3|C3]; split; intros H;
    try lia; try reflexivity; try discriminate.
Qed.

Lemma SFleb_spec x y :
  SFleb x y = true <->
  F32.is_nan x = false /\ F32.is_nan y = false /\ lex_le (key x) (key y).
Proof.
  destruct (F32.is_nan x) eqn:Nx.
  { destruct x; try discriminate. cbn. split; [discriminate|intros [? _]; discriminate]. }
  destruct (F32.is_nan y) eqn:Ny.
  { destruct y; try discriminate. destruct x; cbn;
      (split; [discriminate|intros (_ & ? & _); discriminate]). }
  unfold SFleb. rewrite SFcompare_key by assumption.
  rewrite lex_compare_le.
  destruct (lex_compare (key x) (key y)); split; intros H; auto;
    try discriminate; destruct H as (_ & _ & [H|H]); discriminate.
Qed.

Lemma SFltb_spec x y :
  SFltb x y = true <->
  F32.is_nan x = false /\ F32.is_nan y = false /\ lex_lt (key x) (key y).
Proof.
  destruct (F32.is_nan x) eqn:Nx.
  { destruct x; try discriminate. cbn. split; [discriminate|intros [? _]; discriminate]. }
  destruct (F32.is_nan y) eqn:Ny.
  { destruct y; try discriminate. destruct x; cbn;
      (split; [discriminate|intros (_ & ? & _); discriminate]). }
  unfold SFltb. rewrite SFcompare_key by assumption.
  rewrite lex_compare_lt.
  destruct (lex_compare (key x) (key y)); split; intros H; auto;
    try discriminate; destruct H as (_ & _ & H); discriminate.
Qed.

Lemma SFeqb_spec x y :
  SFeqb x y = true <->
  F32.is_nan x = false /\ F32.is_nan y = false /\ key x = key y.
Proof.
  destruct (F32.is_nan x) eqn:Nx.
  { destruct x; try discriminate. cbn. split; [discriminate|intros [? _]; discriminate]. }
  destruct (F32.is_nan y) eqn:Ny.
  { destruct y; try discriminate. destruct x; cbn;
      (split; [discriminate|intros (_ & ? & _); discriminate]). }
  unfold SFeqb. rewrite SFcompare_key by assumption.
  destruct (key x) as [[a1 a2] a3], (key y) as [[b1 b2] b3]. unfold lex_compare.
  destruct (Z.compare_spec a1 b1) as [C1|C1|C1];
    destruct (Z.compare_spec a2 b2) as [C2|C2|C2];
    destruct (Z.compare_spec a3 b3) as [C3|C3|C3]; split; intros H; auto;
    try discriminate;
    try (destruct H as (_ & _ & H); injection H; lia).
  repeat split. congruence.
Qed.

Lemma key_opp f :
  key (SFopp f) = (- fst (fst (key f)), - snd (fst (key f)), - snd (key f)).
Proof.
  destruct f as [s|s| |s m e]; try destruct s; cbn; try reflexivity.
  now rewrite Z.opp_involutive.
Qed.

Lemma is_nan_opp f : F32.is_nan (SFopp f) = F32.is_nan f.
Proof. destruct f; reflexivity. Qed.

Lemma SFleb_opp x y : SFleb (SFopp x) (SFopp y) = SFleb y x.
Proof.
  apply eq_true_iff_eq. rewrite !SFleb_spec, !is_nan_opp, !key_opp.
  destruct (key x) as [[a1 a2] a3], (key y) as [[b1 b2] b3]. cbn [fst snd lex_le].
  intuition lia.
Qed.

Lemma nonneg_shape_key f :
  nonneg_shape f -> F32.is_nan f = false /\ 0 <= fst (fst (key f)).
Proof. destruct f as [[]|[]| |[] m e]; cbn; intuition lia. Qed.

Lemma Rep_mono N1 d1 N2 d2 b f1 f2 :
  0 < d1 -> 0 < d2 ->
  Rep N1 d1 b f1 -> Rep N2 d2 b f2 -> N1 * d2 <= N2 * d1 ->
  SFleb f1 f2 = true.
Proof.
  intros Hd1 Hd2 H1 H2 Hle.
  destruct H1 as [[Z1 [s1 ->]]|[[P1 R1]|[M1 (g1 & R1 & ->)]]];
    destruct H2 as [[Z2 [s2 ->]]|[[P2 R2]|[M2 (g2 & R2 & ->)]]];
    try nia.
  - reflexivity.
  - apply RoundsTo_shape in R2. destruct f2 as [[]|[]| |[] m e]; try contradiction;
      reflexivity.
  - apply (RoundsTo_mono N1 d1 N2 d2 b); try lia; assumption.
  - apply RoundsTo_shape in R1. destruct g1 as [[]|[]| |[] m e]; try contradiction;
      reflexivity.
  - apply RoundsTo_shape in R1. apply RoundsTo_shape in R2.
    destruct g1 as [[]|[]| |[] m1 e1]; try contradiction;
      destruct f2 as [[]|[]| |[] m2 e2]; try contradiction; reflexivity.
  - rewrite SFleb_opp. apply (RoundsTo_mono (- N2) d2 (- N1) d1 b); try lia; assumption.
Qed.

Lemma Rep_valid N d b f : Rep N d b f -> F32.valid f = true.
Proof.
  intros [[_ [s ->]]|[[P R]|[M (g & R & ->)]]].
  - reflexivity.
  - apply (RoundsTo_valid N d b); [lia|assumption].
  - apply (RoundsTo_valid (- N) d b) in R; [|lia].
    destruct g; cbn in *; assumption.
Qed.

Lemma Rep_rebase N d b f j : 0 <= j -> Rep N d b f -> Rep (N * 2 ^ j) d (b - j) f.
Proof.
  intros Hj. assert (0 < 2 ^ j) by (apply Z.pow_pos_nonneg; lia).
  intros [[Z0 S]|[[P R]|[M (g & R & E)]]].
  - left. split; [nia|assumption].
  - right; left. split; [nia|]. apply RoundsTo_rebase; assumption.
  - right; right. split; [nia|]. exists g. split; [|assumption].
    replace (- (N * 2 ^ j)) with (- N * 2 ^ j) by ring.
    apply RoundsTo_rebase; assumption.
Qed.

Lemma Rep_scale N d b f k : 0 < k -> Rep N d b f -> Rep (N * k) (d * k) b f.
Proof.
  intros Hk [[Z0 S]|[[P R]|[M (g & R & E)]]].
  - left. split; [nia|assumption].
  - right; left. split; [nia|]. apply RoundsTo_scale; assumption.
  - right; right. split; [nia|]. exists g. split; [|assumption].
    replace (- (N * k)) with (- N * k) by ring.
    apply RoundsTo_scale; assumption.
Qed.

Lemma valid_finite_bounds s m e :
  F32.valid (S754_finite s m e) = true ->
  -149 <= e <= 104 /\ Zpos m < 2 ^ 24 /\ (Zpos m < 2 ^ 23 -> e = -149).
Proof.
  unfold F32.valid, valid_binary, bounded, canonical_mantissa, fexp, emin,
    F32.prec, F32.emax.
  intros H. apply andb_prop in H. destruct H as [H1 H2].
  apply Z.eqb_eq in H1. apply Z.leb_le in H2.
  pose proof (digits2_pos_bounds m) as [Hlo Hhi].
  assert (HD : Zpos (digits2_pos m) <= 24) by lia.
  assert (2 ^ Zpos (digits2_pos m) <= 2 ^ 24) by (apply Z.pow_le_mono_r; lia).
  repeat split; try lia.
  intros Hs. destruct (Z.eq_dec e (-149)); [assumption|exfalso].
  assert (Zpos (digits2_pos m) = 24) by lia.
  replace (Zpos (digits2_pos m) - 1) with 23 in Hlo by lia. lia.
Qed.

Lemma valid_RoundsTo m e :
  F32.valid (S754_finite false m e) = true ->
  RoundsTo (Zpos m) 1 e (S754_finite false m e).
Proof.
  intros Hv. destruct (valid_finite_bounds _ _ _ Hv) as (He & Hm & Hs).
  exists (shr_record_of_loc (Zpos m) loc_Exact), e. split.
  - constructor; cbn [shr_m shr_record_of_loc]; try lia; try assumption.
    constructor; cbn [shr_m shr_record_of_loc loc_of_shr_record];
      rewrite ?Z.sub_diag; change (2 ^ 0) with 1; try lia.
    replace (Zpos m - Zpos m * (1 * 1)) with 0 by lia. reflexivity.
  - unfold finish. cbn [shr_m shr_record_of_loc loc_of_shr_record round_nearest_even].
    cbn [Z.eqb]. destruct (Z.ltb_spec (Zpos m) (2 ^ 24)); [|lia].
    destruct (Z.leb_spec e 104); [|lia]. reflexivity.
Qed.

Lemma valid_Rep x :
  F32.valid x = true -> F32.is_finite x = true -> Rep (ival x) 1 (-149) x.
Proof.
  intros Hv Hf. destruct x as [s| | |s m e]; try discriminate.
  - left. split; [reflexivity|eauto].
  - destruct (valid_finite_bounds _ _ _ Hv) as (He & _).
    assert (Hp : 0 < 2 ^ (e + 149)) by (apply Z.pow_pos_nonneg; lia).
    assert (HR : RoundsTo (Zpos m * 2 ^ (e + 149)) 1 (-149) (S754_finite false m e)).
    { replace (-149) with (e - (e + 149)) by lia.
      apply RoundsTo_rebase; [lia|]. apply valid_RoundsTo.
      destruct s; exact Hv. }
    destruct s; cbn [ival].
    + right; right. split; [nia|]. exists (S754_finite false m e).
      split; [|reflexivity].
      replace (- (-1 * (Zpos m * 2 ^ (e + 149)))) with (Zpos m * 2 ^ (e + 149)) by ring.
      exact HR.
    + right; left. split; [nia|].
      replace (1 * (Zpos m * 2 ^ (e + 149))) with (Zpos m * 2 ^ (e + 149)) by ring.
      exact HR.
Qed.

Lemma key_eq_ival x y :
  F32.is_finite x = true -> F32.is_finite y = true -> key x = key y ->
  ival x = ival y.
Proof.
  destruct x as [sx| | |sx mx ex], y as [sy| | |sy my ey]; try discriminate;
    intros _ _; try destruct sx; try destruct sy; cbn; intros H;
    try discriminate; try reflexivity; injection H; intros; subst;
    try replace ex with ey by lia; try replace mx with my by lia; reflexivity.
Qed.

(** On valid finite floats the comparison is the comparison of values. *)
Lemma SFleb_ival x y :
  F32.valid x = true -> F32.valid y = true ->
  F32.is_finite x = true -> F32.is_finite y = true ->
  SFleb x y = true <-> ival x <= ival y.
Proof.
  intros Vx Vy Fx Fy.
  assert (Hmono : forall a c, F32.valid a = true -> F32.valid c = true ->
                  F32.is_finite a = true -> F32.is_finite c = true ->
                  ival a <= ival c -> SFleb a c = true).
  { intros a c Va Vc Fa Fc Hle.
    apply (Rep_mono (ival a) 1 (ival c) 1 (-149)); try lia;
      try (apply valid_Rep; assumption). }
  split; [|apply Hmono; assumption].
  intros Hle. destruct (Z_le_gt_dec (ival x) (ival y)) as [|Hgt]; [assumption|exfalso].
  assert (Hge : SFleb y x = true) by (apply Hmono; try assumption; lia).
  apply SFleb_spec in Hle, Hge.
  destruct Hle as (_ & _ & L1), Hge as (_ & _ & L2).
  assert (key x = key y).
  { destruct (key x) as [[a1 a2] a3], (key y) as [[b1 b2] b3]. cbn [lex_le] in *.
    f_equal; [f_equal|]; lia. }
  pose proof (key_eq_ival x y Fx Fy ltac:(assumption)). lia.
Qed.

Lemma SFltb_ival x y :
  F32.valid x = true -> F32.valid y = true ->
  F32.is_finite x = true -> F32.is_finite y = true ->
  SFltb x y = true <-> ival x < ival y.
Proof.
  intros Vx Vy Fx Fy.
  pose proof (SFleb_ival y x Vy Vx Fy Fx) as Hle.
  assert (Nx : F32.is_nan x = false) by (destruct x; try discriminate; reflexivity).
  assert (Ny : F32.is_nan y = false) by (destruct y; try discriminate; reflexivity).
  rewrite SFltb_spec. rewrite SFleb_spec in Hle.
  destruct (key x) as [[a1 a2] a3] eqn:Kx, (key y) as [[b1 b2] b3] eqn:Ky.
  cbn [lex_le lex_lt] in *. split.
  - intros (_ & _ & H).
    destruct (Z_lt_le_dec (ival x) (ival y)) as [|Hge]; [assumption|exfalso].
    apply Hle in Hge. destruct Hge as (_ & _ & Hge). lia.
  - intros Hlt. repeat split; try assumption.
    destruct (Z_lt_le_dec a1 b1); [lia|].
    destruct (Z.eq_dec a1 b1); [|exfalso; apply (Z.lt_irrefl (ival x));
      apply Z.lt_le_trans with (ival y); [assumption|apply Hle; repeat split; auto; lia]].
    right. split; [assumption|].
    destruct (Z_lt_le_dec a2 b2); [lia|].
    destruct (Z.eq_dec a2 b2); [|exfalso; apply (Z.lt_irrefl (ival x));
      apply Z.lt_le_trans with (ival y); [assumption|apply Hle; repeat split; auto; lia]].
    right. split; [assumption|].
    destruct (Z_lt_le_dec a3 b3); [lia|].
    exfalso; apply (Z.lt_irrefl (ival x));
      apply Z.lt_le_trans with (ival y); [assumption|apply Hle; repeat split; auto; lia].
Qed.

(** *** The operations round the exact result *)

Lemma shl_align_spec mx ex ex' :
  snd (shl_align mx ex ex') = Z.min ex ex' /\
  Zpos (fst (shl_align mx ex ex')) = Zpos mx * 2 ^ (ex - Z.min ex ex').
Proof.
  unfold shl_align. destruct (ex' - ex) as [|k|k] eqn:Hk; cbn [fst snd].
  - replace (Z.min ex ex') with ex by lia. rewrite Z.sub_diag. cbn. lia.
  - replace (Z.min ex ex') with ex by lia. rewrite Z.sub_diag. cbn. lia.
  - replace (Z.min ex ex') with ex' by lia. split; [reflexivity|].
    rewrite iter_xO_val. f_equal. f_equal. lia.
Qed.

Lemma binary_round_bracket p e :
  let mz := fst (shl_align p e (fexp F32.prec F32.emax (Zpos (digits2_pos p) + e))) in
  let ez := snd (shl_align p e (fexp F32.prec F32.emax (Zpos (digits2_pos p) + e))) in
  ez <= e /\ -149 <= Z.max ez (-149) /\ Zpos mz = Zpos p * 2 ^ (e - ez) /\
  Bracket (Zpos mz) 1 ez (Zpos mz) ez loc_Exact /\ Fine (Zpos mz) 1 ez ez /\
  Z.min e (-149) <= ez.
Proof.
  intros mz ez.
  destruct (shl_align_spec p e (fexp F32.prec F32.emax (Zpos (digits2_pos p) + e)))
    as [He Hm].
  fold mz in Hm. fold ez in He. rewrite <- He in Hm.
  unfold fexp, emin, F32.prec, F32.emax in He.
  pose proof (digits2_pos_bounds p) as [Hlo Hhi].
  set (D := Zpos (digits2_pos p)) in *.
  assert (HD : 0 < D) by (subst D; lia).
  repeat split; try lia.
  - rewrite Z.sub_diag. change (2 ^ 0) with 1. lia.
  - rewrite Z.sub_diag. change (2 ^ 0) with 1. lia.
  - rewrite Z.sub_diag. change (2 ^ 0) with 1.
    replace (Zpos mz - Zpos mz * (1 * 1)) with 0 by lia. reflexivity.
  - unfold Fine. rewrite Z.sub_diag. change (2 ^ (0 + 23) * 1) with (2 ^ 23).
    destruct (Z_le_gt_dec ez (-149)) as [|Hgt]; [left; assumption|right].
    rewrite Hm.
    destruct (Z_le_gt_dec (D - 24) 0) as [Hs|Hb].
    + (* at most 24 digits: aligned to exactly 24 *)
      assert (ez = D + e - 24) by lia.
      assert (2 ^ 23 = 2 ^ (D - 1) * 2 ^ (e - ez)).
      { rewrite <- pow2_split by lia. f_equal. lia. }
      assert (0 < 2 ^ (e - ez)) by (apply Z.pow_pos_nonneg; lia). nia.
    + assert (ez = e) by lia.
      replace (e - ez) with 0 by lia. change (2 ^ 0) with 1.
      assert (2 ^ 23 <= 2 ^ (D - 1)) by (apply Z.pow_le_mono_r; lia). lia.
Qed.

Lemma binary_round_pos p e b :
  b <= e -> b <= -149 ->
  RoundsTo (Zpos p * 2 ^ (e - b)) 1 b (binary_round F32.prec F32.emax false p e).
Proof.
  intros Hbe Hb. unfold binary_round.
  pose proof (binary_round_bracket p e) as H. cbv zeta in H.
  destruct (shl_align p e (fexp F32.prec F32.emax (Zpos (digits2_pos p) + e)))
    as [mz ez]. cbn [fst snd] in H.
  destruct H as (He & _ & Hm & HB & HF & Hlow).
  assert (Hbz : b <= ez) by lia.
  replace (Zpos p * 2 ^ (e - b)) with (Zpos mz * 2 ^ (ez - b)).
  2:{ rewrite Hm. rewrite <- Z.mul_assoc, <- pow2_split by lia. f_equal. f_equal. lia. }
  replace b with (ez - (ez - b)) at 2 by lia.
  apply RoundsTo_rebase; [lia|].
  apply binary_round_aux_rounds; [lia|assumption|assumption].
Qed.

Lemma binary_round_neg p e :
  binary_round F32.prec F32.emax true p e
  = SFopp (binary_round F32.prec F32.emax false p e).
Proof.
  unfold binary_round.
  pose proof (binary_round_bracket p e) as H. cbv zeta in H.
  destruct (shl_align p e (fexp F32.prec F32.emax (Zpos (digits2_pos p) + e)))
    as [mz ez]. cbn [fst snd] in H.
  destruct H as (He & _ & Hm & HB & HF & Hlow).
  eapply binary_round_aux_opp; [|eassumption|assumption]. lia.
Qed.

Lemma binary_normalize_Rep N e b sz :
  b <= e -> b <= -149 ->
  Rep (N * 2 ^ (e - b)) 1 b (binary_normalize F32.prec F32.emax N e sz).
Proof.
  intros Hbe Hb. assert (0 < 2 ^ (e - b)) by (apply Z.pow_pos_nonneg; lia).
  destruct N as [|p|p]; cbn [binary_normalize].
  - left. split; [reflexivity|eauto].
  - right; left. split; [nia|]. apply binary_round_pos; assumption.
  - right; right. split; [nia|].
    exists (binary_round F32.prec F32.emax false p e). split.
    + replace (- (Zneg p * 2 ^ (e - b))) with (Zpos p * 2 ^ (e - b)) by lia.
      apply binary_round_pos; assumption.
    + apply binary_round_neg.
Qed.

Lemma of_int_Rep n : Rep (n * 2 ^ 149) 1 (-149) (F32.of_int n).
Proof. apply (binary_normalize_Rep n 0 (-149) false); lia. Qed.

Lemma ival_aligned s m e ez :
  -149 <= ez -> ez <= e ->
  cond_Zopp s (Zpos (fst (shl_align m e ez))) * 2 ^ (ez - -149)
  = ival (S754_finite s m e).
Proof.
  intros H1 H2. destruct (shl_align_spec m e ez) as [_ Hm].
  rewrite Hm. replace (Z.min e ez) with ez by lia.
  assert (2 ^ (e + 149) = 2 ^ (e - ez) * 2 ^ (ez - -149)).
  { rewrite <- pow2_split by lia. f_equal. lia. }
  cbn [ival]. destruct s; cbn [cond_Zopp]; nia.
Qed.

Lemma ival_opp x : ival (SFopp x) = - ival x.
Proof.
  destruct x as [s|s| |s m e]; cbn [ival SFopp]; try reflexivity.
  destruct s; cbn [negb]; lia.
Qed.

Lemma valid_opp x : F32.valid (SFopp x) = F32.valid x.
Proof. destruct x; reflexivity. Qed.

Lemma is_finite_opp x : F32.is_finite (SFopp x) = F32.is_finite x.
Proof. destruct x; reflexivity. Qed.

Lemma sub_Rep x y :
  F32.valid x = true -> F32.valid y = true ->
  F32.is_finite x = true -> F32.is_finite y = true ->
  Rep (ival x - ival y) 1 (-149) (F32.sub x y).
Proof.
  intros Vx Vy Fx Fy.
  destruct x as [sx| | |sx mx ex], y as [sy| | |sy my ey]; try discriminate.
  - left. split; [reflexivity|]. destruct sx, sy; cbn; eauto.
  - change (F32.sub (S754_zero sx) (S754_finite sy my ey))
      with (SFopp (S754_finite sy my ey)).
    replace (ival (S754_zero sx) - ival (S754_finite sy my ey))
      with (ival (SFopp (S754_finite sy my ey))) by (rewrite ival_opp; cbn [ival]; lia).
    apply valid_Rep; [rewrite valid_opp; assumption|reflexivity].
  - change (F32.sub (S754_finite sx mx ex) (S754_zero sy)) with (S754_finite sx mx ex).
    replace (ival (S754_finite sx mx ex) - ival (S754_zero sy))
      with (ival (S754_finite sx mx ex)) by (cbn [ival]; lia).
    apply valid_Rep; assumption.
  - destruct (valid_finite_bounds _ _ _ Vx) as (Hx & _).
    destruct (valid_finite_bounds _ _ _ Vy) as (Hy & _).
    unfold F32.sub. cbn [SFsub]. set (ez := Z.min ex ey).
    rewrite <- (ival_aligned sx mx ex ez), <- (ival_aligned sy my ey ez)
      by (subst ez; lia).
    rewrite <- Z.mul_sub_distr_r.
    apply binary_normalize_Rep; subst ez; lia.
Qed.

Lemma add_Rep x y :
  F32.valid x = true -> F32.valid y = true ->
  F32.is_finite x = true -> F32.is_finite y = true ->
  Rep (ival x + ival y) 1 (-149) (F32.add x y).
Proof.
  intros Vx Vy Fx Fy.
  destruct x as [sx| | |sx mx ex], y as [sy| | |sy my ey]; try discriminate.
  - left. split; [reflexivity|]. destruct sx, sy; cbn; eauto.
  - change (F32.add (S754_zero sx) (S754_finite sy my ey)) with (S754_finite sy my ey).
    replace (ival (S754_zero sx) + ival (S754_finite sy my ey))
      with (ival (S754_finite sy my ey)) by (cbn [ival]; lia).
    apply valid_Rep; assumption.
  - change (F32.add (S754_finite sx mx ex) (S754_zero sy)) with (S754_finite sx mx ex).
    replace (ival (S754_finite sx mx ex) + ival (S754_zero sy))
      with (ival (S754_finite sx mx ex)) by (cbn [ival]; lia).
    apply valid_Rep; assumption.
  - destruct (valid_finite_bounds _ _ _ Vx) as (Hx & _).
    destruct (valid_finite_bounds _ _ _ Vy) as (Hy & _).
    unfold F32.add. cbn [SFadd]. set (ez := Z.min ex ey).
    rewrite <- (ival_aligned sx mx ex ez), <- (ival_aligned sy my ey ez)
      by (subst ez; lia).
    rewrite <- Z.mul_add_distr_r.
    apply binary_normalize_Rep; subst ez; lia.
Qed.

Lemma new_location_spec m r :
  0 < m -> 0 <= r < m -> new_location m r = loc_of r m.
Proof.
  intros Hm Hr. unfold new_location, new_location_even, new_location_odd, loc_of.
  destruct (Z.even m) eqn:Ev; destruct (Z.eqb_spec r 0); try reflexivity.
  f_equal.
  assert (Hodd : Z.odd m = true) by (rewrite <- Z.negb_even, Ev; reflexivity).
  apply Z.odd_spec in Hodd. destruct Hodd as [k Hk].
  destruct (Z.compare_spec (2 * r + 1) m); destruct (Z.compare_spec (2 * r) m);
    try reflexivity; lia.
Qed.

Lemma div_core_bracket m1 e1 m2 e2 :
  let r := SFdiv_core_binary F32.prec F32.emax (Zpos m1) e1 (Zpos m2) e2 in
  let q := fst (fst r) in
  let e' := snd (fst r) in
  let l := snd r in
  e' <= e1 - e2 /\ Z.min (e1 - e2) (-149) <= e' /\
  Bracket (Zpos m1 * 2 ^ (e1 - e2 - e')) (Zpos m2) e' q e' l /\
  Fine (Zpos m1 * 2 ^ (e1 - e2 - e')) (Zpos m2) e' e'.
Proof.
  unfold SFdiv_core_binary, fexp, emin, F32.prec, F32.emax. cbn [Zdigits2].
  pose proof (digits2_pos_bounds m1) as [Hlo1 Hhi1].
  pose proof (digits2_pos_bounds m2) as [Hlo2 Hhi2].
  set (D1 := Zpos (digits2_pos m1)) in *. set (D2 := Zpos (digits2_pos m2)) in *.
  assert (HD1 : 0 < D1) by (subst D1; lia). assert (HD2 : 0 < D2) by (subst D2; lia).
  set (e' := Z.min (Z.max (D1 + e1 - (D2 + e2) - 24) (3 - 128 - 24)) (e1 - e2)).
  assert (He' : e' <= e1 - e2) by (subst e'; lia).
  set (s := e1 - e2 - e') in *.
  assert (Hs : 0 <= s) by (subst s; lia).
  set (m' := match s with Z.pos _ => Z.shiftl (Zpos m1) s | 0 => Zpos m1 | Z.neg _ => 0 end).
  assert (Hm' : m' = Zpos m1 * 2 ^ s).
  { subst m'. clearbody s. destruct s as [|k|k].
    - change (2 ^ 0) with 1. lia.
    - rewrite Z.shiftl_mul_pow2 by lia. reflexivity.
    - lia. }
  assert (Hps : 0 < 2 ^ s) by (apply Z.pow_pos_nonneg; lia).
  pose proof (Z_div_mod m' (Zpos m2) ltac:(lia)) as Hdm.
  destruct (Z.div_eucl m' (Zpos m2)) as [q r]. destruct Hdm as [Hdm Hr].
  cbn [fst snd]. fold s. rewrite <- Hm'.
  split; [assumption|]. split; [subst e'; lia|]. split.
  - constructor; rewrite ?Z.sub_diag; change (2 ^ 0) with 1; try lia; try nia.
    replace (m' - q * (1 * Zpos m2)) with r by lia.
    rewrite Z.mul_1_l. apply new_location_spec; lia.
  - unfold Fine. rewrite Z.sub_diag. change (2 ^ (0 + 23)) with (2 ^ 23).
    destruct (Z_le_gt_dec e' (-149)) as [|Hgt]; [left; assumption|right].
    assert (Hsd : 24 - D1 + D2 <= s) by (subst s e'; lia).
    assert (Hk : 2 ^ (24 - D1 + D2) <= 2 ^ s).
    { destruct (Z_le_gt_dec 0 (24 - D1 + D2)).
      - apply Z.pow_le_mono_r; lia.
      - rewrite Z.pow_neg_r by lia. lia. }
    destruct (Z_le_gt_dec 0 (24 - D1 + D2)) as [Hnn|Hneg].
    + assert (2 ^ (D1 - 1) * 2 ^ (24 - D1 + D2) = 2 ^ 23 * 2 ^ D2).
      { rewrite <- !pow2_split by lia. f_equal. lia. }
      assert (0 < 2 ^ (D1 - 1)) by (apply Z.pow_pos_nonneg; lia).
      nia.
    + (* many digits in the numerator *)
      assert (2 ^ (23 + D2) <= 2 ^ (D1 - 1)) by (apply Z.pow_le_mono_r; lia).
      assert (2 ^ (23 + D2) = 2 ^ 23 * 2 ^ D2) by (apply pow2_split; lia).
      nia.
Qed.

Lemma div_pos_RoundsTo m1 e1 m2 e2 b :
  b <= e1 - e2 -> b <= -149 ->
  RoundsTo (Zpos m1 * 2 ^ (e1 - e2 - b)) (Zpos m2) b
    (F32.div (S754_finite false m1 e1) (S754_finite false m2 e2)).
Proof.
  intros Hb1 Hb2. unfold F32.div. cbn [SFdiv xorb].
  pose proof (div_core_bracket m1 e1 m2 e2) as H. cbv zeta in H.
  destruct (SFdiv_core_binary F32.prec F32.emax (Zpos m1) e1 (Zpos m2) e2)
    as [[q e'] l]. cbn [fst snd] in H. destruct H as (H1 & H2 & HB & HF).
  assert (Hbe : b <= e') by lia.
  replace (Zpos m1 * 2 ^ (e1 - e2 - b))
    with (Zpos m1 * 2 ^ (e1 - e2 - e') * 2 ^ (e' - b)).
  2:{ rewrite <- Z.mul_assoc, <- pow2_split by lia. f_equal. f_equal. lia. }
  replace b with (e' - (e' - b)) at 2 by lia.
  apply RoundsTo_rebase; [lia|].
  apply binary_round_aux_rounds; [|assumption|assumption].
  assert (0 < 2 ^ (e1 - e2 - e')) by (apply Z.pow_pos_nonneg; lia). nia.
Qed.

Lemma div_neg_opp m1 e1 m2 e2 :
  F32.div (S754_finite true m1 e1) (S754_finite false m2 e2)
  = SFopp (F32.div (S754_finite false m1 e1) (S754_finite false m2 e2)).
Proof.
  unfold F32.div. cbn [SFdiv xorb].
  pose proof (div_core_bracket m1 e1 m2 e2) as H. cbv zeta in H.
  destruct (SFdiv_core_binary F32.prec F32.emax (Zpos m1) e1 (Zpos m2) e2)
    as [[q e'] l]. cbn [fst snd] in H. destruct H as (H1 & H2 & HB & HF).
  eapply binary_round_aux_opp; [|eassumption|assumption].
  assert (0 < 2 ^ (e1 - e2 - e')) by (apply Z.pow_pos_nonneg; lia). nia.
Qed.

(** Division of a finite float by a positive finite one. *)
Lemma div_Rep x my ey :
  F32.valid x = true -> F32.valid (S754_finite false my ey) = true ->
  F32.is_finite x = true ->
  Rep (ival x * 2 ^ (104 - ey)) (Zpos my) (-253)
      (F32.div x (S754_finite false my ey)).
Proof.
  intros Vx Vy Fx. destruct (valid_finite_bounds _ _ _ Vy) as (Hy & _).
  assert (Hp : 0 < 2 ^ (104 - ey)) by (apply Z.pow_pos_nonneg; lia).
  destruct x as [sx| | |sx mx ex]; try discriminate.
  - left. split; [reflexivity|]. cbn. eauto.
  - destruct (valid_finite_bounds _ _ _ Vx) as (Hx & _).
    assert (Hq : 0 < 2 ^ (ex + 149)) by (apply Z.pow_pos_nonneg; lia).
    assert (HR : RoundsTo (Zpos mx * 2 ^ (ex + 149) * 2 ^ (104 - ey)) (Zpos my) (-253)
                   (F32.div (S754_finite false mx ex) (S754_finite false my ey))).
    { replace (Zpos mx * 2 ^ (ex + 149) * 2 ^ (104 - ey))
        with (Zpos mx * 2 ^ (ex - ey - -253)).
      2:{ rewrite <- Z.mul_assoc, <- pow2_split by lia. f_equal. f_equal. lia. }
      apply div_pos_RoundsTo; lia. }
    destruct sx; cbn [ival].
    + right; right. split; [nia|].
      exists (F32.div (S754_finite false mx ex) (S754_finite false my ey)).
      split; [|apply div_neg_opp].
      replace (- (-1 * (Zpos mx * 2 ^ (ex + 149)) * 2 ^ (104 - ey)))
        with (Zpos mx * 2 ^ (ex + 149) * 2 ^ (104 - ey)) by ring.
      exact HR.
    + right; left. split; [nia|].
      replace (1 * (Zpos mx * 2 ^ (ex + 149)) * 2 ^ (104 - ey))
        with (Zpos mx * 2 ^ (ex + 149) * 2 ^ (104 - ey)) by ring.
      exact HR.
Qed.

Lemma mul_Rep x y :
  F32.valid x = true -> F32.valid y = true ->
  F32.is_finite x = true -> F32.is_finite y = true ->
  Rep (ival x * ival y) 1 (-298) (F32.mul x y).
Proof.
  intros Vx Vy Fx Fy.
  destruct x as [sx| | |sx mx ex], y as [sy| | |sy my ey]; try discriminate;
    try (left; split; [cbn [ival]; lia|cbn; eauto]).
  destruct (valid_finite_bounds _ _ _ Vx) as (Hx & Hmx & Hsx).
  destruct (valid_finite_bounds _ _ _ Vy) as (Hy & Hmy & Hsy).
  assert (HB : Bracket (Zpos (mx * my)) 1 (ex + ey) (Zpos (mx * my)) (ex + ey) loc_Exact).
  { constructor; rewrite ?Z.sub_diag; change (2 ^ 0) with 1; try lia.
    replace (Zpos (mx * my) - Zpos (mx * my) * (1 * 1)) with 0 by lia. reflexivity. }
  assert (HF : Fine (Zpos (mx * my)) 1 (ex + ey) (ex + ey)).
  { unfold Fine. rewrite Z.sub_diag. change (2 ^ (0 + 23) * 1) with (2 ^ 23).
    destruct (Z_le_gt_dec (ex + ey) (-149)); [left; assumption|right].
    rewrite Pos2Z.inj_mul.
    destruct (Z_le_gt_dec (2 ^ 23) (Zpos mx)); [nia|].
    destruct (Z_le_gt_dec (2 ^ 23) (Zpos my)); [nia|].
    specialize (Hsx ltac:(lia)). specialize (Hsy ltac:(lia)). lia. }
  assert (HR : RoundsTo (Zpos mx * 2 ^ (ex + 149) * (Zpos my * 2 ^ (ey + 149))) 1 (-298)
                 (binary_round_aux F32.prec F32.emax false (Zpos (mx * my)) (ex + ey)
                    loc_Exact)).
  { replace (Zpos mx * 2 ^ (ex + 149) * (Zpos my * 2 ^ (ey + 149)))
      with (Zpos (mx * my) * 2 ^ (ex + ey + 298)).
    2:{ rewrite Pos2Z.inj_mul.
        replace (ex + ey + 298) with ((ex + 149) + (ey + 149)) by lia.
        rewrite pow2_split by lia. ring. }
    replace (-298) with (ex + ey - (ex + ey + 298)) by lia.
    apply RoundsTo_rebase; [lia|].
    apply binary_round_aux_rounds; [lia|assumption|assumption]. }
  assert (0 < 2 ^ (ex + 149)) by (apply Z.pow_pos_nonneg; lia).
  assert (0 < 2 ^ (ey + 149)) by (apply Z.pow_pos_nonneg; lia).
  unfold F32.mul. cbn [SFmul ival].
  assert (HO : binary_round_aux F32.prec F32.emax true (Zpos (mx * my)) (ex + ey) loc_Exact
               = SFopp (binary_round_aux F32.prec F32.emax false (Zpos (mx * my))
                          (ex + ey) loc_Exact)).
  { eapply binary_round_aux_opp; [|eassumption|assumption]. lia. }
  destruct sx, sy; cbn [xorb].
  - right; left. split; [nia|].
    replace (-1 * (Zpos mx * 2 ^ (ex + 149)) * (-1 * (Zpos my * 2 ^ (ey + 149))))
      with (Zpos mx * 2 ^ (ex + 149) * (Zpos my * 2 ^ (ey + 149))) by ring.
    exact HR.
  - right; right. split; [nia|]. eexists. split; [|exact HO].
    replace (- (-1 * (Zpos mx * 2 ^ (ex + 149)) * (1 * (Zpos my * 2 ^ (ey + 149)))))
      with (Zpos mx * 2 ^ (ex + 149) * (Zpos my * 2 ^ (ey + 149))) by ring.
    exact HR.
  - right; right. split; [nia|]. eexists. split; [|exact HO].
    replace (- (1 * (Zpos mx * 2 ^ (ex + 149)) * (-1 * (Zpos my * 2 ^ (ey + 149)))))
      with (Zpos mx * 2 ^ (ex + 149) * (Zpos my * 2 ^ (ey + 149))) by ring.
    exact HR.
  - right; left. split; [nia|].
    replace (1 * (Zpos mx * 2 ^ (ex + 149)) * (1 * (Zpos my * 2 ^ (ey + 149))))
      with (Zpos mx * 2 ^ (ex + 149) * (Zpos my * 2 ^ (ey + 149))) by ring.
    exact HR.
Qed.

(** Validity is preserved. *)
Lemma add_valid x y :
  F32.valid x = true -> F32.valid y = true -> F32.valid (F32.add x y) = true.
Proof.
  intros Vx Vy.
  destruct (F32.is_finite x) eqn:Fx; destruct (F32.is_finite y) eqn:Fy.
  - eapply Rep_valid, add_Rep; assumption.
  - destruct x as [sx| | |sx mx ex], y as [sy|[]| |sy my ey]; try discriminate;
      reflexivity.
  - destruct x as [sx|[]| |sx mx ex], y as [sy| | |sy my ey]; try discriminate;
      reflexivity.
  - destruct x as [sx|[]| |sx mx ex], y as [sy|[]| |sy my ey]; try discriminate;
      reflexivity.
Qed.

Lemma sub_valid x y :
  F32.valid x = true -> F32.valid y = true -> F32.valid (F32.sub x y) = true.
Proof.
  intros Vx Vy.
  destruct (F32.is_finite x) eqn:Fx; destruct (F32.is_finite y) eqn:Fy.
  - eapply Rep_valid, sub_Rep; assumption.
  - destruct x as [sx| | |sx mx ex], y as [sy|[]| |sy my ey]; try discriminate;
      reflexivity.
  - destruct x as [sx|[]| |sx mx ex], y as [sy| | |sy my ey]; try discriminate;
      reflexivity.
  - destruct x as [sx|[]| |sx mx ex], y as [sy|[]| |sy my ey]; try discriminate;
      reflexivity.
Qed.

Lemma mul_valid x y :
  F32.valid x = true -> F32.valid y = true -> F32.valid (F32.mul x y) = true.
Proof.
  intros Vx Vy.
  destruct (F32.is_finite x) eqn:Fx; destruct (F32.is_finite y) eqn:Fy.
  - eapply Rep_valid, mul_Rep; assumption.
  - destruct x as [sx| | |sx mx ex], y as [sy|sy| |sy my ey]; try discriminate;
      reflexivity.
  - destruct x as [sx|sx| |sx mx ex], y as [sy| | |sy my ey]; try discriminate;
      reflexivity.
  - destruct x as [sx|sx| |sx mx ex], y as [sy|sy| |sy my ey]; try discriminate;
      reflexivity.
Qed.

Lemma lex_le_antisym a b : lex_le a b -> lex_le b a -> a = b.
Proof.
  destruct a as [[a1 a2] a3], b as [[b1 b2] b3]. cbn [lex_le]. intros H1 H2.
  f_equal; [f_equal|]; lia.
Qed.

Lemma Rep_exact N f g :
  Rep N 1 (-149) f -> F32.valid g = true -> F32.is_finite g = true -> ival g = N ->
  F32.is_finite f = true /\ ival f = N /\ key f = key g.
Proof.
  intros HR Vg Fg Hg. pose proof (valid_Rep g Vg Fg) as HRg. rewrite Hg in HRg.
  assert (L1 : SFleb f g = true) by (apply (Rep_mono N 1 N 1 (-149)); auto; lia).
  assert (L2 : SFleb g f = true) by (apply (Rep_mono N 1 N 1 (-149)); auto; lia).
  apply SFleb_spec in L1, L2. destruct L1 as (Nf & _ & L1), L2 as (_ & _ & L2).
  pose proof (lex_le_antisym _ _ L1 L2) as K.
  assert (Ff : F32.is_finite f = true).
  { destruct f as [s|[]| |s m e]; try reflexivity; try discriminate;
      destruct g as [sg| | |[] mg eg]; try discriminate. }
  repeat split; try assumption.
  rewrite <- Hg. apply key_eq_ival; assumption.
Qed.

(** Integers up to [2 ^ 24] convert exactly. *)
Lemma of_int_exact n :
  0 <= n <= 2 ^ 24 ->
  F32.valid (F32.of_int n) = true /\ F32.is_finite (F32.of_int n) = true /\
  ival (F32.of_int n) = n * 2 ^ 149.
Proof.
  intros Hn. pose proof (of_int_Rep n) as HR.
  split; [eapply Rep_valid; eassumption|].
  destruct (Z.eq_dec n 0) as [->|Hn0]; [split; reflexivity|].
  destruct (Z.eq_dec n (2 ^ 24)) as [->|Hn1]; [split; reflexivity|].
  destruct n as [|p|p]; try lia.
  pose proof (digits2_pos_bounds p) as [Hlo Hhi].
  pose proof (digits2_pos_le p 24 ltac:(lia) ltac:(lia)) as HD.
  set (D := Zpos (digits2_pos p)) in *.
  assert (HD0 : 0 < D) by (subst D; lia).
  assert (Hp : 0 < 2 ^ (24 - D)) by (apply Z.pow_pos_nonneg; lia).
  assert (H23 : 2 ^ 23 = 2 ^ (D - 1) * 2 ^ (24 - D)).
  { rewrite <- pow2_split by lia. f_equal. lia. }
  assert (H24 : 2 ^ 24 = 2 ^ D * 2 ^ (24 - D)).
  { rewrite <- pow2_split by lia. f_equal. lia. }
  set (g := S754_finite false (Z.to_pos (Zpos p * 2 ^ (24 - D))) (D - 24)).
  assert (Hm : Zpos (Z.to_pos (Zpos p * 2 ^ (24 - D))) = Zpos p * 2 ^ (24 - D))
    by (apply Z2Pos.id; nia).
  assert (Vg : F32.valid g = true).
  { unfold g, F32.valid, valid_binary, bounded, canonical_mantissa, fexp, emin,
      F32.prec, F32.emax.
    assert (HD24 : Zpos (digits2_pos (Z.to_pos (Zpos p * 2 ^ (24 - D)))) = 24).
    { apply digits2_pos_unique; [|lia]. rewrite Hm. change (24 - 1) with 23. nia. }
    rewrite HD24.
    apply andb_true_intro. split; [apply Z.eqb_eq|apply Z.leb_le]; lia. }
  assert (Ig : ival g = Zpos p * 2 ^ 149).
  { unfold g. cbn [ival]. rewrite Hm.
    assert (2 ^ 149 = 2 ^ (24 - D) * 2 ^ (D - 24 + 149)).
    { rewrite <- pow2_split by lia. f_equal. lia. }
    nia. }
  destruct (Rep_exact _ _ g HR Vg eq_refl Ig) as (F & I & _). auto.
Qed.

Lemma of_int_ltb k n :
  0 <= k < n -> n <= 2 ^ 24 -> F32.ltb (F32.of_int k) (F32.of_int n) = true.
Proof.
  intros Hk Hn.
  destruct (of_int_exact k ltac:(lia)) as (Vk & Fk & Ik).
  destruct (of_int_exact n ltac:(lia)) as (Vn & Fn & In).
  apply SFltb_ival; try assumption. rewrite Ik, In. lia.
Qed.


Lemma lex_total a b : lex_lt a b \/ lex_le b a.
Proof.
  destruct a as [[a1 a2] a3], b as [[b1 b2] b3]. cbn [lex_lt lex_le]. lia.
Qed.

Lemma lex_le_trans a b c : lex_le a b -> lex_le b c -> lex_le a c.
Proof.
  destruct a as [[a1 a2] a3], b as [[b1 b2] b3], c as [[c1 c2] c3].
  cbn [lex_le]. lia.
Qed.

Lemma lex_lt_le_trans a b c : lex_lt a b -> lex_le b c -> lex_lt a c.
Proof.
  destruct a as [[a1 a2] a3], b as [[b1 b2] b3], c as [[c1 c2] c3].
  cbn [lex_le lex_lt]. lia.
Qed.


Lemma lex_lt_le a b : lex_lt a b -> lex_le a b.
Proof.
  destruct a as [[a1 a2] a3], b as [[b1 b2] b3]. cbn [lex_le lex_lt]. lia.
Qed.

Lemma lex_lt_not_le a b : lex_lt a b -> lex_le b a -> False.
Proof.
  destruct a as [[a1 a2] a3], b as [[b1 b2] b3]. cbn [lex_le lex_lt]. lia.
Qed.

Lemma lex_le_refl a : lex_le a a.
Proof. destruct a as [[a1 a2] a3]. cbn [lex_le]. lia. Qed.

Lemma SFltb_false x y :
  F32.is_nan x = false -> F32.is_nan y = false -> SFltb x y = false ->
  lex_le (key y) (key x).
Proof.
  intros Nx Ny H. destruct (lex_total (key x) (key y)) as [L|L]; [|assumption].
  assert (SFltb x y = true) by (apply SFltb_spec; auto). congruence.
Qed.

Lemma SFleb_trans x y z : SFleb x y = true -> SFleb y z = true -> SFleb x z = true.
Proof.
  rewrite !SFleb_spec. intros (Nx & Ny & L1) (_ & Nz & L2).
  repeat split; try assumption. eapply lex_le_trans; eassumption.
Qed.

Lemma SFleb_refl x : F32.is_nan x = false -> SFleb x x = true.
Proof. intros N. apply SFleb_spec. repeat split; auto. apply lex_le_refl. Qed.

(** *** [FMath::Clamp(X, 0.f, 1.f)] *)

Lemma Clamp_nan : FMath.Clamp S754_nan F32.zero F32.one = F32.one.
Proof. reflexivity. Qed.

Lemma Clamp_cases X :
  (F32.is_nan X = false /\ lex_lt (key X) (key F32.zero) /\
   FMath.Clamp X F32.zero F32.one = F32.zero) \/
  (F32.is_nan X = false /\ lex_le (key F32.zero) (key X) /\
   lex_lt (key X) (key F32.one) /\ FMath.Clamp X F32.zero F32.one = X) \/
  ((F32.is_nan X = true \/ lex_le (key F32.one) (key X)) /\
   FMath.Clamp X F32.zero F32.one = F32.one).
Proof.
  unfold FMath.Clamp, F32.ltb.
  destruct (F32.is_nan X) eqn:N.
  { destruct X; try discriminate. right; right. split; [left|]; reflexivity. }
  destruct (SFltb X F32.zero) eqn:E0.
  { left. apply SFltb_spec in E0. tauto. }
  apply SFltb_false in E0; [|assumption|reflexivity].
  destruct (SFltb X F32.one) eqn:E1.
  { right; left. apply SFltb_spec in E1. tauto. }
  apply SFltb_false in E1; [|assumption|reflexivity].
  right; right. split; [right; assumption|reflexivity].
Qed.

Lemma Clamp_bounds X :
  F32.leb F32.zero (FMath.Clamp X F32.zero F32.one) = true /\
  F32.leb (FMath.Clamp X F32.zero F32.one) F32.one = true.
Proof.
  unfold F32.leb.
  destruct (Clamp_cases X) as [(N & L & ->)|[(N & L0 & L1 & ->)|(_ & ->)]].
  - split; reflexivity.
  - split; apply SFleb_spec; repeat split; auto. apply lex_lt_le; assumption.
  - split; reflexivity.
Qed.

Lemma Clamp_mono X1 X2 :
  SFleb X1 X2 = true ->
  SFleb (FMath.Clamp X1 F32.zero F32.one) (FMath.Clamp X2 F32.zero F32.one) = true.
Proof.
  intros H. pose proof H as H'. apply SFleb_spec in H'. destruct H' as (N1 & N2 & L).
  destruct (Clamp_bounds X1) as [B1 B1']. destruct (Clamp_bounds X2) as [B2 B2'].
  unfold F32.leb in *.
  destruct (Clamp_cases X1) as [(_ & A & E1)|[(_ & A0 & A1 & E1)|([A|A] & E1)]];
    rewrite E1 in *; try assumption; try congruence.
  - destruct (Clamp_cases X2) as [(_ & C & E2)|[(_ & C0 & C1 & E2)|([C|C] & E2)]];
      rewrite E2 in *; try assumption; try congruence.
    exfalso. eapply lex_lt_not_le; [exact C|]. eapply lex_le_trans; eassumption.
  - destruct (Clamp_cases X2) as [(_ & C & E2)|[(_ & C0 & C1 & E2)|([C|C] & E2)]];
      rewrite E2 in *; try reflexivity; try congruence.
    + exfalso. eapply lex_lt_not_le; [exact C|].
      eapply lex_le_trans; [|exact L].
      eapply lex_le_trans; [|exact A]. cbn. lia.
    + exfalso. eapply lex_lt_not_le; [exact C1|]. eapply lex_le_trans; eassumption.
Qed.

Lemma Clamp_ge_one X :
  SFleb F32.one X = true -> FMath.Clamp X F32.zero F32.one = F32.one.
Proof.
  intros H. apply SFleb_spec in H. destruct H as (_ & N & L).
  destruct (Clamp_cases X) as [(_ & A & E1)|[(_ & A0 & A1 & E1)|(_ & E1)]];
    try assumption; exfalso.
  - eapply lex_lt_not_le; [exact A|]. eapply lex_le_trans; [|exact L]. cbn. lia.
  - eapply lex_lt_not_le; [exact A1|exact L].
Qed.

(** *** The depth fraction as a function of the wave height *)

Lemma DepthMultiplier_DepthOf c h w :
  DepthMultiplier c h w
  = DepthOf (F32.add (Vec.Z w) (_SignedRadius c))
            (F32.mul (TestPointRadius c) F32.two) h.
Proof. reflexivity. Qed.

Lemma valid_not_nan_cases x :
  F32.is_nan x = false ->
  F32.is_finite x = true \/ x = S754_infinity false \/ x = S754_infinity true.
Proof. destruct x as [s|[]| |s m e]; intros H; try discriminate; auto. Qed.

Lemma SFleb_inf x : F32.is_nan x = false -> SFleb x (S754_infinity false) = true.
Proof. destruct x as [s|[]| |[] m e]; intros H; try discriminate; reflexivity. Qed.

Lemma SFleb_minf x : F32.is_nan x = false -> SFleb (S754_infinity true) x = true.
Proof. destruct x as [s|[]| |[] m e]; intros H; try discriminate; reflexivity. Qed.

Lemma SFleb_inf_inv x : SFleb (S754_infinity false) x = true -> x = S754_infinity false.
Proof. destruct x as [s|[]| |[] m e]; intros H; try discriminate; reflexivity. Qed.

Lemma SFleb_minf_inv x : SFleb x (S754_infinity true) = true -> x = S754_infinity true.
Proof. destruct x as [s|[]| |[] m e]; intros H; try discriminate; reflexivity. Qed.

Lemma Rep_not_nan N d b f : Rep N d b f -> F32.is_nan f = false.
Proof.
  intros [[_ [s ->]]|[[P R]|[M (g & R & ->)]]]; [reflexivity| |];
    apply RoundsTo_shape in R.
  - destruct f as [[]|[]| |[] m e]; try contradiction; reflexivity.
  - destruct g as [[]|[]| |[] m e]; try contradiction; reflexivity.
Qed.

(** Dividing by a positive finite [d], then clamping, is monotone. *)
Lemma Clamp_div_mono md ed D1 D2 :
  F32.valid (S754_finite false md ed) = true ->
  F32.valid D1 = true -> F32.valid D2 = true -> SFleb D1 D2 = true ->
  SFleb (FMath.Clamp (F32.div D1 (S754_finite false md ed)) F32.zero F32.one)
        (FMath.Clamp (F32.div D2 (S754_finite false md ed)) F32.zero F32.one) = true.
Proof.
  intros Vd V1 V2 H. pose proof H as H'. apply SFleb_spec in H'.
  destruct H' as (N1 & N2 & L).
  destruct (valid_finite_bounds _ _ _ Vd) as (Hed & _).
  destruct (valid_not_nan_cases D2 N2) as [F2|[->| ->]].
  - destruct (valid_not_nan_cases D1 N1) as [F1|[->| ->]].
    + apply Clamp_mono.
      apply (Rep_mono (ival D1 * 2 ^ (104 - ed)) (Zpos md)
                      (ival D2 * 2 ^ (104 - ed)) (Zpos md) (-253)); try lia;
        try (apply div_Rep; assumption).
      apply (SFleb_ival D1 D2) in H; try assumption.
      assert (0 < 2 ^ (104 - ed)) by (apply Z.pow_pos_nonneg; lia).
      apply Z.mul_le_mono_nonneg_r; [lia|]. apply Z.mul_le_mono_nonneg_r; lia.
    + apply SFleb_inf_inv in H. subst D2. discriminate.
    + change (F32.div (S754_infinity true) (S754_finite false md ed))
        with (S754_infinity true).
      change (FMath.Clamp (S754_infinity true) F32.zero F32.one) with F32.zero.
      apply Clamp_bounds.
  - change (F32.div (S754_infinity false) (S754_finite false md ed))
      with (S754_infinity false).
    change (FMath.Clamp (S754_infinity false) F32.zero F32.one) with F32.one.
    apply Clamp_bounds.
  - apply SFleb_minf_inv in H. subst D1. reflexivity.
Qed.

(** Subtracting a finite [a] is monotone. *)
Lemma sub_mono a h1 h2 :
  F32.valid a = true -> F32.is_finite a = true ->
  F32.valid h1 = true -> F32.valid h2 = true ->
  SFleb h1 h2 = true -> SFleb (F32.sub h1 a) (F32.sub h2 a) = true.
Proof.
  intros Va Fa V1 V2 H. pose proof H as H'. apply SFleb_spec in H'.
  destruct H' as (N1 & N2 & L).
  assert (Hi : forall s, F32.sub (S754_infinity s) a = S754_infinity s)
    by (intros s; destruct a as [| | |]; try discriminate; reflexivity).
  destruct (valid_not_nan_cases h2 N2) as [F2|[->| ->]].
  - destruct (valid_not_nan_cases h1 N1) as [F1|[->| ->]].
    + apply (Rep_mono (ival h1 - ival a) 1 (ival h2 - ival a) 1 (-149)); try lia;
        try (apply sub_Rep; assumption).
      apply (SFleb_ival h1 h2) in H; try assumption. lia.
    + apply SFleb_inf_inv in H. subst h2. discriminate.
    + rewrite Hi. apply SFleb_minf. eapply Rep_not_nan, sub_Rep; assumption.
  - rewrite Hi. apply SFleb_inf.
    destruct (valid_not_nan_cases h1 N1) as [F1|[->| ->]]; rewrite ?Hi;
      try reflexivity.
    eapply Rep_not_nan, sub_Rep; assumption.
  - apply SFleb_minf_inv in H. subst h1. rewrite Hi. reflexivity.
Qed.

Lemma DepthOf_mono a md ed h1 h2 :
  F32.valid a = true -> F32.valid (S754_finite false md ed) = true ->
  F32.valid h1 = true -> F32.valid h2 = true ->
  SFleb h1 h2 = true ->
  SFleb (DepthOf a (S754_finite false md ed) h1)
        (DepthOf a (S754_finite false md ed) h2) = true.
Proof.
  intros Va Vd V1 V2 H. pose proof H as H'. apply SFleb_spec in H'.
  destruct H' as (N1 & N2 & L). unfold DepthOf.
  destruct (F32.is_nan a) eqn:Na.
  { destruct a; try discriminate.
    replace (F32.sub h1 S754_nan) with S754_nan by (destruct h1 as [|[]| |]; reflexivity).
    replace (F32.sub h2 S754_nan) with S754_nan by (destruct h2 as [|[]| |]; reflexivity).
    reflexivity. }
  destruct (valid_not_nan_cases a Na) as [Fa|[->| ->]].
  - apply Clamp_div_mono; try assumption; try (apply sub_valid; assumption).
    apply sub_mono; assumption.
  - (* the offset is +infinity: 0 below it, 1 (from NaN) at it *)
    destruct (valid_not_nan_cases h2 N2) as [F2|[->| ->]].
    + assert (E2 : F32.sub h2 (S754_infinity false) = S754_infinity true)
        by (destruct h2 as [| | |]; try discriminate; reflexivity).
      assert (E1 : F32.sub h1 (S754_infinity false) = S754_infinity true).
      { destruct h1 as [s1|[]| |s1 m1 e1]; try discriminate; try reflexivity.
        apply SFleb_inf_inv in H. subst h2. discriminate. }
      rewrite E1, E2. reflexivity.
    + change (F32.sub (S754_infinity false) (S754_infinity false)) with S754_nan.
      change (FMath.Clamp (F32.div S754_nan (S754_finite false md ed)) F32.zero F32.one)
        with F32.one.
      apply Clamp_bounds.
    + apply SFleb_minf_inv in H. subst h1. reflexivity.
  - (* the offset is -infinity: always 1 *)
    assert (E : forall h, F32.is_nan h = false ->
              FMath.Clamp (F32.div (F32.sub h (S754_infinity true))
                             (S754_finite false md ed)) F32.zero F32.one = F32.one).
    { intros h Nh. destruct h as [s|[]| |s m e]; try discriminate; reflexivity. }
    rewrite !E by assumption. reflexivity.
Qed.

Lemma ival_one : ival F32.one = 2 ^ 149.
Proof. reflexivity. Qed.

(** The fraction is 1 once the computed depth reaches the computed diameter. *)
Lemma DepthOf_saturates a md ed h :
  F32.valid a = true -> F32.valid (S754_finite false md ed) = true ->
  F32.valid h = true ->
  SFleb (S754_finite false md ed) (F32.sub h a) = true ->
  DepthOf a (S754_finite false md ed) h = F32.one.
Proof.
  intros Va Vd Vh H. unfold DepthOf. apply Clamp_ge_one.
  pose proof (sub_valid h a Vh Va) as VD.
  set (D := F32.sub h a) in *. clearbody D.
  pose proof H as H'. apply SFleb_spec in H'. destruct H' as (_ & ND & L).
  destruct (valid_finite_bounds _ _ _ Vd) as (Hed & _).
  destruct (valid_not_nan_cases D ND) as [FD|[->| ->]].
  - apply (SFleb_ival _ D) in H; try assumption; try reflexivity.
    cbn [ival] in H.
    pose proof (valid_Rep F32.one eq_refl eq_refl) as R1.
    apply (Rep_rebase _ _ _ _ 104) in R1; [|lia].
    rewrite ival_one in R1. change (-149 - 104) with (-253) in R1.
    apply (Rep_mono _ 1 _ (Zpos md) (-253) _ _ ltac:(lia) ltac:(lia) R1
             (div_Rep D md ed VD Vd FD)).
    assert (E : 2 ^ 149 * 2 ^ 104 = 2 ^ (ed + 149) * 2 ^ (104 - ed)).
    { rewrite <- !pow2_split by lia. f_equal. lia. }
    assert (0 < 2 ^ (104 - ed)) by (apply Z.pow_pos_nonneg; lia).
    assert (0 < 2 ^ (ed + 149)) by (apply Z.pow_pos_nonneg; lia).
    rewrite E.
    replace (2 ^ (ed + 149) * 2 ^ (104 - ed) * Zpos md)
      with (1 * (Zpos md * 2 ^ (ed + 149)) * 2 ^ (104 - ed) * 1) by ring.
    apply Z.mul_le_mono_nonneg_r; [lia|]. apply Z.mul_le_mono_nonneg_r; lia.
  - reflexivity.
  - discriminate.
Qed.

(** With a zero diameter the fraction is 1 as soon as the point is under
    water: the quotient is [+infinity] or NaN. *)
Lemma DepthOf_zero_diameter a h :
  F32.valid a = true -> F32.valid h = true -> SFltb a h = true ->
  DepthOf a (S754_zero false) h = F32.one.
Proof.
  intros Va Vh H. pose proof H as H'. apply SFltb_spec in H'.
  destruct H' as (Na & Nh & L). unfold DepthOf.
  destruct (valid_not_nan_cases h Nh) as [Fh|[->| ->]];
    destruct (valid_not_nan_cases a Na) as [Fa|[->| ->]].
  - pose proof (sub_Rep h a Vh Va Fh Fa) as R.
    apply (SFltb_ival a h) in H; try assumption.
    destruct R as [[Z0 _]|[[P R]|[M _]]]; try lia.
    apply RoundsTo_shape in R.
    destruct (F32.sub h a) as [[]|[]| |[] m e]; try contradiction; reflexivity.
  - destruct h as [| | |[]]; discriminate.
  - destruct h as [| | |]; try discriminate; reflexivity.
  - destruct a as [| | |]; try discriminate; reflexivity.
  - discriminate.
  - reflexivity.
  - destruct a as [| | |[]]; discriminate.
  - discriminate.
  - discriminate.
Qed.

Lemma add_zero_r_key z s :
  key (F32.add z (S754_zero s)) = key z /\
  F32.is_nan (F32.add z (S754_zero s)) = F32.is_nan z.
Proof. destruct z as [[]|[]| |[] m e], s; split; reflexivity. Qed.

Lemma SFltb_key x x' y :
  key x = key x' -> F32.is_nan x = F32.is_nan x' -> SFltb x y = SFltb x' y.
Proof.
  intros K N. apply eq_true_iff_eq. rewrite !SFltb_spec, K, N. reflexivity.
Qed.

(** Dividing a finite float by one that is at least 1 stays finite. *)
Lemma div_ge_one_finite x my ey :
  F32.valid x = true -> F32.is_finite x = true ->
  F32.valid (S754_finite false my ey) = true ->
  2 ^ 149 <= ival (S754_finite false my ey) ->
  F32.is_finite (F32.div x (S754_finite false my ey)) = true.
Proof.
  intros Vx Fx Vy Hy. destruct (valid_finite_bounds _ _ _ Vy) as (Hey & _).
  pose proof (div_Rep x my ey Vx Vy Fx) as Rq.
  pose proof (valid_Rep x Vx Fx) as Rx.
  apply (Rep_rebase _ _ _ _ 104) in Rx; [|lia]. change (-149 - 104) with (-253) in Rx.
  cbn [ival] in Hy.
  assert (P1 : 0 < 2 ^ (104 - ey)) by (apply Z.pow_pos_nonneg; lia).
  assert (P2 : 0 < 2 ^ (ey + 149)) by (apply Z.pow_pos_nonneg; lia).
  assert (E : 2 ^ 149 * 2 ^ 104 = 2 ^ (ey + 149) * 2 ^ (104 - ey)).
  { rewrite <- !pow2_split by lia. f_equal. lia. }
  assert (K : 2 ^ (104 - ey) <= 2 ^ 104 * Zpos my).
  { apply Z.mul_le_mono_pos_r with (p := 2 ^ (ey + 149)); [assumption|].
    replace (2 ^ (104 - ey) * 2 ^ (ey + 149)) with (2 ^ 149 * 2 ^ 104) by lia.
    nia. }
  set (q := F32.div x (S754_finite false my ey)) in *. clearbody q.
  destruct (Z_le_gt_dec 0 (ival x)) as [Hp|Hn].
  - assert (L : SFleb q x = true).
    { apply (Rep_mono _ (Zpos my) _ 1 (-253) _ _ ltac:(lia) ltac:(lia) Rq Rx). nia. }
    destruct Rq as [[_ [s ->]]|[[_ R]|[M _]]]; [reflexivity| |nia].
    apply RoundsTo_shape in R.
    destruct q as [[]|[]| |[] m e]; try contradiction; try reflexivity.
    apply SFleb_inf_inv in L. subst x. discriminate.
  - assert (L : SFleb x q = true).
    { apply (Rep_mono _ 1 _ (Zpos my) (-253) _ _ ltac:(lia) ltac:(lia) Rx Rq). nia. }
    destruct Rq as [[_ [s ->]]|[[P _]|[_ (g & R & ->)]]]; [reflexivity|nia|].
    apply RoundsTo_shape in R.
    destruct g as [[]|[]| |[] m e]; try contradiction; try reflexivity.
    apply SFleb_minf_inv in L. subst x. discriminate.
Qed.

Lemma SFleb_not_ltb a b : SFleb a b = true -> SFltb b a = false.
Proof.
  intros H. apply SFleb_spec in H. destruct H as (Na & Nb & L).
  destruct (SFltb b a) eqn:E; [exfalso|reflexivity].
  apply SFltb_spec in E. destruct E as (_ & _ & L').
  eapply lex_lt_not_le; eassumption.
Qed.

(** Conversion from integers is monotone, whatever the size. *)
Lemma of_int_mono k n : k <= n -> SFleb (F32.of_int k) (F32.of_int n) = true.
Proof.
  intros H.
  apply (Rep_mono _ 1 _ 1 (-149) _ _ ltac:(lia) ltac:(lia) (of_int_Rep k) (of_int_Rep n)).
  assert (0 < 2 ^ 149) by (apply Z.pow_pos_nonneg; lia). nia.
Qed.

Lemma of_int_not_ltb_one n : 1 <= n -> F32.ltb (F32.of_int n) F32.one = false.
Proof. intros H. apply SFleb_not_ltb. apply (of_int_mono 1 n H). Qed.

(** * The point loop *)

Lemma PointForce_WithForces c p fs g T i h w :
  PointForce c (WithForces p fs) g T i h w = PointForce c p g T i h w.
Proof. reflexivity. Qed.

Lemma WithForces_nil p : WithForces p [] = p.
Proof. destruct p; unfold WithForces; cbn. now rewrite app_nil_r. Qed.

Lemma WithSpheres_nil w : WithSpheres w [] = w.
Proof. destruct w; unfold WithSpheres; cbn. now rewrite app_nil_r. Qed.

Lemma WithForces_app p fs gs :
  WithForces (WithForces p fs) gs = WithForces p (fs ++ gs).
Proof. unfold WithForces; cbn. now rewrite app_assoc. Qed.

Lemma WithSpheres_app w fs gs :
  WithSpheres (WithSpheres w fs) gs = WithSpheres w (fs ++ gs).
Proof. unfold WithSpheres; cbn. now rewrite app_assoc. Qed.

(** The loop adds the outputs of the points it visits. *)
Lemma PointLoop_outputs manager T transform c p w :
  forall rest i n fs ds,
    PointLoop manager T transform i rest
      (mkLoop n (mkState c (WithForces p fs) (WithSpheres w ds)))
    = mkLoop (n + LoopCount c manager transform (Visited T i rest))
        (mkState c
           (WithForces p
              (fs ++ LoopForces c p (GravityZ w) manager T transform i
                       (Visited T i rest)))
           (WithSpheres w (ds ++ LoopSpheres c manager transform (Visited T i rest)))).
Proof.
  induction rest as [|pt rest IH]; intros i n fs ds.
  - cbn. now rewrite Z.add_0_r, !app_nil_r.
  - cbn [PointLoop Visited]. destruct (F32.ltb (F32.of_int i) T).
    2:{ cbn. now rewrite Z.add_0_r, !app_nil_r. }
    unfold PointStep. cbn [Current Self UpdatedPrimitive World PointsUnderWater].
    cbn [LoopCount LoopForces LoopSpheres].
    fold (WorldPoint transform pt). fold (WaveHeight manager transform pt).
    fold (Submerged c manager transform pt).
    destruct (Submerged c manager transform pt); destruct (DrawDebugPoints c);
      cbn [app].
    all: try change (AddForceAtLocation (WithForces p fs) ?f ?x)
           with (WithForces (WithForces p fs) [(f, x)]).
    all: try change (DrawDebugSphere (WithSpheres w ds) ?a ?b ?d)
           with (WithSpheres (WithSpheres w ds) [(a, b, d)]).
    all: rewrite ?WithForces_app, ?WithSpheres_app, ?PointForce_WithForces.
    all: rewrite IH.
    all: cbn [GravityZ WithSpheres].
    all: rewrite <- ?app_assoc; cbn [app].
    all: f_equal; lia.
Qed.

(** Up to [2 ^ 24] test points the loop visits them all. *)
Lemma Visited_all T rest :
  forall i,
    (forall k, i <= k < i + Z.of_nat (length rest) ->
               F32.ltb (F32.of_int k) T = true) ->
    Visited T i rest = rest.
Proof.
  induction rest as [|pt rest IH]; intros i Hguard; cbn [Visited]; [reflexivity|].
  rewrite Hguard by (cbn [length]; lia). f_equal.
  apply IH. intros k Hk. apply Hguard. cbn [length]. lia.
Qed.

Lemma Visited_TestPoints points :
  Z.of_nat (length points) <= 2 ^ 24 ->
  Visited (F32.of_int (Z.of_nat (length points))) 0 points = points.
Proof.
  intros Hn. apply Visited_all. intros k Hk. apply of_int_ltb; lia.
Qed.

Lemma Visited_length T rest :
  forall i, (length (Visited T i rest) <= length rest)%nat.
Proof.
  induction rest as [|pt rest IH]; intros i; cbn [Visited length]; [lia|].
  destruct (F32.ltb (F32.of_int i) T); cbn [length]; [|lia].
  specialize (IH (i + 1)). lia.
Qed.

Lemma Visited_incl T rest :
  forall i x, In x (Visited T i rest) -> In x rest.
Proof.
  induction rest as [|pt rest IH]; intros i x; cbn [Visited]; [tauto|].
  destruct (F32.ltb (F32.of_int i) T); [|intros []].
  intros [->|H]; [left; reflexivity|right; eapply IH; exact H].
Qed.

Lemma LoopCount_none c manager tr rest :
  (forall pt, In pt rest -> Submerged c manager tr pt = false) ->
  LoopCount c manager tr rest = 0.
Proof.
  induction rest as [|pt rest IH]; intros H; cbn [LoopCount]; [reflexivity|].
  rewrite (H pt (or_introl eq_refl)), IH by (intros q Hq; apply H; right; exact Hq).
  reflexivity.
Qed.

Lemma LoopForces_none c p g manager T tr rest :
  (forall pt, In pt rest -> Submerged c manager tr pt = false) ->
  forall i, LoopForces c p g manager T tr i rest = [].
Proof.
  induction rest as [|pt rest IH]; intros H i; cbn [LoopForces]; [reflexivity|].
  rewrite (H pt (or_introl eq_refl)), IH by (intros q Hq; apply H; right; exact Hq).
  reflexivity.
Qed.




(** * The tick *)

Lemma State_eta s : mkState (Self s) (UpdatedPrimitive s) (World s) = s.
Proof. destruct s; reflexivity. Qed.

(** The tick of a simulating body with at least one test point: the loop
    runs over the points below the [float] count. *)
Lemma TickComponent_visited s manager :
  OceanManager (Self s) = Some manager ->
  IsSimulatingPhysics (UpdatedPrimitive s) = true ->
  1 <= Z.of_nat (length (TestPoints (Self s))) ->
  let c := Self s in
  let p := UpdatedPrimitive s in
  let T := F32.of_int (Z.of_nat (length (TestPoints c))) in
  let tr := GetComponentTransform p in
  let visited := Visited T 0 (TestPoints c) in
  let count := LoopCount c manager tr visited in
  TickComponent s
  = mkState c
      (UpdateDamping c T count
         (ClampVelocity c count
            (WithForces p
               (LoopForces c p (GravityZ (World s)) manager T tr 0 visited))))
      (WithSpheres (World s) (LoopSpheres c manager tr visited)).
Proof.
  intros Hm Hsim Hn. cbv zeta. unfold TickComponent.
  rewrite Hm, Hsim. cbn [negb].
  rewrite of_int_not_ltb_one by assumption.
  set (T := F32.of_int (Z.of_nat (length (TestPoints (Self s))))).
  set (tr := GetComponentTransform (UpdatedPrimitive s)).
  set (visited := Visited T 0 (TestPoints (Self s))).
  assert (HL : PointLoop manager T tr 0 (TestPoints (Self s)) (mkLoop 0 s)
               = mkLoop (0 + LoopCount (Self s) manager tr visited)
                   (mkState (Self s)
                      (WithForces (UpdatedPrimitive s)
                         ([] ++ LoopForces (Self s) (UpdatedPrimitive s)
                                  (GravityZ (World s)) manager T tr 0 visited))
                      (WithSpheres (World s)
                         ([] ++ LoopSpheres (Self s) manager tr visited)))).
  { unfold visited.
    rewrite <- (PointLoop_outputs manager T tr (Self s) (UpdatedPrimitive s) (World s)
                  (TestPoints (Self s)) 0 0 [] []).
    rewrite WithForces_nil, WithSpheres_nil, State_eta. reflexivity. }
  rewrite HL. cbn [Current PointsUnderWater Self UpdatedPrimitive World app].
  rewrite Z.add_0_l. reflexivity.
Qed.

(** With between 1 and [2 ^ 24] test points the loop runs over all of them. *)
Lemma TickComponent_simulating s manager :
  OceanManager (Self s) = Some manager ->
  IsSimulatingPhysics (UpdatedPrimitive s) = true ->
  1 <= Z.of_nat (length (TestPoints (Self s))) <= 2 ^ 24 ->
  let c := Self s in
  let p := UpdatedPrimitive s in
  let T := F32.of_int (Z.of_nat (length (TestPoints c))) in
  let tr := GetComponentTransform p in
  let count := LoopCount c manager tr (TestPoints c) in
  TickComponent s
  = mkState c
      (UpdateDamping c T count
         (ClampVelocity c count
            (WithForces p
               (LoopForces c p (GravityZ (World s)) manager T tr 0 (TestPoints c)))))
      (WithSpheres (World s) (LoopSpheres c manager tr (TestPoints c))).
Proof.
  intros Hm Hsim [Hn1 Hn2]. cbv zeta.
  rewrite (TickComponent_visited s manager Hm Hsim Hn1). cbv zeta.
  rewrite (Visited_TestPoints _ Hn2). reflexivity.
Qed.

Lemma Forces_UpdateDamping c T n p : Forces (UpdateDamping c T n p) = Forces p.
Proof. reflexivity. Qed.

Lemma Forces_ClampVelocity c n p : Forces (ClampVelocity c n p) = Forces p.
Proof. unfold ClampVelocity. destruct (_ && _); reflexivity. Qed.

Lemma PointDensity_nth_error c i :
  PointDensity c (Z.of_nat i)
  = match nth_error (PointDensityOverride c) i with
    | Some d => d
    | None => MeshDensity c
    end.
Proof.
  unfold PointDensity. rewrite Nat2Z.id.
  destruct (Z.leb_spec 0 (Z.of_nat i)) as [_|L]; [|lia]. cbn [andb].
  destruct (Z.ltb_spec (Z.of_nat i) (Z.of_nat (length (PointDensityOverride c))))
    as [Hlt|Hge].
  - destruct (nth_error (PointDensityOverride c) i) eqn:E.
    + apply nth_error_nth. assumption.
    + apply nth_error_None in E. lia.
  - destruct (nth_error (PointDensityOverride c) i) eqn:E; [|reflexivity].
    assert (Hs : nth_error (PointDensityOverride c) i <> None) by congruence.
    apply nth_error_Some in Hs. lia.
Qed.







Lemma gtb_eq_false h x :
  h = x \/ F32.eqb h x = true -> F32.gtb h x = false.
Proof.
  intros H. unfold F32.gtb, F32.eqb in *.
  destruct (SFltb x h) eqn:E; [exfalso|reflexivity].
  apply SFltb_spec in E. destruct E as (Nx & Nh & L).
  assert (K : key h = key x).
  { destruct H as [->|H]; [reflexivity|]. apply SFeqb_spec in H. tauto. }
  rewrite K in L. eapply lex_lt_not_le; [exact L|apply lex_le_refl].
Qed.

(** C4.  A test point whose sampled wave height equals
    [worldTestPoint.Z + _SignedRadius] (the same float, or [==] in C++) is not
    under water: its iteration adds no force and does not count it. *)
Theorem C4_boundary_is_not_underwater manager TotalPoints transform pointIndex
  testPoint l :
  let c := Self (Current l) in
  let w := TransformPosition transform testPoint in
  let h := Vec.Z (GetWaveHeightValue manager w) in
  h = F32.add (Vec.Z w) (_SignedRadius c) \/
  F32.eqb h (F32.add (Vec.Z w) (_SignedRadius c)) = true ->
  let l' := PointStep manager TotalPoints transform pointIndex testPoint l in
  IsUnderwater c h w = false /\
  Forces (UpdatedPrimitive (Current l')) = Forces (UpdatedPrimitive (Current l)) /\
  PointsUnderWater l' = PointsUnderWater l.
Proof.
  intros c w h H l'. apply gtb_eq_false in H.
  assert (Hu : IsUnderwater c h w = false) by exact H.
  split; [assumption|]. subst l'. unfold PointStep.
  fold c w h. rewrite Hu. cbn [Current UpdatedPrimitive PointsUnderWater]. auto.
Qed.

Lemma C4_witness :
  let l' := PointStep (FlatOcean (F32.neg F32.one)) F32.one
              (GetComponentTransform (UpdatedPrimitive BoundaryState)) 0
              Vec.ZeroVector (mkLoop 0 BoundaryState) in
  IsUnderwater (Self BoundaryState) (F32.neg F32.one) Vec.ZeroVector = false /\
  Forces (UpdatedPrimitive (Current l')) = [] /\
  PointsUnderWater l' = 0.
Proof.
  exact (C4_boundary_is_not_underwater (FlatOcean (F32.neg F32.one)) F32.one
           (GetComponentTransform (UpdatedPrimitive BoundaryState)) 0
           Vec.ZeroVector (mkLoop 0 BoundaryState) (or_introl eq_refl)).
Defined.

(** C7.  With a provider and a body that does not simulate physics, the tick
    moves the body to (x, y, wave height at its location) and changes nothing
    else: no force, and velocity and damping as before. *)
Theorem C7_kinematic_snap s manager :
  OceanManager (Self s) = Some manager ->
  IsSimulatingPhysics (UpdatedPrimitive s) = false ->
  let p := UpdatedPrimitive s in
  let p' := UpdatedPrimitive (TickComponent s) in
  let location := GetComponentLocation p in
  GetComponentLocation p'
  = mkFVector (Vec.X location) (Vec.Y location)
              (Vec.Z (GetWaveHeightValue manager location)) /\
  Forces p' = Forces p /\
  PhysicsLinearVelocity p' = PhysicsLinearVelocity p /\
  LinearDamping p' = LinearDamping p /\
  AngularDamping p' = AngularDamping p /\
  Mass p' = Mass p /\
  BodyInstance p' = BodyInstance p /\
  IsSimulatingPhysics p' = false /\
  RotateScale (ComponentToWorld p') = RotateScale (ComponentToWorld p) /\
  Self (TickComponent s) = Self s /\
  World (TickComponent s) = World s.
Proof.
  intros Hm Hsim. cbv zeta. unfold TickComponent.
  rewrite Hm, Hsim. cbn [negb UpdatedPrimitive Self World].
  unfold SetWorldLocation, GetComponentLocation.
  cbn [ComponentToWorld Translation RotateScale Forces PhysicsLinearVelocity
       LinearDamping AngularDamping Mass BodyInstance IsSimulatingPhysics].
  repeat split; try reflexivity. assumption.
Qed.

Lemma C7_witness :
  GetComponentLocation (UpdatedPrimitive (TickComponent (Buoy false)))
  = mkFVector F32.zero F32.zero (F32.of_int 5).
Proof.
  exact (proj1 (C7_kinematic_snap (Buoy false) (FlatOcean (F32.of_int 5))
                  eq_refl eq_refl)).
Defined.

(** C8.  Without a provider the tick does nothing; with a provider, a
    simulating body and no test point it does nothing either. *)
Theorem C8_silent_early_returns s :
  (OceanManager (Self s) = None -> TickComponent s = s) /\
  (forall manager,
      OceanManager (Self s) = Some manager ->
      IsSimulatingPhysics (UpdatedPrimitive s) = true ->
      TestPoints (Self s) = [] ->
      TickComponent s = s).
Proof.
  split.
  - intros H. unfold TickComponent. rewrite H. reflexivity.
  - intros manager Hm Hsim Hp. unfold TickComponent. rewrite Hm, Hsim, Hp. reflexivity.
Qed.

Lemma C8_witness :
  TickComponent Unbound = Unbound /\ TickComponent Pointless = Pointless.
Proof.
  split.
  - exact (proj1 (C8_silent_early_returns Unbound) eq_refl).
  - exact (proj2 (C8_silent_early_returns Pointless) (FlatOcean (F32.of_int 5))
             eq_refl eq_refl eq_refl).
Defined.

Lemma PointStep_Self manager T tr i pt l :
  Self (Current (PointStep manager T tr i pt l)) = Self (Current l).
Proof. reflexivity. Qed.

Lemma PointLoop_Self manager T tr :
  forall rest i l, Self (Current (PointLoop manager T tr i rest l)) = Self (Current l).
Proof.
  induction rest as [|pt rest IH]; intros i l; cbn [PointLoop]; [reflexivity|].
  destruct (F32.ltb (F32.of_int i) T); [|reflexivity].
  rewrite IH. apply PointStep_Self.
Qed.

(** C10.  [TickComponent] leaves every property and cached value of the
    component as it was.  [InitializeComponent] writes [TestPointRadius]
    (its absolute value), [_SignedRadius], [_baseLinearDamping] and
    [_baseAngularDamping] (and binds a provider when none is set); the other
    properties keep their values. *)
Theorem C10_tick_preserves_configuration s :
  Self (TickComponent s) = Self s /\
  (let c := Self s in
   let c' := Self (InitializeComponent s) in
   TestPointRadius c' = F32.fabs (TestPointRadius c) /\
   _SignedRadius c'
   = F32.mul (FMath.Sign (GravityZ (World s))) (F32.fabs (TestPointRadius c)) /\
   _baseLinearDamping c' = LinearDamping (UpdatedPrimitive s) /\
   _baseAngularDamping c' = AngularDamping (UpdatedPrimitive s) /\
   MeshDensity c' = MeshDensity c /\
   FluidDensity c' = FluidDensity c /\
   FluidLinearDamping c' = FluidLinearDamping c /\
   FluidAngularDamping c' = FluidAngularDamping c /\
   VelocityDamper c' = VelocityDamper c /\
   ClampMaxVelocity c' = ClampMaxVelocity c /\
   MaxUnderwaterVelocity c' = MaxUnderwaterVelocity c /\
   TestPoints c' = TestPoints c /\
   PointDensityOverride c' = PointDensityOverride c /\
   DrawDebugPoints c' = DrawDebugPoints c /\
   EnableStayUprightConstraint c' = EnableStayUprightConstraint c /\
   StayUprightStiffness c' = StayUprightStiffness c /\
   StayUprightDamping c' = StayUprightDamping c).
Proof.
  split.
  - unfold TickComponent. destruct (OceanManager (Self s)); [|reflexivity].
    destruct (negb (IsSimulatingPhysics (UpdatedPrimitive s))); [reflexivity|].
    destruct (F32.ltb _ F32.one); [reflexivity|].
    cbn [Self]. apply PointLoop_Self.
  - cbv zeta. unfold InitializeComponent. cbn [Self TestPointRadius _SignedRadius
      _baseLinearDamping _baseAngularDamping].
    destruct (EnableStayUprightConstraint (Self s)); repeat split; reflexivity.
Qed.

(** ** Depth fraction *)

(** Gravity up, radius [0.1f], point at height [0.5], wave height [0.8f]:
    the wave height is at least [z + radius + 2 * radius], computed in
    [float] or exactly, yet [z + signedRadius] rounds up and the fraction is
    [1 - 2^-24]. *)
Lemma C2_counterexample :
  let c := Self UpsideDown in
  let w := mkFVector F32.zero F32.zero Half in
  let h := EightTenths in
  F32.ltb F32.zero (TestPointRadius c) = true /\
  _SignedRadius c = TestPointRadius c /\
  F32.leb (F32.add (F32.add (Vec.Z w) (TestPointRadius c))
                   (F32.mul (TestPointRadius c) F32.two)) h = true /\
  ival (Vec.Z w) + ival (TestPointRadius c) + 2 * ival (TestPointRadius c) <= ival h /\
  IsUnderwater c h w = true /\
  DepthMultiplier c h w = S754_finite false 16777215 (-24) /\
  F32.ltb (DepthMultiplier c h w) F32.one = true /\
  exists force,
    Forces (UpdatedPrimitive (TickComponent UpsideDown)) = [(force, w)] /\
    Vec.Z force
    = F32.mul
        (F32.div
           (F32.mul (F32.mul (F32.div (Mass (UpdatedPrimitive UpsideDown))
                                      (MeshDensity c))
                             (FluidDensity c))
                    (F32.neg (GravityZ (World UpsideDown))))
           F32.one)
        (S754_finite false 16777215 (-24)).
Proof.
  cbv zeta. repeat split; try (vm_compute; congruence).
  eexists. split; vm_compute; reflexivity.
Qed.

(** C2 (amended).  The depth fraction lies in [0, 1] for all inputs.  When
    [TestPointRadius * 2] is positive and finite it does not decrease when the
    wave height increases, and it is exactly 1 whenever the computed depth
    [h - (w.Z + _SignedRadius)] is at least the computed diameter
    [TestPointRadius * 2]. *)
Theorem C2_depth_fraction c w :
  (forall h,
      F32.leb F32.zero (DepthMultiplier c h w) = true /\
      F32.leb (DepthMultiplier c h w) F32.one = true) /\
  (forall md ed,
      F32.valid (Vec.Z w) = true -> F32.valid (_SignedRadius c) = true ->
      F32.valid (TestPointRadius c) = true ->
      F32.mul (TestPointRadius c) F32.two = S754_finite false md ed ->
      (forall h1 h2,
          F32.valid h1 = true -> F32.valid h2 = true -> F32.leb h1 h2 = true ->
          F32.leb (DepthMultiplier c h1 w) (DepthMultiplier c h2 w) = true) /\
      (forall h,
          F32.valid h = true ->
          F32.leb (F32.mul (TestPointRadius c) F32.two)
                  (F32.sub h (F32.add (Vec.Z w) (_SignedRadius c))) = true ->
          DepthMultiplier c h w = F32.one)).
Proof.
  split.
  - intros h. apply Clamp_bounds.
  - intros md ed Vz Vs Vr Hd.
    assert (Va : F32.valid (F32.add (Vec.Z w) (_SignedRadius c)) = true)
      by (apply add_valid; assumption).
    assert (Vd : F32.valid (S754_finite false md ed) = true)
      by (rewrite <- Hd; apply mul_valid; [assumption|reflexivity]).
    split.
    + intros h1 h2 V1 V2 H. rewrite !DepthMultiplier_DepthOf, Hd.
      apply DepthOf_mono; assumption.
    + intros h Vh H. rewrite DepthMultiplier_DepthOf. rewrite Hd in *.
      apply DepthOf_saturates; assumption.
Qed.

Lemma C2_witness :
  let c := Self (Buoy true) in
  let w := Vec.ZeroVector in
  F32.leb (DepthMultiplier c (F32.of_int 5) w) (DepthMultiplier c (F32.of_int 7) w)
  = true /\
  DepthMultiplier c (F32.of_int 12) w = F32.one.
Proof.
  cbv zeta.
  destruct (proj2 (C2_depth_fraction (Self (Buoy true)) Vec.ZeroVector)
              10485760%positive (-19) eq_refl eq_refl eq_refl eq_refl) as [Hmono Hsat].
  split.
  - exact (Hmono (F32.of_int 5) (F32.of_int 7) eq_refl eq_refl eq_refl).
  - exact (Hsat (F32.of_int 12) eq_refl eq_refl).
Defined.

(** ** Zero radius *)

Lemma Sign_mul_zero g :
  exists s, F32.mul (FMath.Sign g) (S754_zero false) = S754_zero s.
Proof.
  unfold FMath.Sign.
  destruct (F32.gtb g F32.zero); [|destruct (F32.ltb g F32.zero)]; cbn; eauto.
Qed.

Lemma C3_counterexample :
  TestPointRadius (Self ZeroRadius) = F32.zero /\
  F32.mul (TestPointRadius (Self ZeroRadius)) F32.two = F32.zero /\
  IsUnderwater (Self ZeroRadius) F32.one Vec.ZeroVector = true /\
  RawDepthMultiplier (Self ZeroRadius) F32.one Vec.ZeroVector = S754_infinity false.
Proof. repeat split. Qed.

(** C3 (amended).  After [InitializeComponent] with a zero radius, the
    divisor [TestPointRadius * 2] is zero and the division is carried out all
    the same; a point is under water exactly when [h > w.Z], and then the
    quotient is [+infinity] or NaN and the clamped fraction is 1. *)
Theorem C3_zero_radius_is_a_step s sign h w :
  TestPointRadius (Self s) = S754_zero sign ->
  F32.valid h = true -> F32.valid (Vec.Z w) = true ->
  let c := Self (InitializeComponent s) in
  F32.mul (TestPointRadius c) F32.two = F32.zero /\
  IsUnderwater c h w = F32.gtb h (Vec.Z w) /\
  (F32.gtb h (Vec.Z w) = true ->
   DepthMultiplier c h w = F32.one /\
   (RawDepthMultiplier c h w = S754_infinity false \/
    RawDepthMultiplier c h w = S754_nan)).
Proof.
  intros Hr Vh Vz c.
  assert (Er : TestPointRadius c = F32.zero).
  { subst c. unfold InitializeComponent. cbn [Self TestPointRadius]. rewrite Hr.
    reflexivity. }
  assert (Es : exists s', _SignedRadius c = S754_zero s').
  { subst c. unfold InitializeComponent. cbn [Self _SignedRadius]. rewrite Hr.
    apply Sign_mul_zero. }
  destruct Es as [s' Es].
  assert (Ed : F32.mul (TestPointRadius c) F32.two = F32.zero)
    by (rewrite Er; reflexivity).
  destruct (add_zero_r_key (Vec.Z w) s') as [K N].
  assert (Eu : IsUnderwater c h w = F32.gtb h (Vec.Z w)).
  { unfold IsUnderwater, F32.gtb. rewrite Es. apply SFltb_key; assumption. }
  repeat split; try assumption.
  - rewrite DepthMultiplier_DepthOf, Ed, Es.
    apply DepthOf_zero_diameter; try assumption.
    + apply add_valid; [assumption|reflexivity].
    + rewrite (SFltb_key _ (Vec.Z w) h K N). exact H.
  - assert (HD : DepthMultiplier c h w = F32.one).
    { rewrite DepthMultiplier_DepthOf, Ed, Es.
      apply DepthOf_zero_diameter; try assumption.
      + apply add_valid; [assumption|reflexivity].
      + rewrite (SFltb_key _ (Vec.Z w) h K N). exact H. }
    unfold DepthMultiplier in HD. unfold RawDepthMultiplier in *. rewrite Ed in *.
    destruct (F32.sub h (F32.add (Vec.Z w) (_SignedRadius c))) as [[]|[]| |[] m e];
      cbn in *; try discriminate HD; auto.
Qed.

Lemma C3_witness :
  IsUnderwater (Self ZeroRadius) F32.one Vec.ZeroVector = true /\
  DepthMultiplier (Self ZeroRadius) F32.one Vec.ZeroVector = F32.one.
Proof.
  destruct (C3_zero_radius_is_a_step
              (mkState
                 (mkBuoyancy (Some (FlatOcean F32.one))
                    (MeshDensity Defaults) (FluidDensity Defaults)
                    (FluidLinearDamping Defaults) (FluidAngularDamping Defaults)
                    (VelocityDamper Defaults) false (MaxUnderwaterVelocity Defaults)
                    F32.zero [Vec.ZeroVector] [] false false
                    (StayUprightStiffness Defaults) (StayUprightDamping Defaults)
                    F32.zero F32.zero F32.zero)
                 (RestingBody true) EmptyWorld)
              false F32.one Vec.ZeroVector eq_refl eq_refl eq_refl)
    as (_ & Hu & Hd).
  split; [exact Hu|exact (proj1 (Hd eq_refl))].
Defined.

(** ** Damping *)

Lemma LoopCount_bounds c manager tr rest :
  0 <= LoopCount c manager tr rest <= Z.of_nat (length rest).
Proof.
  induction rest as [|pt rest IH]; cbn [LoopCount length]; [lia|].
  destruct (Submerged c manager tr pt); lia.
Qed.

Lemma LoopCount_all c manager tr rest :
  (forall pt, In pt rest -> Submerged c manager tr pt = true) ->
  LoopCount c manager tr rest = Z.of_nat (length rest).
Proof.
  induction rest as [|pt rest IH]; intros H; cbn [LoopCount length]; [reflexivity|].
  rewrite (H pt (or_introl eq_refl)), IH by (intros q Hq; apply H; right; exact Hq).
  lia.
Qed.

Lemma of_int_positive n :
  1 <= n ->
  F32.of_int n = S754_infinity false \/
  exists m e, F32.of_int n = S754_finite false m e /\
              F32.valid (S754_finite false m e) = true /\
              2 ^ 149 <= ival (S754_finite false m e).
Proof.
  intros Hn. pose proof (of_int_mono 1 n Hn) as L.
  pose proof (Rep_valid _ _ _ _ (of_int_Rep n)) as V.
  change (F32.of_int 1) with F32.one in L.
  destruct (F32.of_int n) as [s|[]| |[] m e]; try discriminate L.
  - left. reflexivity.
  - right. exists m, e. repeat split; try assumption.
    rewrite <- ival_one. apply SFleb_ival; auto.
Qed.

(** With no point under water the fluid term is a zero. *)
Lemma FluidDamping_zero base fluid n :
  1 <= n ->
  F32.valid fluid = true -> F32.is_finite fluid = true ->
  F32.is_nan base = false ->
  F32.eqb (FluidDamping base fluid (F32.of_int n) 0) base = true.
Proof.
  intros Hn Vf Ff Nb. unfold FluidDamping.
  assert (Ez : exists s, F32.mul (F32.div fluid (F32.of_int n)) (F32.of_int 0)
                         = S754_zero s).
  { destruct (of_int_positive n Hn) as [->|(m & e & -> & V & I)].
    - destruct fluid as [[]|[]| |[] mf ef]; try discriminate; cbn; eauto.
    - pose proof (div_ge_one_finite fluid m e Vf Ff V I) as Fq.
      destruct (F32.div fluid (S754_finite false m e)) as [s| | |s m' e'];
        try discriminate; cbn; eauto. }
  destruct Ez as [s ->].
  destruct (add_zero_r_key base s) as [K N].
  apply SFeqb_spec. repeat split; try assumption. congruence.
Qed.





(** ** Velocity clamp *)

Lemma PointLoop_velocity manager T tr :
  forall rest i l,
    PhysicsLinearVelocity (UpdatedPrimitive (Current (PointLoop manager T tr i rest l)))
    = PhysicsLinearVelocity (UpdatedPrimitive (Current l)).
Proof.
  induction rest as [|pt rest IH]; intros i l; cbn [PointLoop]; [reflexivity|].
  destruct (F32.ltb (F32.of_int i) T); [|reflexivity].
  rewrite IH. unfold PointStep. cbn [Current UpdatedPrimitive].
  destruct (IsUnderwater _ _ _); reflexivity.
Qed.

(** Below the tolerance of [GetSafeNormal] the clamp sets the velocity to
    zero; at [(1000, 1000, 0)] with limit 1000 the rescaled velocity has
    speed [16383998 * 2^-14], just below 1000; at [(2^127, 0, 0)], where
    the squared speed overflows, the clamp sets the velocity to zero; and at
    [(3, 4, 0)] with the least positive limit [2^-149] the rescaled velocity
    is [(2^-149, 2^-149, 0)], in another direction and faster than the
    limit. *)
Lemma C6_counterexample :
  let manager := FlatOcean (F32.of_int 5) in
  (let c := Self Drifting in
   let p := UpdatedPrimitive Drifting in
   let p' := UpdatedPrimitive (TickComponent Drifting) in
   OceanManager c = Some manager /\
   IsSimulatingPhysics p = true /\
   ClampMaxVelocity c = true /\
   LoopCount c manager (GetComponentTransform p) (TestPoints c) = 1 /\
   F32.gtb (Vec.Size (PhysicsLinearVelocity p)) (MaxUnderwaterVelocity c) = true /\
   PhysicsLinearVelocity p' = Vec.ZeroVector /\
   F32.eqb (Vec.Size (PhysicsLinearVelocity p')) (MaxUnderwaterVelocity c) = false) /\
  (let c := Self Diagonal in
   let p := UpdatedPrimitive Diagonal in
   let p' := UpdatedPrimitive (TickComponent Diagonal) in
   OceanManager c = Some manager /\
   IsSimulatingPhysics p = true /\
   ClampMaxVelocity c = true /\
   LoopCount c manager (GetComponentTransform p) (TestPoints c) = 1 /\
   F32.gtb (Vec.Size (PhysicsLinearVelocity p)) (MaxUnderwaterVelocity c) = true /\
   MaxUnderwaterVelocity c = S754_finite false 16384000 (-14) /\
   Vec.Size (PhysicsLinearVelocity p') = S754_finite false 16383998 (-14) /\
   F32.eqb (Vec.Size (PhysicsLinearVelocity p')) (MaxUnderwaterVelocity c) = false) /\
  (let c := Self Racing in
   let p := UpdatedPrimitive Racing in
   let p' := UpdatedPrimitive (TickComponent Racing) in
   OceanManager c = Some manager /\
   IsSimulatingPhysics p = true /\
   ClampMaxVelocity c = true /\
   LoopCount c manager (GetComponentTransform p) (TestPoints c) = 1 /\
   F32.gtb (Vec.Size (PhysicsLinearVelocity p)) (MaxUnderwaterVelocity c) = true /\
   Vec.SizeSquared (PhysicsLinearVelocity p) = S754_infinity false /\
   PhysicsLinearVelocity p' = Vec.ZeroVector /\
   F32.eqb (Vec.Size (PhysicsLinearVelocity p')) (MaxUnderwaterVelocity c) = false) /\
  (let c := Self Crawling in
   let p := UpdatedPrimitive Crawling in
   let p' := UpdatedPrimitive (TickComponent Crawling) in
   OceanManager c = Some manager /\
   IsSimulatingPhysics p = true /\
   ClampMaxVelocity c = true /\
   LoopCount c manager (GetComponentTransform p) (TestPoints c) = 1 /\
   F32.gtb (Vec.Size (PhysicsLinearVelocity p)) (MaxUnderwaterVelocity c) = true /\
   MaxUnderwaterVelocity c = S754_finite false 1 (-149) /\
   PhysicsLinearVelocity p = mkFVector (F32.of_int 3) (F32.of_int 4) F32.zero /\
   PhysicsLinearVelocity p'
   = mkFVector (S754_finite false 1 (-149)) (S754_finite false 1 (-149)) F32.zero).
Proof. cbv zeta. repeat split; vm_compute; reflexivity. Qed.

(** ** Order of the test points *)


Section NoOverride.
Variables (c c' : UBuoyancyComponent) (p : UPrimitiveComponent) (g T : float)
          (manager : AOceanManager) (tr : FTransform).
Hypothesis no_override : PointDensityOverride c = [].
Hypothesis same_fields : c' = WithTestPoints c (TestPoints c').






End NoOverride.




(** * Further properties of the component *)

(** ** InitializeComponent *)

Lemma fabs_fabs x : F32.fabs (F32.fabs x) = F32.fabs x.
Proof. destruct x; reflexivity. Qed.

Lemma InitializeComponent_UpdatedPrimitive s :
  UpdatedPrimitive (InitializeComponent s) = UpdatedPrimitive s.
Proof. reflexivity. Qed.

Lemma InitializeComponent_GravityZ s :
  GravityZ (World (InitializeComponent s)) = GravityZ (World s).
Proof.
  unfold InitializeComponent. cbn [World].
  destruct (EnableStayUprightConstraint (Self s)); reflexivity.
Qed.

Lemma InitializeComponent_OceanManagers s :
  OceanManagers (World (InitializeComponent s)) = OceanManagers (World s).
Proof.
  unfold InitializeComponent. cbn [World].
  destruct (EnableStayUprightConstraint (Self s)); reflexivity.
Qed.

(** X1.  [InitializeComponent] keeps a provider that is set and binds the
    first [AOceanManager] of the world otherwise; in a world without one the
    component stays unbound and the tick that follows does nothing. *)
Theorem InitializeComponent_binds_provider s :
  (forall manager,
      OceanManager (Self s) = Some manager ->
      OceanManager (Self (InitializeComponent s)) = Some manager) /\
  (OceanManager (Self s) = None ->
   OceanManager (Self (InitializeComponent s)) = hd_error (OceanManagers (World s))) /\
  (OceanManager (Self s) = None -> OceanManagers (World s) = [] ->
   TickComponent (InitializeComponent s) = InitializeComponent s).
Proof.
  split; [|split].
  - intros manager H. unfold InitializeComponent. cbn [Self OceanManager].
    rewrite H. reflexivity.
  - intros H. unfold InitializeComponent. cbn [Self OceanManager].
    rewrite H. reflexivity.
  - intros H Hw. unfold TickComponent.
    assert (E : OceanManager (Self (InitializeComponent s)) = None).
    { unfold InitializeComponent. cbn [Self OceanManager]. rewrite H, Hw. reflexivity. }
    rewrite E. reflexivity.
Qed.

Lemma InitializeComponent_binds_provider_witness :
  OceanManager (Self (InitializeComponent Pointless)) = Some (FlatOcean (F32.of_int 5)) /\
  TickComponent (InitializeComponent Unbound) = InitializeComponent Unbound.
Proof.
  split.
  - exact (proj1 (InitializeComponent_binds_provider Pointless) _ eq_refl).
  - exact (proj2 (proj2 (InitializeComponent_binds_provider Unbound)) eq_refl eq_refl).
Defined.

(** X2.  A second [InitializeComponent] changes nothing in the component: the
    radius is already an absolute value, the signed radius and the base
    dampings are read from the same world and body.  The body is never
    touched, and with the stay-upright constraint disabled the whole state is
    the one the first call left. *)
Theorem InitializeComponent_twice s :
  Self (InitializeComponent (InitializeComponent s)) = Self (InitializeComponent s) /\
  UpdatedPrimitive (InitializeComponent (InitializeComponent s)) = UpdatedPrimitive s /\
  (EnableStayUprightConstraint (Self s) = false ->
   InitializeComponent (InitializeComponent s) = InitializeComponent s).
Proof.
  assert (HS : Self (InitializeComponent (InitializeComponent s))
               = Self (InitializeComponent s)).
  { unfold InitializeComponent at 1. cbn [Self].
    rewrite InitializeComponent_UpdatedPrimitive.
    assert (Hg : GravityZ
                   (if EnableStayUprightConstraint (Self (InitializeComponent s))
                    then SpawnConstraint (World (InitializeComponent s))
                           (GetComponentLocation (UpdatedPrimitive s))
                           (StayUprightConstraint (Self (InitializeComponent s)))
                    else World (InitializeComponent s))
                 = GravityZ (World s)).
    { destruct (EnableStayUprightConstraint (Self (InitializeComponent s)));
        cbn [SpawnConstraint GravityZ]; apply InitializeComponent_GravityZ. }
    rewrite Hg, InitializeComponent_OceanManagers.
    unfold InitializeComponent. cbn [Self OceanManager MeshDensity FluidDensity
      FluidLinearDamping FluidAngularDamping VelocityDamper ClampMaxVelocity
      MaxUnderwaterVelocity TestPointRadius TestPoints PointDensityOverride
      DrawDebugPoints EnableStayUprightConstraint StayUprightStiffness
      StayUprightDamping UpdatedPrimitive World].
    rewrite fabs_fabs.
    assert (Hg' : GravityZ
                    (if EnableStayUprightConstraint (Self s)
                     then SpawnConstraint (World s)
                            (GetComponentLocation (UpdatedPrimitive s))
                            (StayUprightConstraint (Self s))
                     else World s)
                  = GravityZ (World s))
      by (destruct (EnableStayUprightConstraint (Self s)); reflexivity).
    rewrite Hg'.
    destruct (OceanManager (Self s)); [reflexivity|].
    destruct (hd_error (OceanManagers (World s))); reflexivity. }
  split; [exact HS|]. split; [reflexivity|].
  intros Hd.
  transitivity (mkState (Self (InitializeComponent (InitializeComponent s)))
                        (UpdatedPrimitive (InitializeComponent (InitializeComponent s)))
                        (World (InitializeComponent (InitializeComponent s))));
    [symmetry; apply State_eta|].
  rewrite HS. rewrite <- (State_eta (InitializeComponent s)) at 4.
  f_equal. unfold InitializeComponent at 1. cbn [World].
  assert (E : EnableStayUprightConstraint (Self (InitializeComponent s)) = false)
    by exact Hd.
  rewrite E. reflexivity.
Qed.

Lemma InitializeComponent_twice_witness :
  InitializeComponent (InitializeComponent (Buoy true)) = InitializeComponent (Buoy true).
Proof.
  exact (proj2 (proj2 (InitializeComponent_twice (Buoy true))) eq_refl).
Defined.

Lemma iter_InitializeComponent_invariants s k :
  let s' := Nat.iter k InitializeComponent s in
  UpdatedPrimitive s' = UpdatedPrimitive s /\
  EnableStayUprightConstraint (Self s') = EnableStayUprightConstraint (Self s) /\
  StayUprightConstraint (Self s') = StayUprightConstraint (Self s) /\
  GravityZ (World s') = GravityZ (World s) /\
  OceanManagers (World s') = OceanManagers (World s) /\
  DebugSpheres (World s') = DebugSpheres (World s).
Proof.
  induction k as [|k IH]; [repeat split|].
  cbv zeta in *. rewrite Nat.iter_succ. destruct IH as (Hp & He & Hc & Hg & Ho & Hd).
  rewrite InitializeComponent_GravityZ, InitializeComponent_OceanManagers.
  rewrite InitializeComponent_UpdatedPrimitive.
  repeat split; try assumption.
  rewrite <- Hd. generalize (Nat.iter k InitializeComponent s) as s'. intros s'.
  unfold InitializeComponent. cbn [World].
  destruct (EnableStayUprightConstraint (Self s')); reflexivity.
Qed.

(** X3.  Every call of [InitializeComponent] with the stay-upright option
    spawns one more constraint at the location of the updated component, with
    free linear motion, the three angular motions limited to zero degrees by
    soft limits, and [StayUprightStiffness] and [StayUprightDamping] as swing
    and twist stiffness and damping; without the option none is spawned.
    Gravity, the ocean managers and the debug drawings of the world are not
    touched. *)
Theorem InitializeComponent_spawns_constraints s k :
  let s' := Nat.iter k InitializeComponent s in
  Constraints (World s')
  = Constraints (World s) ++
    (if EnableStayUprightConstraint (Self s)
     then repeat (GetComponentLocation (UpdatedPrimitive s),
                  mkConstraint LCM_Free LCM_Free LCM_Free F32.zero
                    ACM_Limited ACM_Limited ACM_Limited true true
                    F32.zero F32.zero F32.zero
                    (StayUprightStiffness (Self s)) (StayUprightDamping (Self s))
                    (StayUprightStiffness (Self s)) (StayUprightDamping (Self s))) k
     else []) /\
  GravityZ (World s') = GravityZ (World s) /\
  OceanManagers (World s') = OceanManagers (World s) /\
  DebugSpheres (World s') = DebugSpheres (World s).
Proof.
  cbv zeta. split; [|apply (iter_InitializeComponent_invariants s k)].
  fold (StayUprightConstraint (Self s)).
  induction k as [|k IH]; [|rewrite Nat.iter_succ].
  - cbn [Nat.iter nat_rect]. destruct (EnableStayUprightConstraint (Self s));
      cbn [repeat]; now rewrite app_nil_r.
  - destruct (iter_InitializeComponent_invariants s k) as (Hp & He & Hc & _).
    unfold InitializeComponent at 1. cbn [World]. cbv zeta in *.
    rewrite He, Hc, Hp.
    destruct (EnableStayUprightConstraint (Self s)).
    + cbn [SpawnConstraint Constraints]. rewrite IH, <- app_assoc. f_equal.
      symmetry. apply repeat_cons.
    + exact IH.
Qed.

(** *** Multiplying by [1] and [-1] is exact *)

Lemma key_finite_inj f s m e :
  key f = key (S754_finite s m e) -> f = S754_finite s m e.
Proof.
  destruct f as [[]|[]| |[] m' e'], s; cbn [key]; intros H; inversion H;
    try reflexivity.
  replace e' with e by lia. reflexivity.
Qed.

Lemma Rep_unique N d b f g :
  0 < d -> Rep N d b f -> Rep N d b g -> key f = key g.
Proof.
  intros Hd Rf Rg.
  assert (L1 : SFleb f g = true) by (apply (Rep_mono N d N d b); auto; lia).
  assert (L2 : SFleb g f = true) by (apply (Rep_mono N d N d b); auto; lia).
  apply SFleb_spec in L1, L2. destruct L1 as (_ & _ & L1), L2 as (_ & _ & L2).
  apply lex_le_antisym; assumption.
Qed.

Lemma mul_exact x y s m e :
  F32.valid x = true -> F32.valid y = true ->
  F32.is_finite x = true -> F32.is_finite y = true ->
  F32.valid (S754_finite s m e) = true ->
  ival x * ival y = ival (S754_finite s m e) * 2 ^ 149 ->
  F32.mul x y = S754_finite s m e.
Proof.
  intros Vx Vy Fx Fy Vg E. apply key_finite_inj.
  apply (Rep_unique (ival x * ival y) 1 (-298)); [lia|apply mul_Rep; assumption|].
  rewrite E. apply (Rep_rebase _ 1 (-149) _ 149); [lia|].
  apply valid_Rep; [assumption|reflexivity].
Qed.

Lemma mul_one_l x : F32.valid x = true -> F32.mul F32.one x = x.
Proof.
  intros V. destruct x as [[]|[]| |s m e]; try reflexivity.
  apply mul_exact; try reflexivity; try assumption.
  rewrite ival_one. lia.
Qed.

Lemma mul_neg_one_l x : F32.valid x = true -> F32.mul (F32.neg F32.one) x = F32.neg x.
Proof.
  intros V. destruct x as [[]|[]| |s m e]; try reflexivity.
  change (F32.neg (S754_finite s m e)) with (S754_finite (negb s) m e).
  apply mul_exact; try reflexivity; try assumption.
  change (ival (F32.neg F32.one)) with (- 2 ^ 149).
  cbn [ival]. destruct s; cbn [negb]; lia.
Qed.

Lemma valid_fabs x : F32.valid (F32.fabs x) = F32.valid x.
Proof. destruct x; reflexivity. Qed.

Lemma Sign_cases g :
  (F32.gtb g F32.zero = true /\ FMath.Sign g = F32.one) \/
  (F32.gtb g F32.zero = false /\ F32.ltb g F32.zero = true /\
   FMath.Sign g = F32.neg F32.one) \/
  (F32.gtb g F32.zero = false /\ F32.ltb g F32.zero = false /\
   FMath.Sign g = F32.zero).
Proof.
  unfold FMath.Sign. destruct (F32.gtb g F32.zero); [left; auto|].
  destruct (F32.ltb g F32.zero); [right; left; auto|right; right; auto].
Qed.

(** X4.  After [InitializeComponent] the radius is the absolute value of the
    configured one, so never negative, and the signed radius follows gravity:
    it is minus the radius when gravity points down, the radius itself in an
    upside-down world, and a zero when gravity is zero or NaN (for a finite
    radius). *)
Theorem InitializeComponent_signed_radius s :
  F32.valid (TestPointRadius (Self s)) = true ->
  let c' := Self (InitializeComponent s) in
  let gravityZ := GravityZ (World s) in
  TestPointRadius c' = F32.fabs (TestPointRadius (Self s)) /\
  (F32.is_nan (TestPointRadius (Self s)) = false ->
   F32.leb F32.zero (TestPointRadius c') = true) /\
  (F32.ltb gravityZ F32.zero = true ->
   _SignedRadius c' = F32.neg (TestPointRadius c')) /\
  (F32.gtb gravityZ F32.zero = true ->
   _SignedRadius c' = TestPointRadius c') /\
  (F32.ltb gravityZ F32.zero = false -> F32.gtb gravityZ F32.zero = false ->
   F32.is_finite (TestPointRadius (Self s)) = true ->
   is_zero (_SignedRadius c') = true).
Proof.
  intros V c' gravityZ.
  assert (Er : TestPointRadius c' = F32.fabs (TestPointRadius (Self s)))
    by reflexivity.
  assert (Es : _SignedRadius c'
               = F32.mul (FMath.Sign gravityZ) (F32.fabs (TestPointRadius (Self s)))).
  { subst c' gravityZ. unfold InitializeComponent. cbn [Self _SignedRadius].
    destruct (EnableStayUprightConstraint (Self s)); reflexivity. }
  assert (V' : F32.valid (F32.fabs (TestPointRadius (Self s))) = true)
    by (rewrite valid_fabs; exact V).
  rewrite Es, Er. split; [reflexivity|]. split; [|split; [|split]].
  - intros N. destruct (TestPointRadius (Self s)) as [[]|[]| |[] m e];
      try reflexivity; discriminate N.
  - intros Hg. destruct (Sign_cases gravityZ) as [[H1 _]|[(_ & _ & ->)|(_ & H2 & _)]].
    + exfalso. unfold F32.gtb, F32.ltb in *.
      apply SFltb_spec in Hg, H1. destruct Hg as (_ & _ & L1), H1 as (_ & _ & L2).
      eapply lex_lt_not_le; [exact L1|apply lex_lt_le; exact L2].
    + apply mul_neg_one_l. exact V'.
    + congruence.
  - intros Hg. destruct (Sign_cases gravityZ) as [[_ ->]|[(H1 & _)|(H1 & _)]];
      [|congruence|congruence].
    apply mul_one_l. exact V'.
  - intros H1 H2 F. destruct (Sign_cases gravityZ) as [[H _]|[(_ & H & _)|(_ & _ & ->)]];
      [congruence|congruence|].
    destruct (TestPointRadius (Self s)) as [[]|[]| |[] m e];
      try reflexivity; discriminate F.
Qed.

Lemma InitializeComponent_signed_radius_witness :
  _SignedRadius (Self (Buoy true)) = F32.neg (F32.of_int 10) /\
  _SignedRadius (Self UpsideDown) = Tenth.
Proof.
  split.
  - exact (proj1 (proj2 (proj2
             (InitializeComponent_signed_radius
                (mkState (Configured (Some (FlatOcean (F32.of_int 5))) [Vec.ZeroVector])
                         (RestingBody true) EmptyWorld)
                eq_refl))) eq_refl).
  - apply (proj1 (proj2 (proj2 (proj2
             (InitializeComponent_signed_radius
                (mkState
                   (mkBuoyancy (Some (FlatOcean EightTenths))
                      (MeshDensity Defaults) (FluidDensity Defaults)
                      (FluidLinearDamping Defaults) (FluidAngularDamping Defaults)
                      (VelocityDamper Defaults) false (MaxUnderwaterVelocity Defaults)
                      Tenth [mkFVector F32.zero F32.zero Half] [] false false
                      (StayUprightStiffness Defaults) (StayUprightDamping Defaults)
                      F32.zero F32.zero F32.zero)
                   (RestingBody true) UpsideDownWorld)
                eq_refl))))).
    reflexivity.
Defined.

(** ** The point loop *)

Lemma of_int_ltb_irrefl n T :
  T = F32.of_int n -> forall k, n <= k -> F32.ltb (F32.of_int k) T = false.
Proof.
  intros -> k Hk. apply SFleb_not_ltb. apply of_int_mono. exact Hk.
Qed.

Lemma IndexLoop_PointLoop manager T transform points :
  T = F32.of_int (Z.of_nat (length points)) ->
  forall rest prefix l,
    points = prefix ++ rest ->
    IndexLoop (S (length rest)) manager T transform points
              (Z.of_nat (length prefix)) l
    = Finished (PointLoop manager T transform (Z.of_nat (length prefix)) rest l).
Proof.
  intros HT. induction rest as [|pt rest IH]; intros prefix l Hp.
  - cbn [IndexLoop PointLoop length].
    rewrite (of_int_ltb_irrefl _ T HT); [reflexivity|].
    rewrite Hp, app_nil_r. lia.
  - cbn [IndexLoop PointLoop length].
    destruct (F32.ltb (F32.of_int (Z.of_nat (length prefix))) T); [|reflexivity].
    assert (Hlen : Z.of_nat (length prefix) < Z.of_nat (length points))
      by (rewrite Hp, length_app; cbn [length]; lia).
    destruct (Z.leb_spec 0 (Z.of_nat (length prefix))) as [_|L]; [|lia].
    destruct (Z.ltb_spec (Z.of_nat (length prefix)) (Z.of_nat (length points)))
      as [_|L]; [|lia].
    cbn [andb]. rewrite Nat2Z.id.
    assert (Hnth : nth_error points (length prefix) = Some pt).
    { rewrite Hp, nth_error_app2 by apply Nat.le_refl.
      rewrite Nat.sub_diag. reflexivity. }
    rewrite Hnth.
    replace (Z.of_nat (length prefix) + 1) with (Z.of_nat (length (prefix ++ [pt])))
      by (rewrite length_app; cbn [length]; lia).
    apply IH. rewrite Hp, <- app_assoc. reflexivity.
Qed.

Lemma PointLoop_fold manager T transform :
  forall rest first l,
    (forall k, Z.of_nat first <= k < Z.of_nat first + Z.of_nat (length rest) ->
               F32.ltb (F32.of_int k) T = true) ->
    PointLoop manager T transform (Z.of_nat first) rest l
    = fold_left (fun acc ip => PointStep manager T transform (fst ip) (snd ip) acc)
                (IndexedFrom first rest) l.
Proof.
  induction rest as [|pt rest IH]; intros first l Hg; [reflexivity|].
  cbn [PointLoop]. rewrite Hg by (cbn [length]; lia).
  unfold IndexedFrom. cbn [length seq map combine fold_left fst snd].
  replace (Z.of_nat first + 1) with (Z.of_nat (S first)) by lia.
  apply IH. intros k Hk. apply Hg. cbn [length]. lia.
Qed.

(** X5.  The point loop as written, reading [TestPoints[pointIndex]] while
    [pointIndex < TotalPoints] holds in [float], never reads outside the
    array and ends after at most [TestPoints.Num() + 1] evaluations of its
    condition, with the result of the loop of the tick; and with at most
    [2 ^ 24] test points that result is the loop body applied once to every
    test point, in the order of the array: no test point is skipped. *)
Theorem IndexLoop_in_range (c : UBuoyancyComponent) manager transform l :
  let TotalPoints := F32.of_int (Z.of_nat (length (TestPoints c))) in
  IndexLoop (S (length (TestPoints c))) manager TotalPoints transform (TestPoints c) 0 l
  = Finished (PointLoop manager TotalPoints transform 0 (TestPoints c) l) /\
  (Z.of_nat (length (TestPoints c)) <= 2 ^ 24 ->
   PointLoop manager TotalPoints transform 0 (TestPoints c) l
   = fold_left (fun acc ip => PointStep manager TotalPoints transform (fst ip) (snd ip) acc)
               (Indexed (TestPoints c)) l).
Proof.
  cbv zeta. split.
  - apply (IndexLoop_PointLoop manager _ transform (TestPoints c) eq_refl
             (TestPoints c) [] l eq_refl).
  - intros Hn. apply (PointLoop_fold manager _ transform (TestPoints c) 0%nat l).
    intros k Hk. apply of_int_ltb; lia.
Qed.

Lemma IndexLoop_in_range_witness :
  let manager := FlatOcean (F32.of_int 5) in
  let transform := GetComponentTransform (RestingBody true) in
  let l := mkLoop 0 (TwoPoints [Low; High]) in
  PointLoop manager (F32.of_int 2) transform 0 [Low; High] l
  = PointStep manager (F32.of_int 2) transform 1 High
      (PointStep manager (F32.of_int 2) transform 0 Low l).
Proof.
  exact (proj2 (IndexLoop_in_range (Self (TwoPoints [Low; High]))
                  (FlatOcean (F32.of_int 5))
                  (GetComponentTransform (RestingBody true))
                  (mkLoop 0 (TwoPoints [Low; High])))
           ltac:(vm_compute; discriminate)).
Defined.

(** The three ways a tick can go. *)
Lemma TickComponent_cases s :
  TickComponent s = s \/
  (exists manager,
      OceanManager (Self s) = Some manager /\
      IsSimulatingPhysics (UpdatedPrimitive s) = false /\
      TickComponent s
      = mkState (Self s)
          (SetWorldLocation (UpdatedPrimitive s)
             (mkFVector (Vec.X (GetComponentLocation (UpdatedPrimitive s)))
                        (Vec.Y (GetComponentLocation (UpdatedPrimitive s)))
                        (Vec.Z (GetWaveHeightValue manager
                                  (GetComponentLocation (UpdatedPrimitive s))))))
          (World s)) \/
  (exists manager,
      OceanManager (Self s) = Some manager /\
      IsSimulatingPhysics (UpdatedPrimitive s) = true /\
      1 <= Z.of_nat (length (TestPoints (Self s)))).
Proof.
  destruct (OceanManager (Self s)) as [manager|] eqn:Hm.
  2:{ left. unfold TickComponent. rewrite Hm. reflexivity. }
  destruct (IsSimulatingPhysics (UpdatedPrimitive s)) eqn:Hsim.
  2:{ right. left. exists manager. repeat split.
      unfold TickComponent. rewrite Hm, Hsim. reflexivity. }
  destruct (TestPoints (Self s)) as [|pt rest] eqn:Hp.
  - left. unfold TickComponent. rewrite Hm, Hsim, Hp. reflexivity.
  - right. right. exists manager. repeat split. cbn [length]. lia.
Qed.

Lemma LoopForces_IndexedFrom c p g manager T tr :
  forall rest first,
    LoopForces c p g manager T tr (Z.of_nat first) rest
    = map (fun ip : Z * FVector =>
             (PointForce c p g T (fst ip) (WaveHeight manager tr (snd ip))
                         (WorldPoint tr (snd ip)),
              WorldPoint tr (snd ip)))
          (filter (fun ip : Z * FVector => Submerged c manager tr (snd ip))
                  (IndexedFrom first rest)).
Proof.
  induction rest as [|pt rest IH]; intros first; [reflexivity|].
  cbn [LoopForces]. replace (Z.of_nat first + 1) with (Z.of_nat (S first)) by lia.
  rewrite IH. unfold IndexedFrom. cbn [length seq map combine filter snd].
  destruct (Submerged c manager tr pt); reflexivity.
Qed.

(** X6.  In a tick over a simulating body the forces applied are exactly
    those of the test points under water, in the order of their indices, each
    at the world position of its point: a point out of the water receives no
    force, and no force is applied anywhere else. *)
Theorem TickComponent_forces s manager :
  OceanManager (Self s) = Some manager ->
  IsSimulatingPhysics (UpdatedPrimitive s) = true ->
  Z.of_nat (length (TestPoints (Self s))) <= 2 ^ 24 ->
  let c := Self s in
  let p := UpdatedPrimitive s in
  let transform := GetComponentTransform p in
  let TotalPoints := F32.of_int (Z.of_nat (length (TestPoints c))) in
  let world (ip : Z * FVector) := TransformPosition transform (snd ip) in
  let height (ip : Z * FVector) := Vec.Z (GetWaveHeightValue manager (world ip)) in
  Forces (UpdatedPrimitive (TickComponent s))
  = Forces p ++
    map (fun ip =>
           (PointForce c p (GravityZ (World s)) TotalPoints (fst ip)
                       (height ip) (world ip),
            world ip))
        (filter (fun ip => IsUnderwater c (height ip) (world ip))
                (Indexed (TestPoints c))).
Proof.
  intros Hm Hsim Hn. cbv zeta.
  destruct (TestPoints (Self s)) as [|pt rest] eqn:Hp.
  - unfold TickComponent. rewrite Hm, Hsim, Hp. cbn. now rewrite app_nil_r.
  - rewrite <- Hp in *.
    assert (Hlen : 1 <= Z.of_nat (length (TestPoints (Self s))) <= 2 ^ 24)
      by (rewrite Hp in *; cbn [length] in *; lia).
    rewrite (TickComponent_simulating s manager Hm Hsim Hlen). cbv zeta.
    cbn [UpdatedPrimitive]. rewrite Forces_UpdateDamping, Forces_ClampVelocity.
    cbn [WithForces Forces]. f_equal.
    apply (LoopForces_IndexedFrom (Self s) (UpdatedPrimitive s) (GravityZ (World s))
             manager _ _ (TestPoints (Self s)) 0%nat).
Qed.

Lemma TickComponent_forces_witness :
  length (Forces (UpdatedPrimitive (TickComponent (TwoPoints [Low; High])))) = 1%nat /\
  Forces (UpdatedPrimitive (TickComponent (TwoPoints [High; Low])))
  = [(PointForce (Self (TwoPoints [High; Low])) (RestingBody true)
        (F32.neg (F32.of_int 980)) F32.two 1 (F32.of_int 5) Low, Low)].
Proof.
  split.
  - exact (f_equal (@length _)
             (TickComponent_forces (TwoPoints [Low; High]) (FlatOcean (F32.of_int 5))
                eq_refl eq_refl ltac:(vm_compute; discriminate))).
  - exact (TickComponent_forces (TwoPoints [High; Low]) (FlatOcean (F32.of_int 5))
             eq_refl eq_refl ltac:(vm_compute; discriminate)).
Defined.

Lemma LoopSpheres_map c manager tr rest :
  LoopSpheres c manager tr rest
  = if DrawDebugPoints c
    then map (fun testPoint =>
                (WorldPoint tr testPoint, TestPointRadius c,
                 if Submerged c manager tr testPoint then DebugBlue else DebugYellow))
             rest
    else [].
Proof.
  induction rest as [|pt rest IH]; cbn [LoopSpheres map].
  - destruct (DrawDebugPoints c); reflexivity.
  - rewrite IH. destruct (DrawDebugPoints c); reflexivity.
Qed.

Lemma World_eta w :
  mkWorld (OceanManagers w) (GravityZ w) (Constraints w) (DebugSpheres w) = w.
Proof. destruct w; reflexivity. Qed.

(** X7.  In a tick with a bound provider, a simulating body, at most
    [2 ^ 24] test points and [DrawDebugPoints] set, one sphere is drawn per
    test point, in the order of the array, at the world position of the
    point and with radius [TestPointRadius], blue for a point under water
    and yellow for one out of it; without [DrawDebugPoints] a tick, whatever
    the state, leaves the world as it is. *)
Theorem TickComponent_debug_spheres s :
  (DrawDebugPoints (Self s) = false -> World (TickComponent s) = World s) /\
  (forall manager,
      OceanManager (Self s) = Some manager ->
      IsSimulatingPhysics (UpdatedPrimitive s) = true ->
      Z.of_nat (length (TestPoints (Self s))) <= 2 ^ 24 ->
      DrawDebugPoints (Self s) = true ->
      let c := Self s in
      let transform := GetComponentTransform (UpdatedPrimitive s) in
      DebugSpheres (World (TickComponent s))
      = DebugSpheres (World s) ++
        map (fun testPoint =>
               let worldTestPoint := TransformPosition transform testPoint in
               let waveHeight := Vec.Z (GetWaveHeightValue manager worldTestPoint) in
               (worldTestPoint, TestPointRadius c,
                if IsUnderwater c waveHeight worldTestPoint
                then DebugBlue else DebugYellow))
            (TestPoints c)).
Proof.
  split.
  - intros Hd. destruct (TickComponent_cases s)
      as [->|[(manager & _ & _ & ->)|(manager & Hm & Hsim & Hn)]]; try reflexivity.
    rewrite (TickComponent_visited s manager Hm Hsim Hn). cbv zeta. cbn [World].
    rewrite LoopSpheres_map, Hd. unfold WithSpheres. rewrite app_nil_r.
    apply World_eta.
  - intros manager Hm Hsim Hn Hd. cbv zeta.
    destruct (TestPoints (Self s)) as [|pt rest] eqn:Hp.
    + unfold TickComponent. rewrite Hm, Hsim, Hp. cbn. now rewrite app_nil_r.
    + rewrite <- Hp in *.
      assert (Hlen : 1 <= Z.of_nat (length (TestPoints (Self s))) <= 2 ^ 24)
        by (rewrite Hp in *; cbn [length] in *; lia).
      rewrite (TickComponent_simulating s manager Hm Hsim Hlen). cbv zeta.
      cbn [World WithSpheres DebugSpheres]. rewrite LoopSpheres_map, Hd.
      reflexivity.
Qed.

Lemma TickComponent_debug_spheres_witness :
  World (TickComponent (TwoPoints [Low; High])) = World (TwoPoints [Low; High]) /\
  DebugSpheres
    (World (TickComponent
              (Drawing (TwoPoints [Low; High]) true)))
  = [(Low, F32.of_int 10, DebugBlue); (High, F32.of_int 10, DebugYellow)].
Proof.
  split.
  - exact (proj1 (TickComponent_debug_spheres (TwoPoints [Low; High])) eq_refl).
  - exact (proj2 (TickComponent_debug_spheres
                    (Drawing (TwoPoints [Low; High]) true))
             (FlatOcean (F32.of_int 5)) eq_refl eq_refl
             ltac:(vm_compute; discriminate) eq_refl).
Defined.

(** ** What a tick leaves alone *)

(** X8.  A tick never changes the mass, the physics state or the body
    instance of the body, nor its rotation and scale; it moves a simulating
    body not at all.  It never removes a pending force or a debug drawing,
    and it leaves gravity, the constraints and the ocean managers of the
    world as they are. *)
Theorem TickComponent_frame s :
  let p := UpdatedPrimitive s in
  let p' := UpdatedPrimitive (TickComponent s) in
  let w := World s in
  let w' := World (TickComponent s) in
  Mass p' = Mass p /\
  IsSimulatingPhysics p' = IsSimulatingPhysics p /\
  BodyInstance p' = BodyInstance p /\
  RotateScale (ComponentToWorld p') = RotateScale (ComponentToWorld p) /\
  (IsSimulatingPhysics p = true -> ComponentToWorld p' = ComponentToWorld p) /\
  (exists forces, Forces p' = Forces p ++ forces) /\
  GravityZ w' = GravityZ w /\
  Constraints w' = Constraints w /\
  OceanManagers w' = OceanManagers w /\
  (exists spheres, DebugSpheres w' = DebugSpheres w ++ spheres).
Proof.
  cbv zeta.
  destruct (TickComponent_cases s)
    as [->|[(manager & _ & Hsim & ->)|(manager & Hm & Hsim & Hn)]].
  - repeat split; try (exists []; now rewrite app_nil_r).
  - cbn [UpdatedPrimitive World]. unfold SetWorldLocation.
    cbn [Mass IsSimulatingPhysics BodyInstance ComponentToWorld RotateScale Forces].
    repeat split; try (exists []; now rewrite app_nil_r).
    intros H. congruence.
  - rewrite (TickComponent_visited s manager Hm Hsim Hn). cbv zeta.
    cbn [UpdatedPrimitive World]. unfold UpdateDamping, ClampVelocity.
    destruct (_ && _); cbn; repeat split; eexists; reflexivity.
Qed.

Lemma TickComponent_frame_witness :
  ComponentToWorld (UpdatedPrimitive (TickComponent Speeding))
  = ComponentToWorld (UpdatedPrimitive Speeding).
Proof.
  exact (proj1 (proj2 (proj2 (proj2 (proj2 (TickComponent_frame Speeding))))) eq_refl).
Defined.

(** X9.  The velocity clamp fires only under water and above the limit: a
    tick leaves the linear velocity as it is when the speed does not exceed
    [MaxUnderwaterVelocity] (also when the comparison fails because one of
    them is NaN), and when no test point is under water, whatever the speed
    and whether or not [ClampMaxVelocity] is set. *)
Theorem TickComponent_clamp_idle s :
  let c := Self s in
  let p := UpdatedPrimitive s in
  let p' := UpdatedPrimitive (TickComponent s) in
  (F32.gtb (Vec.Size (PhysicsLinearVelocity p)) (MaxUnderwaterVelocity c) = false ->
   PhysicsLinearVelocity p' = PhysicsLinearVelocity p) /\
  (forall manager,
      OceanManager c = Some manager ->
      (forall testPoint,
          In testPoint (TestPoints c) ->
          let worldTestPoint := TransformPosition (GetComponentTransform p) testPoint in
          IsUnderwater c (Vec.Z (GetWaveHeightValue manager worldTestPoint))
                       worldTestPoint = false) ->
      PhysicsLinearVelocity p' = PhysicsLinearVelocity p).
Proof.
  cbv zeta. split.
  - intros Hslow. destruct (TickComponent_cases s)
      as [->|[(manager & _ & _ & ->)|(manager & Hm & Hsim & Hn)]]; try reflexivity.
    rewrite (TickComponent_visited s manager Hm Hsim Hn). cbv zeta.
    cbn [UpdatedPrimitive]. unfold UpdateDamping, SetAngularDamping, SetLinearDamping.
    cbn [PhysicsLinearVelocity]. unfold ClampVelocity.
    cbn [PhysicsLinearVelocity WithForces]. rewrite Hslow, andb_false_r.
    reflexivity.
  - intros manager Hm Hdry. destruct (TickComponent_cases s)
      as [->|[(manager' & _ & _ & ->)|(manager' & Hm' & Hsim & Hn)]]; try reflexivity.
    rewrite (TickComponent_visited s manager Hm Hsim Hn). cbv zeta.
    cbn [UpdatedPrimitive]. unfold UpdateDamping, SetAngularDamping, SetLinearDamping.
    cbn [PhysicsLinearVelocity]. unfold ClampVelocity.
    rewrite LoopCount_none.
    + cbn [Z.ltb Z.compare]. rewrite andb_false_r. reflexivity.
    + intros pt Hpt. apply Hdry. eapply Visited_incl. exact Hpt.
Qed.

Lemma TickComponent_clamp_idle_witness :
  PhysicsLinearVelocity (UpdatedPrimitive (TickComponent (Moving Vec.ZeroVector)))
  = Vec.ZeroVector /\
  PhysicsLinearVelocity (UpdatedPrimitive (TickComponent HighAndDry))
  = PhysicsLinearVelocity (UpdatedPrimitive HighAndDry).
Proof.
  split.
  - exact (proj1 (TickComponent_clamp_idle (Moving Vec.ZeroVector)) eq_refl).
  - apply (proj2 (TickComponent_clamp_idle HighAndDry) (FlatOcean (F32.of_int 5)) eq_refl).
    intros testPoint [<-|[]]. reflexivity.
Defined.

(** ** Signs of the forces *)

Lemma binary_round_aux_shape s m e l :
  let r := binary_round_aux F32.prec F32.emax s m e l in
  r = S754_nan \/ r = S754_zero s \/ r = S754_infinity s \/
  exists m' e', r = S754_finite s m' e'.
Proof.
  cbv zeta. unfold binary_round_aux.
  destruct (shr_fexp F32.prec F32.emax m e l) as [mrs' e'].
  destruct (shr_fexp F32.prec F32.emax _ e' loc_Exact) as [mrs'' e''].
  destruct (shr_m mrs'') as [|q|q]; auto.
  destruct (e'' <=? F32.emax - F32.prec); eauto 6.
Qed.

Lemma not_negative_cases x :
  not_negative x = true <->
  (x = S754_nan \/ (exists s, x = S754_zero s) \/ x = S754_infinity false \/
   exists m e, x = S754_finite false m e).
Proof.
  split.
  - destruct x as [s|[]| |[] m e]; intros H; try discriminate H; eauto 6.
  - intros [->|[[s ->]|[->|(m & e & ->)]]]; reflexivity.
Qed.

Lemma binary_round_aux_not_negative m e l :
  not_negative (binary_round_aux F32.prec F32.emax false m e l) = true.
Proof.
  apply not_negative_cases.
  destruct (binary_round_aux_shape false m e l) as [H|[H|[H|(m' & e' & H)]]];
    cbv zeta in H; rewrite H; eauto 6.
Qed.

Lemma mul_not_negative x y :
  not_negative x = true -> not_negative y = true ->
  not_negative (F32.mul x y) = true.
Proof.
  intros Hx Hy. apply not_negative_cases in Hx, Hy.
  destruct Hx as [->|[[sx ->]|[->|(mx & ex & ->)]]];
    destruct Hy as [->|[[sy ->]|[->|(my & ey & ->)]]];
    try reflexivity; try (destruct sx; reflexivity); try (destruct sy; reflexivity);
    try (destruct sx, sy; reflexivity).
  apply binary_round_aux_not_negative.
Qed.

(** A divisor must be positive: [x / -0] is [-infinity] for a positive [x]. *)
Lemma div_not_negative x y :
  not_negative x = true -> F32.ltb F32.zero y = true ->
  not_negative (F32.div x y) = true.
Proof.
  intros Hx Hy. apply not_negative_cases in Hx.
  destruct y as [sy|[]| |[] my ey]; try discriminate Hy;
    destruct Hx as [->|[[sx ->]|[->|(mx & ex & ->)]]];
    try reflexivity; try (destruct sx; reflexivity).
  unfold F32.div, SFdiv.
  destruct (SFdiv_core_binary F32.prec F32.emax (Z.pos mx) ex (Z.pos my) ey)
    as [[mz ez] lz].
  apply binary_round_aux_not_negative.
Qed.

Lemma neg_not_negative x :
  F32.leb x F32.zero = true -> not_negative (F32.neg x) = true.
Proof. destruct x as [[]|[]| |[] m e]; intros H; try discriminate H; reflexivity. Qed.

Lemma leb_zero_not_negative x : F32.leb F32.zero x = true -> not_negative x = true.
Proof. intros H. unfold not_negative. rewrite H. apply orb_true_r. Qed.

Lemma of_int_ltb_zero n : 1 <= n -> F32.ltb F32.zero (F32.of_int n) = true.
Proof.
  intros Hn. destruct (of_int_positive n Hn) as [->|(m & e & -> & _)]; reflexivity.
Qed.

(** X10.  The buoyancy force never points down: for a mass and a fluid
    density that are not negative, a positive density of the point, gravity
    that does not point up and at least one test point, [BuoyancyForceZ] is
    not negative (or NaN, when a product of zero and infinity or a quotient
    of infinities occurs), whatever the depth fraction the clamp returns. *)
Theorem BuoyancyForceZ_not_negative c mass gravityZ n pointIndex X :
  F32.leb F32.zero mass = true ->
  F32.ltb F32.zero (PointDensity c pointIndex) = true ->
  F32.leb F32.zero (FluidDensity c) = true ->
  F32.leb gravityZ F32.zero = true ->
  1 <= n ->
  let depth := FMath.Clamp X F32.zero F32.one in
  let force := BuoyancyForceZ c mass gravityZ (F32.of_int n) pointIndex depth in
  F32.is_nan force = true \/ F32.leb F32.zero force = true.
Proof.
  intros Hm Hd Hf Hg Hn depth force.
  apply orb_true_iff. change (not_negative force = true).
  subst force. unfold BuoyancyForceZ.
  apply mul_not_negative.
  - apply div_not_negative; [|apply of_int_ltb_zero; exact Hn].
    apply mul_not_negative; [|apply neg_not_negative; exact Hg].
    apply mul_not_negative; [|apply leb_zero_not_negative; exact Hf].
    apply div_not_negative; [apply leb_zero_not_negative; exact Hm|exact Hd].
  - apply leb_zero_not_negative. apply Clamp_bounds.
Qed.

Lemma BuoyancyForceZ_not_negative_witness :
  F32.leb F32.zero
    (BuoyancyForceZ (Self (Buoy true)) (F32.of_int 100) (F32.neg (F32.of_int 980))
       (F32.of_int 1) 0
       (FMath.Clamp (RawDepthMultiplier (Self (Buoy true)) (F32.of_int 5) Vec.ZeroVector)
                    F32.zero F32.one))
  = true.
Proof.
  destruct (BuoyancyForceZ_not_negative (Self (Buoy true)) (F32.of_int 100)
              (F32.neg (F32.of_int 980)) 1 0
              (RawDepthMultiplier (Self (Buoy true)) (F32.of_int 5) Vec.ZeroVector)
              eq_refl eq_refl eq_refl eq_refl ltac:(lia)) as [H|H].
  - vm_compute in H. discriminate H.
  - exact H.
Defined.

Lemma mul_zero_finite x y :
  is_zero x = true -> F32.is_finite y = true -> is_zero (F32.mul x y) = true.
Proof.
  destruct x as [sx| | |]; try discriminate.
  destruct y as [sy| | |sy my ey]; try discriminate; reflexivity.
Qed.

Lemma Clamp_finite X : F32.is_finite (FMath.Clamp X F32.zero F32.one) = true.
Proof.
  destruct (Clamp_bounds X) as [H0 H1].
  destruct (FMath.Clamp X F32.zero F32.one) as [s|[]| |s m e];
    try reflexivity; discriminate.
Qed.

Lemma add_zero_l x z :
  is_zero z = true ->
  F32.add z x = x \/ (is_zero (F32.add z x) = true /\ is_zero x = true).
Proof.
  destruct z as [sz| | |]; try discriminate. intros _.
  destruct x as [sx|sx| |sx mx ex]; try (left; reflexivity).
  right. destruct sz, sx; split; reflexivity.
Qed.

(** X11.  Where the body does not move the damping force vanishes: for a
    test point at which [GetVelocityAtPoint] is the zero vector, with finite
    components of [VelocityDamper] and a finite mass, the force the tick
    computes for the point has zero X and Y components, and its Z component
    is the buoyancy force of that same point: the same float, or both are
    zeros. *)
Theorem PointForce_at_rest c p gravityZ TotalPoints pointIndex waveHeight
  worldTestPoint :
  GetVelocityAtPoint p worldTestPoint = Vec.ZeroVector ->
  F32.is_finite (Vec.X (VelocityDamper c)) = true ->
  F32.is_finite (Vec.Y (VelocityDamper c)) = true ->
  F32.is_finite (Vec.Z (VelocityDamper c)) = true ->
  F32.is_finite (Mass p) = true ->
  let force :=
    PointForce c p gravityZ TotalPoints pointIndex waveHeight worldTestPoint in
  let buoyancy :=
    BuoyancyForceZ c (Mass p) gravityZ TotalPoints pointIndex
                   (DepthMultiplier c waveHeight worldTestPoint) in
  is_zero (Vec.X force) = true /\
  is_zero (Vec.Y force) = true /\
  (Vec.Z force = buoyancy \/
   (is_zero (Vec.Z force) = true /\ is_zero buoyancy = true)).
Proof.
  intros Hv Hx Hy Hz Hmass. cbv zeta.
  unfold PointForce. cbn [Vec.X Vec.Y Vec.Z]. unfold DampingForce.
  rewrite Hv. cbn [Vec.scale Vec.mulv Vec.neg Vec.ZeroVector Vec.X Vec.Y Vec.Z].
  pose proof (Clamp_finite (RawDepthMultiplier c waveHeight worldTestPoint)) as Hd.
  fold (DepthMultiplier c waveHeight worldTestPoint) in Hd.
  assert (Z0 : forall d, F32.is_finite d = true ->
               is_zero (F32.mul (F32.mul (F32.mul (F32.neg F32.zero) d) (Mass p))
                                (DepthMultiplier c waveHeight worldTestPoint))
               = true).
  { intros d Fd. repeat apply mul_zero_finite; try assumption. reflexivity. }
  split; [apply Z0; assumption|]. split; [apply Z0; assumption|].
  apply add_zero_l. apply Z0. assumption.
Qed.

Lemma PointForce_at_rest_witness :
  let force :=
    PointForce (Self (Buoy true)) (RestingBody true) (F32.neg (F32.of_int 980))
      F32.one 0 (F32.of_int 5) Vec.ZeroVector in
  is_zero (Vec.X force) = true /\ is_zero (Vec.Y force) = true /\
  Vec.Z force = S754_finite false 16072000 (-7).
Proof.
  destruct (PointForce_at_rest (Self (Buoy true)) (RestingBody true)
              (F32.neg (F32.of_int 980)) F32.one 0 (F32.of_int 5) Vec.ZeroVector
              eq_refl eq_refl eq_refl eq_refl eq_refl) as (HX & HY & _).
  split; [exact HX|]. split; [exact HY|]. reflexivity.
Defined.

(** ** What a tick reads *)

Lemma LoopOutputs_WithOceanManager c o p g manager T tr :
  forall rest i,
    LoopForces (WithOceanManager c o) p g manager T tr i rest
    = LoopForces c p g manager T tr i rest /\
    LoopCount (WithOceanManager c o) manager tr rest = LoopCount c manager tr rest /\
    LoopSpheres (WithOceanManager c o) manager tr rest = LoopSpheres c manager tr rest.
Proof.
  induction rest as [|pt rest IH]; intros i; [repeat split|].
  cbn [LoopForces LoopCount LoopSpheres].
  destruct (IH (i + 1)) as (-> & -> & ->). repeat split.
Qed.

Lemma LoopOutputs_ext c p g m1 m2 T tr :
  forall rest,
    (forall pt, In pt rest -> WaveHeight m1 tr pt = WaveHeight m2 tr pt) ->
    forall i,
      LoopForces c p g m1 T tr i rest = LoopForces c p g m2 T tr i rest /\
      LoopCount c m1 tr rest = LoopCount c m2 tr rest /\
      LoopSpheres c m1 tr rest = LoopSpheres c m2 tr rest.
Proof.
  induction rest as [|pt rest IH]; intros H i; [repeat split|].
  cbn [LoopForces LoopCount LoopSpheres]. unfold Submerged.
  rewrite (H pt (or_introl eq_refl)).
  destruct (IH (fun q Hq => H q (or_intror Hq)) (i + 1)) as (-> & -> & ->).
  repeat split.
Qed.

(** X12.  Of its provider a tick reads only the Z component of the wave
    height, at the world positions of the test points for a simulating body
    and at the location of the component otherwise: two providers that agree
    on these leave the same body and the same world. *)
Theorem TickComponent_reads_wave_heights s m1 m2 :
  let c := Self s in
  let p := UpdatedPrimitive s in
  (if IsSimulatingPhysics p
   then forall testPoint,
          In testPoint (TestPoints c) ->
          let worldTestPoint := TransformPosition (GetComponentTransform p) testPoint in
          Vec.Z (GetWaveHeightValue m1 worldTestPoint)
          = Vec.Z (GetWaveHeightValue m2 worldTestPoint)
   else Vec.Z (GetWaveHeightValue m1 (GetComponentLocation p))
        = Vec.Z (GetWaveHeightValue m2 (GetComponentLocation p))) ->
  UpdatedPrimitive (TickComponent (Rebound s m1))
  = UpdatedPrimitive (TickComponent (Rebound s m2)) /\
  World (TickComponent (Rebound s m1)) = World (TickComponent (Rebound s m2)).
Proof.
  cbv zeta. intros H.
  destruct (IsSimulatingPhysics (UpdatedPrimitive s)) eqn:Hsim.
  2:{ unfold TickComponent, Rebound. cbn [Self UpdatedPrimitive WithOceanManager
        OceanManager World]. rewrite Hsim. cbn [negb UpdatedPrimitive World].
      rewrite H. split; reflexivity. }
  destruct (TestPoints (Self s)) as [|pt rest] eqn:Hp.
  { unfold TickComponent, Rebound. cbn [Self UpdatedPrimitive WithOceanManager
      OceanManager World TestPoints]. rewrite Hsim, Hp. split; reflexivity. }
  rewrite <- Hp in H.
  assert (Hn : 1 <= Z.of_nat (length (TestPoints (Self s))))
    by (rewrite Hp; cbn [length]; lia).
  rewrite (TickComponent_visited (Rebound s m1) m1 eq_refl Hsim Hn).
  rewrite (TickComponent_visited (Rebound s m2) m2 eq_refl Hsim Hn).
  cbv zeta. cbn [Rebound Self UpdatedPrimitive World].
  change (TestPoints (WithOceanManager (Self s) ?o)) with (TestPoints (Self s)).
  set (T := F32.of_int (Z.of_nat (length (TestPoints (Self s))))).
  set (tr := GetComponentTransform (UpdatedPrimitive s)).
  set (visited := Visited T 0 (TestPoints (Self s))).
  assert (Hv : forall pt, In pt visited -> WaveHeight m1 tr pt = WaveHeight m2 tr pt).
  { intros q Hq. apply H. eapply Visited_incl. exact Hq. }
  destruct (LoopOutputs_WithOceanManager (Self s) (Some m1) (UpdatedPrimitive s)
              (GravityZ (World s)) m1 T tr visited 0) as (-> & -> & ->).
  destruct (LoopOutputs_WithOceanManager (Self s) (Some m2) (UpdatedPrimitive s)
              (GravityZ (World s)) m2 T tr visited 0) as (-> & -> & ->).
  destruct (LoopOutputs_ext (Self s) (UpdatedPrimitive s) (GravityZ (World s))
              m1 m2 T tr visited Hv 0) as (-> & -> & ->).
  split; reflexivity.
Qed.

Lemma TickComponent_reads_wave_heights_witness :
  UpdatedPrimitive (TickComponent (Rebound (Buoy true) (FlatOcean (F32.of_int 5))))
  = UpdatedPrimitive (TickComponent (Rebound (Buoy true) Swell)).
Proof.
  apply (TickComponent_reads_wave_heights (Buoy true) (FlatOcean (F32.of_int 5)) Swell).
  intros testPoint [<-|[]]. reflexivity.
Defined.

(** X13.  The kinematic tick is idempotent over a height field: when the
    wave height at a location does not depend on the height of that
    location, a second tick of a body that does not simulate physics changes
    nothing. *)
Theorem TickComponent_kinematic_idempotent s manager :
  OceanManager (Self s) = Some manager ->
  IsSimulatingPhysics (UpdatedPrimitive s) = false ->
  (forall v v', Vec.X v = Vec.X v' -> Vec.Y v = Vec.Y v' ->
                Vec.Z (GetWaveHeightValue manager v)
                = Vec.Z (GetWaveHeightValue manager v')) ->
  TickComponent (TickComponent s) = TickComponent s.
Proof.
  intros Hm Hsim Hfield.
  assert (E : TickComponent s
              = mkState (Self s)
                  (SetWorldLocation (UpdatedPrimitive s)
                     (mkFVector (Vec.X (GetComponentLocation (UpdatedPrimitive s)))
                                (Vec.Y (GetComponentLocation (UpdatedPrimitive s)))
                                (Vec.Z (GetWaveHeightValue manager
                                          (GetComponentLocation (UpdatedPrimitive s))))))
                  (World s)).
  { unfold TickComponent. rewrite Hm, Hsim. reflexivity. }
  rewrite E. unfold TickComponent at 1. cbn [Self UpdatedPrimitive World].
  rewrite Hm. unfold SetWorldLocation at 1. cbn [IsSimulatingPhysics].
  rewrite Hsim. cbn [negb]. unfold SetWorldLocation, GetComponentLocation.
  cbn [ComponentToWorld Translation RotateScale Vec.X Vec.Y IsSimulatingPhysics Mass
       LinearDamping AngularDamping PhysicsLinearVelocity BodyInstance Forces].
  do 3 f_equal. f_equal. apply Hfield; reflexivity.
Qed.

Lemma TickComponent_kinematic_idempotent_witness :
  TickComponent (TickComponent (Buoy false)) = TickComponent (Buoy false).
Proof.
  apply (TickComponent_kinematic_idempotent (Buoy false) (FlatOcean (F32.of_int 5))
           eq_refl eq_refl).
  intros v v' _ _. reflexivity.
Defined.

Lemma PointForce_overrides c l1 l2 p g T k h w :
  nth_error l1 k = nth_error l2 k ->
  PointForce (WithPointDensityOverride c l1) p g T (Z.of_nat k) h w
  = PointForce (WithPointDensityOverride c l2) p g T (Z.of_nat k) h w.
Proof.
  intros H. unfold PointForce, BuoyancyForceZ. rewrite !PointDensity_nth_error.
  cbn [WithPointDensityOverride PointDensityOverride MeshDensity]. rewrite H.
  reflexivity.
Qed.

Lemma LoopOutputs_overrides c l1 l2 p g manager T tr n :
  firstn n l1 = firstn n l2 ->
  forall rest k,
    (k + length rest <= n)%nat ->
    LoopForces (WithPointDensityOverride c l1) p g manager T tr (Z.of_nat k) rest
    = LoopForces (WithPointDensityOverride c l2) p g manager T tr (Z.of_nat k) rest /\
    LoopCount (WithPointDensityOverride c l1) manager tr rest
    = LoopCount (WithPointDensityOverride c l2) manager tr rest /\
    LoopSpheres (WithPointDensityOverride c l1) manager tr rest
    = LoopSpheres (WithPointDensityOverride c l2) manager tr rest.
Proof.
  intros Hl. induction rest as [|pt rest IH]; intros k Hk; [repeat split|].
  cbn [length] in Hk. cbn [LoopForces LoopCount LoopSpheres].
  replace (Z.of_nat k + 1) with (Z.of_nat (S k)) by lia.
  destruct (IH (S k) ltac:(lia)) as (-> & -> & ->).
  assert (E : nth_error l1 k = nth_error l2 k).
  { pose proof (f_equal (fun l => nth_error l k) Hl) as E. cbv beta in E.
    rewrite !nth_error_firstn in E.
    destruct (Nat.ltb_spec k n) as [_|L]; [exact E|lia]. }
  rewrite (PointForce_overrides c l1 l2 p g T k _ _ E). repeat split.
Qed.

(** X14.  Density overrides are read at the indices of the test points
    only: entries of [PointDensityOverride] beyond the number of test points
    have no effect on a tick. *)
Theorem TickComponent_unused_overrides s overrides1 overrides2 :
  firstn (length (TestPoints (Self s))) overrides1
  = firstn (length (TestPoints (Self s))) overrides2 ->
  UpdatedPrimitive (TickComponent (Overridden s overrides1))
  = UpdatedPrimitive (TickComponent (Overridden s overrides2)) /\
  World (TickComponent (Overridden s overrides1))
  = World (TickComponent (Overridden s overrides2)).
Proof.
  intros Hl.
  destruct (OceanManager (Self s)) as [manager|] eqn:Hm.
  2:{ unfold TickComponent, Overridden. cbn [Self WithPointDensityOverride OceanManager].
      rewrite Hm. split; reflexivity. }
  destruct (IsSimulatingPhysics (UpdatedPrimitive s)) eqn:Hsim.
  2:{ unfold TickComponent, Overridden.
      cbn [Self UpdatedPrimitive WithPointDensityOverride OceanManager].
      rewrite Hm, Hsim. split; reflexivity. }
  destruct (TestPoints (Self s)) as [|pt rest] eqn:Hp.
  { unfold TickComponent, Overridden.
    cbn [Self UpdatedPrimitive WithPointDensityOverride OceanManager TestPoints].
    rewrite Hm, Hsim, Hp. split; reflexivity. }
  rewrite <- Hp in Hl.
  assert (Hn : 1 <= Z.of_nat (length (TestPoints (Self s))))
    by (rewrite Hp; cbn [length]; lia).
  rewrite (TickComponent_visited (Overridden s overrides1) manager Hm Hsim Hn).
  rewrite (TickComponent_visited (Overridden s overrides2) manager Hm Hsim Hn).
  cbv zeta. cbn [Overridden Self UpdatedPrimitive World].
  change (TestPoints (WithPointDensityOverride (Self s) ?o)) with (TestPoints (Self s)).
  set (T := F32.of_int (Z.of_nat (length (TestPoints (Self s))))).
  set (tr := GetComponentTransform (UpdatedPrimitive s)).
  pose proof (Visited_length T (TestPoints (Self s)) 0) as Hv.
  destruct (LoopOutputs_overrides (Self s) overrides1 overrides2 (UpdatedPrimitive s)
              (GravityZ (World s)) manager T tr _ Hl
              (Visited T 0 (TestPoints (Self s))) 0%nat ltac:(lia)) as (E1 & E2 & E3).
  change (Z.of_nat 0) with 0 in E1. rewrite E1, E2, E3.
  split; reflexivity.
Qed.

Lemma TickComponent_unused_overrides_witness :
  UpdatedPrimitive
    (TickComponent (Overridden (TwoPoints [Low; High]) [F32.of_int 300; F32.of_int 500]))
  = UpdatedPrimitive
      (TickComponent
         (Overridden (TwoPoints [Low; High])
            [F32.of_int 300; F32.of_int 500; F32.of_int 1])).
Proof.
  exact (proj1 (TickComponent_unused_overrides (TwoPoints [Low; High])
                  [F32.of_int 300; F32.of_int 500]
                  [F32.of_int 300; F32.of_int 500; F32.of_int 1]
                  eq_refl)).
Defined.

(** ** Direction of the clamped velocity *)

Lemma binary_round_aux_unsigned m e l :
  unsigned (binary_round_aux F32.prec F32.emax false m e l) = true.
Proof.
  destruct (binary_round_aux_shape false m e l) as [H|[H|[H|(m' & e' & H)]]];
    cbv zeta in H; rewrite H; reflexivity.
Qed.

Lemma binary_round_aux_keeps_sign s m e l x :
  signbit x = s ->
  keeps_sign x (binary_round_aux F32.prec F32.emax s m e l) = true.
Proof.
  intros <-.
  destruct (binary_round_aux_shape (signbit x) m e l) as [H|[H|[H|(m' & e' & H)]]];
    cbv zeta in H; rewrite H; unfold keeps_sign; cbn [F32.is_nan is_zero signbit orb];
    try reflexivity; apply eqb_reflx.
Qed.

Lemma unsigned_not_negative x : unsigned x = true -> not_negative x = true.
Proof. destruct x as [[]|[]| |[] m e]; intros H; try discriminate H; reflexivity. Qed.

Lemma mul_self_unsigned x : unsigned (F32.mul x x) = true.
Proof.
  destruct x as [[]|[]| |s m e]; try reflexivity.
  unfold F32.mul, SFmul. rewrite xorb_nilpotent. apply binary_round_aux_unsigned.
Qed.

Lemma binary_round_unsigned m e :
  unsigned (binary_round F32.prec F32.emax false m e) = true.
Proof.
  unfold binary_round.
  destruct (shl_align m e _) as [mz ez]. apply binary_round_aux_unsigned.
Qed.

Lemma add_unsigned x y :
  unsigned x = true -> unsigned y = true -> unsigned (F32.add x y) = true.
Proof.
  destruct x as [[]|[]| |[] mx ex]; intros Hx; try discriminate Hx;
    destruct y as [[]|[]| |[] my ey]; intros Hy; try discriminate Hy;
    try reflexivity.
  unfold F32.add, SFadd. cbn [cond_Zopp]. cbn [Z.add binary_normalize].
  apply binary_round_unsigned.
Qed.

Lemma SizeSquared_unsigned v : unsigned (Vec.SizeSquared v) = true.
Proof.
  unfold Vec.SizeSquared. repeat apply add_unsigned; apply mul_self_unsigned.
Qed.

Lemma sqrt_unsigned x : unsigned x = true -> unsigned (F32.sqrt x) = true.
Proof.
  destruct x as [[]|[]| |[] m e]; intros H; try discriminate H; try reflexivity.
  unfold F32.sqrt, SFsqrt.
  destruct (SFsqrt_core_binary F32.prec F32.emax (Z.pos m) e) as [[mz ez] lz].
  apply binary_round_aux_unsigned.
Qed.

Lemma InvSqrt_not_negative x :
  unsigned x = true -> not_negative (FMath.InvSqrt x) = true.
Proof.
  intros H. apply sqrt_unsigned in H. unfold FMath.InvSqrt.
  destruct (F32.sqrt x) as [[]|[]| |[] m e]; try discriminate H; try reflexivity.
  change F32.one with (S754_finite false 8388608 (-23)).
  unfold F32.div, SFdiv.
  destruct (SFdiv_core_binary F32.prec F32.emax (Z.pos 8388608) (-23) (Z.pos m) e)
    as [[mz ez] lz].
  apply binary_round_aux_not_negative.
Qed.

Lemma mul_keeps_sign x y :
  not_negative y = true -> keeps_sign x (F32.mul x y) = true.
Proof.
  intros Hy. apply not_negative_cases in Hy.
  destruct Hy as [->|[[sy ->]|[->|(my & ey & ->)]]];
    destruct x as [sx|sx| |sx mx ex]; try reflexivity;
    try (destruct sx; reflexivity).
  unfold F32.mul, SFmul. apply binary_round_aux_keeps_sign.
  cbn [signbit]. now rewrite xorb_false_r.
Qed.

Lemma keeps_sign_refl x : keeps_sign x x = true.
Proof.
  unfold keeps_sign. rewrite eqb_reflx. apply orb_true_r.
Qed.

Lemma keeps_sign_mul x x' y :
  keeps_sign x x' = true -> not_negative y = true ->
  keeps_sign x (F32.mul x' y) = true.
Proof.
  intros H Hy. pose proof (mul_keeps_sign x' y Hy) as H'.
  apply not_negative_cases in Hy.
  destruct x' as [s'|s'| |s' m' e'].
  - destruct Hy as [->|[[sy ->]|[->|(my & ey & ->)]]]; reflexivity.
  - unfold keeps_sign in *. cbn [F32.is_nan is_zero orb signbit] in H.
    destruct (F32.mul (S754_infinity s') y) as [s|s| |s m e]; try reflexivity;
      cbn [F32.is_nan is_zero orb signbit] in *.
    + apply eqb_prop in H, H'. subst. apply eqb_reflx.
    + apply eqb_prop in H, H'. subst. apply eqb_reflx.
  - reflexivity.
  - unfold keeps_sign in *. cbn [F32.is_nan is_zero orb signbit] in H.
    destruct (F32.mul (S754_finite s' m' e') y) as [s|s| |s m e]; try reflexivity;
      cbn [F32.is_nan is_zero orb signbit] in *.
    + apply eqb_prop in H, H'. subst. apply eqb_reflx.
    + apply eqb_prop in H, H'. subst. apply eqb_reflx.
Qed.

Lemma GetSafeNormal_keeps_sign v :
  keeps_sign (Vec.X v) (Vec.X (Vec.GetSafeNormal v)) = true /\
  keeps_sign (Vec.Y v) (Vec.Y (Vec.GetSafeNormal v)) = true /\
  keeps_sign (Vec.Z v) (Vec.Z (Vec.GetSafeNormal v)) = true.
Proof.
  unfold Vec.GetSafeNormal.
  destruct (F32.eqb (Vec.SizeSquared v) F32.one);
    [repeat split; apply keeps_sign_refl|].
  destruct (F32.ltb (Vec.SizeSquared v) FMath.SMALL_NUMBER);
    [repeat split; reflexivity|].
  cbn [Vec.scale Vec.X Vec.Y Vec.Z].
  pose proof (InvSqrt_not_negative _ (SizeSquared_unsigned v)) as Hk.
  repeat split; apply mul_keeps_sign; exact Hk.
Qed.

(** X15.  With a limit that is not negative a tick never reverses the
    velocity: each component of the linear velocity after the tick is the
    component before it, or NaN, or a zero, or has the same sign. *)
Theorem TickComponent_keeps_direction s :
  F32.leb F32.zero (MaxUnderwaterVelocity (Self s)) = true ->
  let v := PhysicsLinearVelocity (UpdatedPrimitive s) in
  let v' := PhysicsLinearVelocity (UpdatedPrimitive (TickComponent s)) in
  keeps_sign (Vec.X v) (Vec.X v') = true /\
  keeps_sign (Vec.Y v) (Vec.Y v') = true /\
  keeps_sign (Vec.Z v) (Vec.Z v') = true.
Proof.
  intros Hlimit. cbv zeta. apply leb_zero_not_negative in Hlimit.
  destruct (TickComponent_cases s)
    as [->|[(manager & _ & _ & ->)|(manager & Hm & Hsim & Hn)]];
    try (repeat split; apply keeps_sign_refl).
  rewrite (TickComponent_visited s manager Hm Hsim Hn). cbv zeta.
  cbn [UpdatedPrimitive]. unfold UpdateDamping, SetAngularDamping, SetLinearDamping.
  cbn [PhysicsLinearVelocity]. unfold ClampVelocity.
  destruct (_ && _); [|repeat split; apply keeps_sign_refl].
  cbn [SetPhysicsLinearVelocity PhysicsLinearVelocity WithForces Vec.scale
       Vec.X Vec.Y Vec.Z].
  destruct (GetSafeNormal_keeps_sign (PhysicsLinearVelocity (UpdatedPrimitive s)))
    as (HX & HY & HZ).
  repeat split; apply keeps_sign_mul; assumption.
Qed.

Lemma TickComponent_keeps_direction_witness :
  let v' := PhysicsLinearVelocity (UpdatedPrimitive (TickComponent Veering)) in
  keeps_sign (F32.neg (F32.of_int 2000)) (Vec.X v') = true /\
  keeps_sign (F32.of_int 3000) (Vec.Y v') = true /\
  keeps_sign F32.zero (Vec.Z v') = true.
Proof.
  exact (TickComponent_keeps_direction Veering eq_refl).
Defined.

Lemma mul_flips_sign x y :
  F32.ltb y F32.zero = true -> keeps_sign (F32.neg x) (F32.mul x y) = true.
Proof.
  intros Hy. destruct y as [sy|[]| |[] my ey]; try discriminate Hy;
    destruct x as [sx|sx| |sx mx ex]; try reflexivity;
    try (destruct sx; reflexivity).
  unfold F32.mul, SFmul. apply binary_round_aux_keeps_sign.
  cbn [F32.neg SFopp signbit]. destruct sx; reflexivity.
Qed.

Lemma signbit_neg x : F32.is_nan x = false -> signbit (F32.neg x) = negb (signbit x).
Proof. destruct x; try discriminate; reflexivity. Qed.

Lemma keeps_sign_mul_neg x x' y :
  F32.is_nan x = false ->
  keeps_sign x x' = true -> F32.ltb y F32.zero = true ->
  keeps_sign (F32.neg x) (F32.mul x' y) = true.
Proof.
  intros Nx H Hy. pose proof (mul_flips_sign x' y Hy) as H'.
  unfold keeps_sign in *. rewrite (signbit_neg x Nx).
  destruct (F32.is_nan x') eqn:Nx'.
  { destruct x'; try discriminate Nx'. reflexivity. }
  destruct (is_zero x') eqn:Zx'.
  { destruct x' as [s'| | |]; try discriminate Zx'.
    destruct y as [sy|[]| |[] my ey]; try discriminate Hy; reflexivity. }
  cbn [orb] in H. apply eqb_prop in H. rewrite <- H.
  rewrite (signbit_neg x' Nx') in H'. exact H'.
Qed.

Lemma add_not_nan x y :
  F32.is_nan (F32.add x y) = false -> F32.is_nan x = false /\ F32.is_nan y = false.
Proof. destruct x, y; intros H; try discriminate H; split; reflexivity. Qed.

Lemma mul_not_nan x y :
  F32.is_nan (F32.mul x y) = false -> F32.is_nan x = false /\ F32.is_nan y = false.
Proof. destruct x, y; intros H; try discriminate H; split; reflexivity. Qed.

Lemma sqrt_not_nan x : F32.is_nan (F32.sqrt x) = false -> F32.is_nan x = false.
Proof. destruct x; intros H; try discriminate H; reflexivity. Qed.

Lemma Size_not_nan v :
  F32.is_nan (Vec.Size v) = false ->
  F32.is_nan (Vec.X v) = false /\ F32.is_nan (Vec.Y v) = false /\
  F32.is_nan (Vec.Z v) = false.
Proof.
  unfold Vec.Size, Vec.SizeSquared. intros H.
  apply sqrt_not_nan, add_not_nan in H. destruct H as [H HZ].
  apply add_not_nan in H. destruct H as [HX HY].
  apply mul_not_nan in HX, HY, HZ. tauto.
Qed.

(** X16.  A negative [MaxUnderwaterVelocity] makes the clamp fire whatever
    the speed: in a tick with a provider, a simulating body, at most
    [2 ^ 24] test points of which one is under water, the clamp enabled and
    a speed that is not NaN, the velocity is replaced by its safe normal
    times the negative limit, and each component of the new velocity is NaN,
    a zero, or opposite in sign to the component before the tick. *)
Theorem TickComponent_negative_limit s manager testPoint :
  OceanManager (Self s) = Some manager ->
  IsSimulatingPhysics (UpdatedPrimitive s) = true ->
  Z.of_nat (length (TestPoints (Self s))) <= 2 ^ 24 ->
  ClampMaxVelocity (Self s) = true ->
  In testPoint (TestPoints (Self s)) ->
  (let worldTestPoint :=
     TransformPosition (GetComponentTransform (UpdatedPrimitive s)) testPoint in
   IsUnderwater (Self s) (Vec.Z (GetWaveHeightValue manager worldTestPoint))
                worldTestPoint = true) ->
  F32.ltb (MaxUnderwaterVelocity (Self s)) F32.zero = true ->
  F32.is_nan (Vec.Size (PhysicsLinearVelocity (UpdatedPrimitive s))) = false ->
  let v := PhysicsLinearVelocity (UpdatedPrimitive s) in
  let v' := PhysicsLinearVelocity (UpdatedPrimitive (TickComponent s)) in
  v' = Vec.scale (Vec.GetSafeNormal v) (MaxUnderwaterVelocity (Self s)) /\
  keeps_sign (F32.neg (Vec.X v)) (Vec.X v') = true /\
  keeps_sign (F32.neg (Vec.Y v)) (Vec.Y v') = true /\
  keeps_sign (F32.neg (Vec.Z v)) (Vec.Z v') = true.
Proof.
  intros Hm Hsim Hn Hc Hin Hu Hneg Hnan. cbv zeta in Hu. cbv zeta.
  assert (E : PhysicsLinearVelocity (UpdatedPrimitive (TickComponent s))
              = Vec.scale (Vec.GetSafeNormal
                             (PhysicsLinearVelocity (UpdatedPrimitive s)))
                          (MaxUnderwaterVelocity (Self s))).
  2:{ rewrite E. split; [reflexivity|].
      destruct (GetSafeNormal_keeps_sign (PhysicsLinearVelocity (UpdatedPrimitive s)))
        as (HX & HY & HZ).
      destruct (Size_not_nan _ Hnan) as (NX & NY & NZ).
      cbn [Vec.scale Vec.X Vec.Y Vec.Z].
      repeat split; apply keeps_sign_mul_neg; assumption. }
  assert (Hlen : 1 <= Z.of_nat (length (TestPoints (Self s))) <= 2 ^ 24).
  { split; [|exact Hn]. destruct (TestPoints (Self s)); [destruct Hin|].
    cbn [length]. lia. }
  rewrite (TickComponent_simulating s manager Hm Hsim Hlen). cbv zeta.
  cbn [UpdatedPrimitive]. unfold UpdateDamping, SetAngularDamping, SetLinearDamping.
  cbn [PhysicsLinearVelocity]. unfold ClampVelocity.
  cbn [PhysicsLinearVelocity WithForces]. rewrite Hc.
  assert (Hcount : 0 < LoopCount (Self s) manager
                         (GetComponentTransform (UpdatedPrimitive s))
                         (TestPoints (Self s))).
  { revert Hin. generalize (TestPoints (Self s)) as rest.
    induction rest as [|pt rest IH]; intros Hin; [destruct Hin|].
    cbn [LoopCount].
    pose proof (LoopCount_bounds (Self s) manager
                  (GetComponentTransform (UpdatedPrimitive s)) rest) as Hb.
    destruct Hin as [->|Hin].
    - unfold Submerged, WaveHeight, WorldPoint. rewrite Hu. lia.
    - specialize (IH Hin). destruct (Submerged _ _ _ pt); lia. }
  destruct (Z.ltb_spec 0 (LoopCount (Self s) manager
                            (GetComponentTransform (UpdatedPrimitive s))
                            (TestPoints (Self s)))) as [_|L]; [|lia].
  assert (Hfire : F32.gtb (Vec.Size (PhysicsLinearVelocity (UpdatedPrimitive s)))
                          (MaxUnderwaterVelocity (Self s)) = true).
  { pose proof (sqrt_unsigned _ (SizeSquared_unsigned
                                   (PhysicsLinearVelocity (UpdatedPrimitive s)))) as Hs.
    fold (Vec.Size (PhysicsLinearVelocity (UpdatedPrimitive s))) in Hs.
    destruct (Vec.Size (PhysicsLinearVelocity (UpdatedPrimitive s)))
      as [[]|[]| |[] m e]; try discriminate;
      destruct (MaxUnderwaterVelocity (Self s)) as [[]|[]| |[] ml el];
      try discriminate; reflexivity. }
  rewrite Hfire. reflexivity.
Qed.

Lemma TickComponent_negative_limit_witness :
  PhysicsLinearVelocity (UpdatedPrimitive (TickComponent Backwards))
  = mkFVector (F32.neg (F32.of_int 1000)) (F32.neg F32.zero) (F32.neg F32.zero).
Proof.
  exact (proj1 (TickComponent_negative_limit Backwards (FlatOcean (F32.of_int 5))
                  Vec.ZeroVector eq_refl eq_refl ltac:(vm_compute; discriminate)
                  eq_refl (or_introl eq_refl) eq_refl eq_refl eq_refl)).
Defined.

(** ** Damping grows with the number of points under water *)

Lemma add_mono a h1 h2 :
  F32.valid a = true -> F32.is_finite a = true ->
  F32.valid h1 = true -> F32.valid h2 = true ->
  SFleb h1 h2 = true -> SFleb (F32.add a h1) (F32.add a h2) = true.
Proof.
  intros Va Fa V1 V2 H. pose proof H as H'. apply SFleb_spec in H'.
  destruct H' as (N1 & N2 & L).
  assert (Hi : forall s, F32.add a (S754_infinity s) = S754_infinity s)
    by (intros s; destruct a as [| | |]; try discriminate; reflexivity).
  destruct (valid_not_nan_cases h2 N2) as [F2|[->| ->]].
  - destruct (valid_not_nan_cases h1 N1) as [F1|[->| ->]].
    + apply (Rep_mono (ival a + ival h1) 1 (ival a + ival h2) 1 (-149)); try lia;
        try (apply add_Rep; assumption).
      apply (SFleb_ival h1 h2) in H; try assumption. lia.
    + apply SFleb_inf_inv in H. subst h2. discriminate.
    + rewrite Hi. apply SFleb_minf. eapply Rep_not_nan, add_Rep; assumption.
  - rewrite Hi. apply SFleb_inf.
    destruct (valid_not_nan_cases h1 N1) as [F1|[->| ->]]; rewrite ?Hi;
      try reflexivity.
    eapply Rep_not_nan, add_Rep; assumption.
  - apply SFleb_minf_inv in H. subst h1. rewrite Hi. reflexivity.
Qed.

Lemma not_negative_ival x : not_negative x = true -> 0 <= ival x.
Proof.
  destruct x as [[]|[]| |[] m e]; intros H; try discriminate H; cbn [ival]; try lia.
Qed.

Lemma fluid_term_mono fluid n k1 k2 :
  F32.valid fluid = true -> F32.is_finite fluid = true ->
  F32.leb F32.zero fluid = true ->
  1 <= n -> 0 <= k1 <= k2 -> k2 <= 2 ^ 24 ->
  let q := F32.div fluid (F32.of_int n) in
  F32.valid (F32.mul q (F32.of_int k1)) = true /\
  F32.valid (F32.mul q (F32.of_int k2)) = true /\
  SFleb (F32.mul q (F32.of_int k1)) (F32.mul q (F32.of_int k2)) = true.
Proof.
  intros Vf Ff Pf Hn Hk Hk2 q.
  destruct (of_int_exact k1 ltac:(lia)) as (Vk1 & Fk1 & Ik1).
  destruct (of_int_exact k2 ltac:(lia)) as (Vk2 & Fk2 & Ik2).
  assert (Hq : F32.valid q = true /\ F32.is_finite q = true /\ 0 <= ival q).
  { subst q. destruct (of_int_positive n Hn) as [->|(m & e & -> & V & I)].
    - destruct fluid as [[]|[]| |[] mf ef]; try discriminate; repeat split;
        try reflexivity; cbn; lia.
    - split; [eapply Rep_valid, div_Rep; assumption|].
      split; [apply div_ge_one_finite; assumption|].
      apply not_negative_ival, div_not_negative;
        [apply leb_zero_not_negative; exact Pf|reflexivity]. }
  destruct Hq as (Vq & Fq & Iq).
  split; [apply mul_valid; assumption|]. split; [apply mul_valid; assumption|].
  apply (Rep_mono (ival q * ival (F32.of_int k1)) 1
                  (ival q * ival (F32.of_int k2)) 1 (-298)); try lia;
    try (apply mul_Rep; assumption).
  rewrite Ik1, Ik2. assert (0 < 2 ^ 149) by (apply Z.pow_pos_nonneg; lia). nia.
Qed.

(** X17.  The damping a tick sets never falls when more test points are
    under water, and is never below the base damping: for a finite base, a
    finite fluid damping that is not negative and counts up to [2 ^ 24],
    [base + Fluid / TotalPoints * PointsUnderWater] is monotone in
    [PointsUnderWater], rounding included. *)
Theorem FluidDamping_monotone base fluid n count1 count2 :
  F32.valid base = true -> F32.is_finite base = true ->
  F32.valid fluid = true -> F32.is_finite fluid = true ->
  F32.leb F32.zero fluid = true ->
  1 <= n -> 0 <= count1 <= count2 -> count2 <= 2 ^ 24 ->
  let TotalPoints := F32.of_int n in
  F32.leb base (FluidDamping base fluid TotalPoints count1) = true /\
  F32.leb (FluidDamping base fluid TotalPoints count1)
          (FluidDamping base fluid TotalPoints count2) = true.
Proof.
  intros Vb Fb Vf Ff Pf Hn Hk Hk2. cbv zeta.
  assert (Hmono : forall k1 k2, 0 <= k1 <= k2 -> k2 <= 2 ^ 24 ->
            F32.leb (FluidDamping base fluid (F32.of_int n) k1)
                    (FluidDamping base fluid (F32.of_int n) k2) = true).
  { intros k1 k2 H1 H2. unfold FluidDamping.
    destruct (fluid_term_mono fluid n k1 k2 Vf Ff Pf Hn H1 H2) as (V1 & V2 & L).
    apply add_mono; assumption. }
  split; [|apply Hmono; assumption].
  apply (SFleb_trans _ (FluidDamping base fluid (F32.of_int n) 0));
    [|apply Hmono; lia].
  assert (Nb : F32.is_nan base = false)
    by (destruct base; try discriminate; reflexivity).
  pose proof (FluidDamping_zero base fluid n Hn Vf Ff Nb) as E.
  apply SFeqb_spec in E. destruct E as (N0 & _ & K).
  apply SFleb_spec. repeat split; try assumption.
  rewrite K. apply lex_le_refl.
Qed.

Lemma FluidDamping_monotone_witness :
  F32.leb (FluidDamping F32.zero F32.one (F32.of_int 41) 40)
          (FluidDamping F32.zero F32.one (F32.of_int 41) 41) = true.
Proof.
  exact (proj2 (FluidDamping_monotone F32.zero F32.one 41 40 41
                  eq_refl eq_refl eq_refl eq_refl eq_refl
                  ltac:(lia) ltac:(lia) ltac:(vm_compute; discriminate))).
Defined.

(** ** Compositions *)

(** X18.  The base dampings cached by [InitializeComponent] are the ones a
    tick restores: after initialisation, a tick of a simulating body with no
    test point under water sets linear and angular damping to values equal
    to those the body had when the component was initialised (for finite
    fluid dampings). *)
Theorem InitializeComponent_then_dry_tick s0 manager :
  let s := InitializeComponent s0 in
  let p0 := UpdatedPrimitive s0 in
  OceanManager (Self s) = Some manager ->
  IsSimulatingPhysics p0 = true ->
  1 <= Z.of_nat (length (TestPoints (Self s0))) ->
  (forall testPoint,
      In testPoint (TestPoints (Self s0)) ->
      let worldTestPoint := TransformPosition (GetComponentTransform p0) testPoint in
      IsUnderwater (Self s) (Vec.Z (GetWaveHeightValue manager worldTestPoint))
                   worldTestPoint = false) ->
  F32.valid (FluidLinearDamping (Self s0)) = true ->
  F32.is_finite (FluidLinearDamping (Self s0)) = true ->
  F32.valid (FluidAngularDamping (Self s0)) = true ->
  F32.is_finite (FluidAngularDamping (Self s0)) = true ->
  F32.is_nan (LinearDamping p0) = false ->
  F32.is_nan (AngularDamping p0) = false ->
  F32.eqb (LinearDamping (UpdatedPrimitive (TickComponent s))) (LinearDamping p0)
  = true /\
  F32.eqb (AngularDamping (UpdatedPrimitive (TickComponent s))) (AngularDamping p0)
  = true.
Proof.
  intros s p0 Hm Hsim Hn Hdry Vl Fl Va Fa Nl Na.
  rewrite (TickComponent_visited s manager Hm Hsim Hn). cbv zeta.
  cbn [UpdatedPrimitive]. unfold UpdateDamping, SetAngularDamping, SetLinearDamping.
  cbn [LinearDamping AngularDamping].
  rewrite LoopCount_none.
  2:{ intros pt Hpt. apply Hdry. eapply Visited_incl. exact Hpt. }
  split; apply FluidDamping_zero; assumption.
Qed.

Lemma InitializeComponent_then_dry_tick_witness :
  F32.eqb (LinearDamping (UpdatedPrimitive (TickComponent (InitializeComponent Damped))))
          (F32.of_int 3) = true.
Proof.
  apply (InitializeComponent_then_dry_tick Damped (FlatOcean (F32.of_int 5))
           eq_refl eq_refl ltac:(vm_compute; discriminate)).
  - intros testPoint [<-|[]]. reflexivity.
  - reflexivity.
  - reflexivity.
  - reflexivity.
  - reflexivity.
  - reflexivity.
  - reflexivity.
Defined.

(** X19.  Out of the water and without debug drawing a tick is idempotent:
    when no test point is under water, a second tick leaves the state the
    first one produced. *)
Theorem TickComponent_dry_idempotent s manager :
  OceanManager (Self s) = Some manager ->
  DrawDebugPoints (Self s) = false ->
  (forall testPoint,
      In testPoint (TestPoints (Self s)) ->
      let worldTestPoint :=
        TransformPosition (GetComponentTransform (UpdatedPrimitive s)) testPoint in
      IsUnderwater (Self s) (Vec.Z (GetWaveHeightValue manager worldTestPoint))
                   worldTestPoint = false) ->
  IsSimulatingPhysics (UpdatedPrimitive s) = true ->
  TickComponent (TickComponent s) = TickComponent s.
Proof.
  intros Hm Hd Hdry Hsim.
  destruct (TestPoints (Self s)) as [|pt rest] eqn:Hp.
  { assert (E : TickComponent s = s)
      by (unfold TickComponent; rewrite Hm, Hsim, Hp; reflexivity).
    rewrite !E. reflexivity. }
  rewrite <- Hp in Hdry.
  assert (Hn : 1 <= Z.of_nat (length (TestPoints (Self s))))
    by (rewrite Hp; cbn [length]; lia).
  assert (E : TickComponent s
              = mkState (Self s)
                  (UpdateDamping (Self s)
                     (F32.of_int (Z.of_nat (length (TestPoints (Self s))))) 0
                     (UpdatedPrimitive s))
                  (World s)).
  { rewrite (TickComponent_visited s manager Hm Hsim Hn). cbv zeta.
    rewrite LoopCount_none
      by (intros q Hq; apply Hdry; eapply Visited_incl; exact Hq).
    rewrite LoopSpheres_map, Hd, WithSpheres_nil.
    unfold ClampVelocity. cbn [Z.ltb Z.compare]. rewrite andb_false_r. cbn [andb].
    rewrite LoopForces_none
      by (intros q Hq; apply Hdry; eapply Visited_incl; exact Hq).
    rewrite WithForces_nil. reflexivity. }
  rewrite E at 1.
  assert (Hm' : OceanManager (Self (TickComponent s)) = Some manager)
    by (rewrite E; exact Hm).
  assert (Hsim' : IsSimulatingPhysics (UpdatedPrimitive (TickComponent s)) = true)
    by (rewrite E; exact Hsim).
  assert (Hn' : 1 <= Z.of_nat (length (TestPoints (Self (TickComponent s)))))
    by (rewrite E; exact Hn).
  rewrite E in Hm', Hsim', Hn'.
  match goal with
  | |- TickComponent ?s1 = _ => set (s' := s1) in *
  end.
  assert (Hdry' : forall q,
             In q (Visited (F32.of_int (Z.of_nat (length (TestPoints (Self s')))))
                           0 (TestPoints (Self s'))) ->
             Submerged (Self s') manager (GetComponentTransform (UpdatedPrimitive s')) q
             = false).
  { intros q Hq. apply Visited_incl in Hq. apply (Hdry q Hq). }
  rewrite (TickComponent_visited s' manager Hm' Hsim' Hn'). cbv zeta.
  rewrite (LoopCount_none _ _ _ _ Hdry').
  rewrite LoopSpheres_map.
  change (DrawDebugPoints (Self s')) with (DrawDebugPoints (Self s)). rewrite Hd.
  rewrite WithSpheres_nil.
  unfold ClampVelocity. cbn [Z.ltb Z.compare]. rewrite andb_false_r. cbn [andb].
  rewrite E. subst s'. cbn [Self UpdatedPrimitive World].
  f_equal.
  rewrite (LoopForces_none (Self s) _ _ manager _ _ _ Hdry').
  rewrite WithForces_nil. reflexivity.
Qed.

Lemma TickComponent_dry_idempotent_witness :
  TickComponent (TickComponent HighAndDry) = TickComponent HighAndDry.
Proof.
  apply (TickComponent_dry_idempotent HighAndDry (FlatOcean (F32.of_int 5))
           eq_refl eq_refl); [|reflexivity].
  intros testPoint [<-|[]]. reflexivity.
Defined.

Lemma LoopOutputs_WithDrawDebugPoints c draw p g manager T tr :
  forall rest i,
    LoopForces (WithDrawDebugPoints c draw) p g manager T tr i rest
    = LoopForces c p g manager T tr i rest /\
    LoopCount (WithDrawDebugPoints c draw) manager tr rest
    = LoopCount c manager tr rest.
Proof.
  induction rest as [|pt rest IH]; intros i; [repeat split|].
  cbn [LoopForces LoopCount].
  destruct (IH (i + 1)) as (-> & ->). repeat split.
Qed.

(** X20.  Debug drawing is passive: switching [DrawDebugPoints] on or off
    changes nothing in what a tick does to the body (forces, velocity,
    dampings, location). *)
Theorem TickComponent_drawing_is_passive s draw :
  UpdatedPrimitive (TickComponent (Drawing s draw))
  = UpdatedPrimitive (TickComponent s).
Proof.
  destruct (OceanManager (Self s)) as [manager|] eqn:Hm.
  2:{ unfold TickComponent, Drawing. cbn [Self WithDrawDebugPoints OceanManager].
      rewrite Hm. reflexivity. }
  destruct (IsSimulatingPhysics (UpdatedPrimitive s)) eqn:Hsim.
  2:{ unfold TickComponent, Drawing.
      cbn [Self UpdatedPrimitive WithDrawDebugPoints OceanManager].
      rewrite Hm, Hsim. reflexivity. }
  destruct (TestPoints (Self s)) as [|pt rest] eqn:Hp.
  { unfold TickComponent, Drawing.
    cbn [Self UpdatedPrimitive WithDrawDebugPoints OceanManager TestPoints].
    rewrite Hm, Hsim, Hp. reflexivity. }
  assert (Hn : 1 <= Z.of_nat (length (TestPoints (Self s))))
    by (rewrite Hp; cbn [length]; lia).
  rewrite (TickComponent_visited (Drawing s draw) manager Hm Hsim Hn).
  rewrite (TickComponent_visited s manager Hm Hsim Hn).
  cbv zeta. cbn [Drawing Self UpdatedPrimitive World].
  change (TestPoints (WithDrawDebugPoints (Self s) draw)) with (TestPoints (Self s)).
  destruct (LoopOutputs_WithDrawDebugPoints (Self s) draw (UpdatedPrimitive s)
              (GravityZ (World s)) manager
              (F32.of_int (Z.of_nat (length (TestPoints (Self s)))))
              (GetComponentTransform (UpdatedPrimitive s))
              (Visited (F32.of_int (Z.of_nat (length (TestPoints (Self s))))) 0
                       (TestPoints (Self s))) 0) as (-> & ->).
  reflexivity.
Qed.

(** ** Direction of the damping force *)

(** X21.  The damping force opposes the motion: for a velocity damper and a
    mass that are not negative, each component of the damping force of a
    test point is NaN, a zero, or has the sign opposite to that of the
    velocity of the body at the point. *)
Theorem DampingForce_opposes_velocity c p waveHeight worldTestPoint :
  F32.leb F32.zero (Vec.X (VelocityDamper c)) = true ->
  F32.leb F32.zero (Vec.Y (VelocityDamper c)) = true ->
  F32.leb F32.zero (Vec.Z (VelocityDamper c)) = true ->
  F32.leb F32.zero (Mass p) = true ->
  let velocity := GetVelocityAtPoint p worldTestPoint in
  let depth := DepthMultiplier c waveHeight worldTestPoint in
  let force := DampingForce c p worldTestPoint depth in
  keeps_sign (F32.neg (Vec.X velocity)) (Vec.X force) = true /\
  keeps_sign (F32.neg (Vec.Y velocity)) (Vec.Y force) = true /\
  keeps_sign (F32.neg (Vec.Z velocity)) (Vec.Z force) = true.
Proof.
  intros HX HY HZ Hmass. cbv zeta.
  apply leb_zero_not_negative in HX, HY, HZ, Hmass.
  assert (Hd : not_negative (DepthMultiplier c waveHeight worldTestPoint) = true)
    by (apply leb_zero_not_negative, Clamp_bounds).
  unfold DampingForce. cbn [Vec.scale Vec.mulv Vec.neg Vec.X Vec.Y Vec.Z].
  repeat split; repeat apply keeps_sign_mul; try assumption; apply keeps_sign_refl.
Qed.

Lemma DampingForce_opposes_velocity_witness :
  let force :=
    DampingForce (Self Sinking) (UpdatedPrimitive Sinking) Vec.ZeroVector
      (DepthMultiplier (Self Sinking) (F32.of_int 5) Vec.ZeroVector) in
  keeps_sign (F32.of_int 3) (Vec.Z force) = true /\
  signbit (Vec.Z force) = false /\ is_zero (Vec.Z force) = false.
Proof.
  split; [|split; reflexivity].
  exact (proj2 (proj2 (DampingForce_opposes_velocity (Self Sinking)
                         (UpdatedPrimitive Sinking) (F32.of_int 5) Vec.ZeroVector
                         eq_refl eq_refl eq_refl eq_refl))).
Defined.

(** * The velocity clamp over the reals

    [GetSafeNormal(velocity) * MaxUnderwaterVelocity] is nine rounded
    operations per component: three squares and two sums for the squared
    length, a square root, a reciprocal and two products.  Each is within
    [u32] of the exact result, relatively, and [eta32] absolutely; the
    lemmas below carry the bound through the expression. *)

(** ** Error of one rounding *)

Lemma round_nearest_even_error n W m :
  0 < W -> m * W <= n < (m + 1) * W ->
  2 * Z.abs (round_nearest_even m (loc_of (n - m * W) W) * W - n) <= W.
Proof.
  intros HW [Hlo Hhi]. unfold loc_of.
  destruct (Z.eqb_spec (n - m * W) 0) as [E|E]; cbn [round_nearest_even]; [lia|].
  destruct (Z.compare_spec (2 * (n - m * W)) W) as [C|C|C];
    [destruct (Z.even m)| |]; lia.
Qed.

Lemma ival_fin r E :
  0 <= r <= 2 ^ 24 -> -149 <= E ->
  F32.is_finite (fin false r E) = true ->
  ival (fin false r E) = r * 2 ^ (E + 149).
Proof.
  intros Hr HE. unfold fin.
  destruct (Z.eqb_spec r 0) as [->|R0]; [reflexivity|].
  destruct (Z.ltb_spec r (2 ^ 24)) as [L|L].
  - destruct (E <=? 104); [|discriminate]. intros _. cbn [ival].
    rewrite Z2Pos.id by lia. lia.
  - destruct (E + 1 <=? 104); [|discriminate]. intros _. cbn [ival].
    replace r with (2 ^ 24) by lia.
    replace (E + 1 + 149) with (E + 149 + 1) by lia.
    rewrite Z.pow_add_r by lia. lia.
Qed.

Lemma rounding_error_arith n m m' W D Q :
  0 <= n -> 0 < W -> 0 < D -> 0 < Q -> Q * D = W ->
  m * W <= n -> m <= m' <= m + 1 ->
  2 * Z.abs (m' * W - n) <= W ->
  (Q = 1 \/ 2 ^ 23 <= m) ->
  2 ^ 24 * Z.abs (m' * Q * D - n) <= n + 2 ^ 23 * D.
Proof.
  intros Hn HW HD HQ EW Hlo Hr Herr Hc.
  replace (m' * Q * D) with (m' * W) by (rewrite <- EW; lia).
  destruct Hc as [->|Hm].
  - rewrite Z.mul_1_l in EW. subst W. lia.
  - assert (2 ^ 23 * W <= n) by nia. lia.
Qed.

Lemma pow2_pos k : 0 <= k -> 0 < 2 ^ k.
Proof. intros H. apply Z.pow_pos_nonneg; lia. Qed.

(** The error of a rounding, in units of [2 ^ -149] scaled by the
    denominator. *)
Lemma RoundsTo_error n d b f :
  0 <= n -> b <= -149 -> RoundsTo n d b f -> F32.is_finite f = true ->
  2 ^ 24 * Z.abs (ival f * (d * 2 ^ (-149 - b)) - n)
  <= n + 2 ^ 23 * (d * 2 ^ (-149 - b)).
Proof.
  intros Hn Hb (mrs & E & [[Hbe Hd Hlo Hhi Hloc] Hmin Hhi24 Hlo23] & ->) Ff.
  assert (P1 : 0 < 2 ^ (E - b)) by (apply pow2_pos; lia).
  assert (P2 : 0 < 2 ^ (-149 - b)) by (apply pow2_pos; lia).
  assert (P3 : 0 < 2 ^ (E + 149)) by (apply pow2_pos; lia).
  rewrite finish_fin in *. rewrite Hloc in *.
  assert (HW : 0 < 2 ^ (E - b) * d) by (apply Z.mul_pos_pos; assumption).
  assert (HD : 0 < d * 2 ^ (-149 - b)) by (apply Z.mul_pos_pos; assumption).
  assert (EW : 2 ^ (E + 149) * (d * 2 ^ (-149 - b)) = 2 ^ (E - b) * d).
  { replace (E - b) with (E + 149 + (-149 - b)) by lia.
    rewrite (Z.pow_add_r 2 (E + 149) (-149 - b)) by lia. ring. }
  pose proof (round_nearest_even_error n _ _ HW (conj Hlo Hhi)) as Herr.
  pose proof (round_nearest_even_range (shr_m mrs)
                (loc_of (n - shr_m mrs * (2 ^ (E - b) * d)) (2 ^ (E - b) * d))) as Hr.
  assert (Hm0 : 0 <= shr_m mrs).
  { destruct (Z.lt_ge_cases (shr_m mrs) 0) as [L|L]; [exfalso|exact L].
    assert ((shr_m mrs + 1) * (2 ^ (E - b) * d) <= 0)
      by (apply Z.mul_nonpos_nonneg; lia).
    lia. }
  rewrite ival_fin by (try assumption; lia).
  apply (rounding_error_arith n (shr_m mrs) _ (2 ^ (E - b) * d)); try assumption.
  destruct (Z.eq_dec E (-149)) as [->|HE]; [left; reflexivity|right].
  destruct (Z.lt_ge_cases (shr_m mrs) (2 ^ 23)) as [L|L]; [|exact L].
  elim HE. apply Hlo23. exact L.
Qed.

Lemma Rep_error N d b f :
  b <= -149 -> 0 < d -> Rep N d b f -> F32.is_finite f = true ->
  2 ^ 24 * Z.abs (ival f * (d * 2 ^ (-149 - b)) - N)
  <= Z.abs N + 2 ^ 23 * (d * 2 ^ (-149 - b)).
Proof.
  intros Hb Hd [[-> [s ->]]|[[P R]|[M (g & R & ->)]]] Ff.
  - cbn [ival]. assert (0 < d * 2 ^ (-149 - b))
      by (apply Z.mul_pos_pos; [lia|apply Z.pow_pos_nonneg; lia]). lia.
  - pose proof (RoundsTo_error N d b f ltac:(lia) Hb R Ff). lia.
  - rewrite is_finite_opp in Ff.
    pose proof (RoundsTo_error (- N) d b g ltac:(lia) Hb R Ff).
    rewrite ival_opp. lia.
Qed.

Lemma error_real (I Nr Dr Pr T24 T23 : R) :
  (0 < Dr -> 0 < Pr -> 0 < T23 -> T24 = 2 * T23 ->
   T24 * Rabs (I * Dr - Nr) <= Rabs Nr + T23 * Dr ->
   Rabs (I / Pr - Nr / (Dr * Pr)) <= / T24 * Rabs (Nr / (Dr * Pr)) + / (2 * Pr))%R.
Proof.
  intros HD HP HT E H.
  assert (HDP : (0 < Dr * Pr)%R) by (apply Rmult_lt_0_compat; assumption).
  replace (I / Pr - Nr / (Dr * Pr))%R with ((I * Dr - Nr) * / (Dr * Pr))%R
    by (field; split; lra).
  unfold Rdiv. rewrite !Rabs_mult.
  rewrite (Rabs_pos_eq (/ (Dr * Pr))) by (left; apply Rinv_0_lt_compat; exact HDP).
  set (A := Rabs (I * Dr - Nr)) in *. set (B := Rabs Nr) in *.
  assert (HA : (0 <= A)%R) by apply Rabs_pos.
  assert (HB : (0 <= B)%R) by apply Rabs_pos.
  clearbody A B.
  apply Rmult_le_reg_r with (T24 * (Dr * Pr))%R; [nra|].
  replace (A * / (Dr * Pr) * (T24 * (Dr * Pr)))%R with (T24 * A)%R
    by (field; split; lra).
  replace ((/ T24 * (B * / (Dr * Pr)) + / (2 * Pr)) * (T24 * (Dr * Pr)))%R
    with (B + T23 * Dr)%R by (subst T24; field; repeat split; lra).
  exact H.
Qed.

Lemma IZR_pow2_pos k : 0 <= k -> (0 < IZR (2 ^ k))%R.
Proof. intros H. apply IZR_lt. apply Z.pow_pos_nonneg; lia. Qed.

Lemma Rep_error_R N d b f :
  b <= -149 -> 0 < d -> Rep N d b f -> F32.is_finite f = true ->
  let x := (IZR N / (IZR d * IZR (2 ^ (- b))))%R in
  (Rabs (val f - x) <= u32 * Rabs x + eta32)%R.
Proof.
  intros Hb Hd HR Ff x. subst x. unfold val, u32, eta32.
  pose proof (Rep_error N d b f Hb Hd HR Ff) as H.
  apply IZR_le in H. rewrite plus_IZR, !mult_IZR, !abs_IZR, minus_IZR, !mult_IZR in H.
  assert (E1 : (IZR d * IZR (2 ^ (- b)) = IZR d * IZR (2 ^ (-149 - b)) * IZR (2 ^ 149))%R).
  { rewrite Rmult_assoc, <- (mult_IZR (2 ^ (-149 - b))).
    rewrite <- Z.pow_add_r by lia. do 2 f_equal. f_equal. lia. }
  rewrite E1.
  replace (IZR (2 ^ 150)) with (2 * IZR (2 ^ 149))%R
    by (rewrite <- mult_IZR; f_equal).
  apply error_real with (T23 := IZR (2 ^ 23)).
  - apply Rmult_lt_0_compat; [apply IZR_lt; exact Hd|apply IZR_pow2_pos; lia].
  - apply IZR_pow2_pos; lia.
  - apply IZR_pow2_pos; lia.
  - rewrite <- mult_IZR. f_equal.
  - exact H.
Qed.

Lemma Rabs_le_elim (a b : R) : (Rabs a <= b -> - b <= a <= b)%R.
Proof. unfold Rabs. destruct (Rcase_abs a); lra. Qed.

(** ** Error of one operation *)

Lemma Rep_finite N d b f :
  b <= -149 -> 0 < d -> Rep N d b f ->
  Z.abs N <= 2 ^ 276 * (d * 2 ^ (-149 - b)) ->
  F32.is_finite f = true.
Proof.
  intros Hb Hd HR Hn.
  assert (P : 0 < 2 ^ (-149 - b)) by (apply pow2_pos; lia).
  pose proof (Rep_rebase _ _ _ _ (-149 - b) ltac:(lia)
                (valid_Rep Huge eq_refl eq_refl)) as RM.
  pose proof (Rep_rebase _ _ _ _ (-149 - b) ltac:(lia)
                (valid_Rep (SFopp Huge) eq_refl eq_refl)) as RM'.
  replace (-149 - (-149 - b)) with b in RM, RM' by lia.
  change (ival Huge) with (2 ^ 276) in RM.
  change (ival (SFopp Huge)) with (- 2 ^ 276) in RM'.
  apply Z.abs_le in Hn.
  assert (L1 : SFleb f Huge = true).
  { apply (Rep_mono _ _ _ _ _ _ _ Hd Z.lt_0_1 HR RM).
    replace (2 ^ 276 * 2 ^ (-149 - b) * d) with (2 ^ 276 * (d * 2 ^ (-149 - b))) by ring.
    lia. }
  assert (L2 : SFleb (SFopp Huge) f = true).
  { apply (Rep_mono _ _ _ _ _ _ _ Z.lt_0_1 Hd RM' HR).
    replace (- 2 ^ 276 * 2 ^ (-149 - b) * d) with (- (2 ^ 276 * (d * 2 ^ (-149 - b)))) by ring.
    lia. }
  destruct f as [s|[]| |s m e]; try reflexivity; discriminate.
Qed.

Lemma Rep_finite_R N d b f :
  b <= -149 -> 0 < d -> Rep N d b f ->
  (Rabs (IZR N / (IZR d * IZR (2 ^ (- b)))) <= IZR (2 ^ 127))%R ->
  F32.is_finite f = true.
Proof.
  intros Hb Hd HR Hx. apply (Rep_finite N d b f Hb Hd HR).
  assert (P1 : (0 < IZR d)%R) by (apply IZR_lt; exact Hd).
  assert (P2 : (0 < IZR (2 ^ (- b)))%R) by (apply IZR_pow2_pos; lia).
  assert (P3 : (0 < IZR d * IZR (2 ^ (- b)))%R) by (apply Rmult_lt_0_compat; assumption).
  unfold Rdiv in Hx. rewrite Rabs_mult in Hx.
  rewrite (Rabs_pos_eq (/ _)) in Hx by (left; apply Rinv_0_lt_compat; exact P3).
  apply (Rmult_le_compat_r (IZR d * IZR (2 ^ (- b)))) in Hx; [|lra].
  rewrite Rmult_assoc, Rinv_l, Rmult_1_r in Hx by lra.
  rewrite <- abs_IZR, <- !mult_IZR in Hx. apply le_IZR in Hx.
  replace (2 ^ 276 * (d * 2 ^ (-149 - b))) with (2 ^ 127 * (d * 2 ^ (- b))); [exact Hx|].
  replace (- b) with (149 + (-149 - b)) by lia.
  rewrite Z.pow_add_r by lia. change (2 ^ 276) with (2 ^ 127 * 2 ^ 149). ring.
Qed.

Lemma val_mul_IZR a b :
  (IZR (a * b) / (IZR 1 * IZR (2 ^ (- (-298)))) = IZR a / IZR (2 ^ 149) * (IZR b / IZR (2 ^ 149)))%R.
Proof.
  change (- (-298)) with 298. change (2 ^ 298) with (2 ^ 149 * 2 ^ 149).
  rewrite !mult_IZR. pose proof (IZR_pow2_pos 149 ltac:(lia)). field. lra.
Qed.

(** Multiplication: finite when the product is of moderate size, and then
    close to the product. *)
Lemma mul_error x y :
  F32.valid x = true -> F32.valid y = true ->
  F32.is_finite x = true -> F32.is_finite y = true ->
  (Rabs (val x * val y) <= IZR (2 ^ 127))%R ->
  F32.is_finite (F32.mul x y) = true /\
  F32.valid (F32.mul x y) = true /\
  (Rabs (val (F32.mul x y) - val x * val y)
   <= u32 * Rabs (val x * val y) + eta32)%R.
Proof.
  intros Vx Vy Fx Fy Hb. pose proof (mul_Rep x y Vx Vy Fx Fy) as HR.
  unfold val in *. rewrite <- val_mul_IZR in *.
  assert (B : -298 <= -149) by lia.
  assert (Ff : F32.is_finite (F32.mul x y) = true)
    by (apply (Rep_finite_R _ _ _ _ B Z.lt_0_1 HR); exact Hb).
  split; [exact Ff|]. split; [apply mul_valid; assumption|].
  apply (Rep_error_R _ _ _ _ B Z.lt_0_1 HR Ff).
Qed.

Lemma val_add_IZR a b :
  (IZR (a + b) / (IZR 1 * IZR (2 ^ (- (-149)))) = IZR a / IZR (2 ^ 149) + IZR b / IZR (2 ^ 149))%R.
Proof.
  change (- (-149)) with 149. rewrite plus_IZR.
  pose proof (IZR_pow2_pos 149 ltac:(lia)). field. lra.
Qed.

Lemma add_error x y :
  F32.valid x = true -> F32.valid y = true ->
  F32.is_finite x = true -> F32.is_finite y = true ->
  F32.is_finite (F32.add x y) = true ->
  (Rabs (val (F32.add x y) - (val x + val y))
   <= u32 * Rabs (val x + val y) + eta32)%R.
Proof.
  intros Vx Vy Fx Fy Ff. pose proof (add_Rep x y Vx Vy Fx Fy) as HR.
  unfold val. rewrite <- val_add_IZR.
  apply (Rep_error_R _ _ _ _ (Z.le_refl _) Z.lt_0_1 HR Ff).
Qed.

Lemma val_finite_pos m e :
  F32.valid (S754_finite false m e) = true ->
  val (S754_finite false m e) = (IZR (Zpos m) * IZR (2 ^ (e + 149)) / IZR (2 ^ 149))%R.
Proof. intros V. unfold val. cbn [ival]. rewrite Z.mul_1_l, mult_IZR. reflexivity. Qed.

Lemma val_div_IZR ix my ey :
  -149 <= ey <= 104 ->
  (IZR (ix * 2 ^ (104 - ey)) / (IZR (Zpos my) * IZR (2 ^ (- (-253))))
   = IZR ix / IZR (2 ^ 149) / (IZR (Zpos my) * IZR (2 ^ (ey + 149)) / IZR (2 ^ 149)))%R.
Proof.
  intros He. change (- (-253)) with 253.
  replace 253 with (104 - ey + (ey + 149)) at 1 by lia.
  rewrite Z.pow_add_r by lia. rewrite !mult_IZR.
  pose proof (IZR_pow2_pos 149 ltac:(lia)).
  pose proof (IZR_pow2_pos (104 - ey) ltac:(lia)).
  pose proof (IZR_pow2_pos (ey + 149) ltac:(lia)).
  assert (0 < IZR (Zpos my))%R by (apply IZR_lt; lia).
  field. repeat split; lra.
Qed.

Lemma div_error x my ey :
  F32.valid x = true -> F32.valid (S754_finite false my ey) = true ->
  F32.is_finite x = true ->
  (Rabs (val x / val (S754_finite false my ey)) <= IZR (2 ^ 127))%R ->
  let q := F32.div x (S754_finite false my ey) in
  F32.is_finite q = true /\ F32.valid q = true /\
  (Rabs (val q - val x / val (S754_finite false my ey))
   <= u32 * Rabs (val x / val (S754_finite false my ey)) + eta32)%R.
Proof.
  intros Vx Vy Fx Hb q. subst q.
  pose proof (div_Rep x my ey Vx Vy Fx) as HR.
  destruct (valid_finite_bounds _ _ _ Vy) as (He & _).
  rewrite (val_finite_pos my ey Vy) in *. unfold val in *.
  rewrite <- (val_div_IZR (ival x) my ey He) in *.
  assert (B : -253 <= -149) by lia.
  assert (Ff : F32.is_finite (F32.div x (S754_finite false my ey)) = true)
    by (apply (Rep_finite_R _ _ _ _ B (Pos2Z.is_pos my) HR); exact Hb).
  split; [exact Ff|]. split; [eapply Rep_valid; exact HR|].
  apply (Rep_error_R _ _ _ _ B (Pos2Z.is_pos my) HR Ff).
Qed.

(** ** Square root *)

Lemma sqrt_core_spec m e :
  F32.valid (S754_finite false m e) = true ->
  exists q e' l j,
    SFsqrt_core_binary F32.prec F32.emax (Zpos m) e = (q, e', l) /\
    -149 <= e' /\ 2 * e' <= e /\ 2 * e' <= 104 /\
    q * q <= Zpos m * 2 ^ (e - 2 * e') < (q + 1) * (q + 1) /\
    0 <= j < 4 /\ 1 <= q /\
    Bracket (4 * q + j) 4 e' q e' l /\
    (-100 <= e -> 2 ^ 23 <= q).
Proof.
  intros V. destruct (valid_finite_bounds _ _ _ V) as (He & Hm & Hsub).
  unfold SFsqrt_core_binary, fexp, emin, F32.prec, F32.emax.
  cbn [Zdigits2].
  pose proof (digits2_pos_bounds m) as Hd.
  set (d := Zpos (digits2_pos m)) in *.
  assert (Hd24 : d <= 24).
  { destruct (Z_le_gt_dec d 24) as [H|H]; [exact H|].
    assert (2 ^ 24 <= 2 ^ (d - 1)) by (apply Z.pow_le_mono_r; lia). lia. }
  rewrite !Z.div2_div.
  set (e' := Z.min (Z.max ((d + e + 1) / 2 - 24) (3 - 128 - 24)) (e / 2)).
  pose proof (Z.div_mod e 2 ltac:(lia)) as De.
  pose proof (Z.mod_pos_bound e 2 ltac:(lia)) as Me.
  pose proof (Z.div_mod (d + e + 1) 2 ltac:(lia)) as Dh.
  pose proof (Z.mod_pos_bound (d + e + 1) 2 ltac:(lia)) as Mh.
  assert (E1 : -149 <= e') by (unfold e'; lia).
  assert (E2 : 2 * e' <= e) by (unfold e'; lia).
  assert (E3 : e' <= -149 \/ 2 * e' <= d + e + 1 - 48) by (unfold e'; lia).
  assert (E4 : -100 <= e -> 2 ^ 23 <= Zpos m -> -149 < e').
  { intros H1 H2.
    assert (24 <= d).
    { destruct (Z_le_gt_dec 24 d) as [H|H]; [exact H|].
      assert (2 ^ d <= 2 ^ 23) by (apply Z.pow_le_mono_r; lia). lia. }
    unfold e'; lia. }
  clearbody e'.
  set (s := e - 2 * e').
  assert (Hs : 0 <= s) by (unfold s; lia).
  set (m' := match s with Z0 => Zpos m | Zpos _ => Z.shiftl (Zpos m) s | Zneg _ => 0 end).
  assert (Hm' : m' = Zpos m * 2 ^ s).
  { unfold m'. destruct s as [|p|p] eqn:S; [cbn; lia| |lia].
    rewrite Z.shiftl_mul_pow2 by lia. reflexivity. }
  clearbody m'.
  assert (Ps : 0 < 2 ^ s) by (apply Z.pow_pos_nonneg; lia).
  assert (Pm' : 1 <= m') by nia.
  pose proof (Z.sqrtrem_spec m' ltac:(lia)) as Hq.
  destruct (Z.sqrtrem m') as [q r]. destruct Hq as (Hq1 & Hq2).
  assert (Q1 : 1 <= q) by nia.
  exists q, e', (if r =? 0 then loc_Exact
                 else loc_Inexact (if r <=? q then Lt else Gt)), (sqrt_pick r q).
  split; [reflexivity|].
  split; [exact E1|]. split; [exact E2|]. split; [lia|].
  split; [fold s; rewrite <- Hm'; nia|].
  split; [unfold sqrt_pick; destruct (r =? 0); [lia|destruct (r <=? q); lia]|].
  split; [exact Q1|].
  split.
  - constructor; rewrite ?Z.sub_diag; cbn [Z.pow Z.pow_pos Pos.iter]; unfold sqrt_pick;
      try lia.
    + destruct (r =? 0); [lia|destruct (r <=? q); lia].
    + destruct (r =? 0); [lia|destruct (r <=? q); lia].
    + unfold loc_of. destruct (r =? 0) eqn:R0.
      * replace (4 * q + 0 - q * (1 * 4)) with 0 by lia. reflexivity.
      * destruct (r <=? q).
        -- replace (4 * q + 1 - q * (1 * 4)) with 1 by lia. reflexivity.
        -- replace (4 * q + 3 - q * (1 * 4)) with 3 by lia. reflexivity.
  - intros H100.
    assert (M23 : 2 ^ 23 <= Zpos m).
    { destruct (Z_le_gt_dec (2 ^ 23) (Zpos m)) as [H|H]; [exact H|].
      specialize (Hsub ltac:(lia)). lia. }
    specialize (E4 H100 M23).
    assert (S47 : 47 - d <= s) by (unfold s; lia).
    assert (B46 : 2 ^ 46 <= m').
    { rewrite Hm'.
      assert (2 ^ (47 - d) <= 2 ^ s) by (apply Z.pow_le_mono_r; lia).
      assert (2 ^ (d - 1) * 2 ^ (47 - d) = 2 ^ 46).
      { rewrite <- Z.pow_add_r by lia. f_equal. lia. }
      assert (0 < 2 ^ (47 - d)) by (apply Z.pow_pos_nonneg; lia).
      nia. }
    destruct (Z_le_gt_dec (2 ^ 23) q) as [H|H]; [exact H|].
    change (2 ^ 46) with (2 ^ 23 * 2 ^ 23) in B46.
    assert (q + 1 <= 2 ^ 23) by lia. nia.
Qed.

Lemma sqrt_Rep m e :
  F32.valid (S754_finite false m e) = true -> -100 <= e ->
  exists q e' j,
    -149 <= e' /\ 2 * e' <= e /\ 2 * e' <= 104 /\
    q * q <= Zpos m * 2 ^ (e - 2 * e') < (q + 1) * (q + 1) /\
    0 <= j < 4 /\ 2 ^ 23 <= q /\
    Rep ((4 * q + j) * 2 ^ (e' + 149)) 4 (-149) (F32.sqrt (S754_finite false m e)).
Proof.
  intros V H100.
  destruct (sqrt_core_spec m e V) as (q & e' & l & j & Hc & E1 & E2 & E3 & Hq & Hj & Q1 & HB & HF).
  specialize (HF H100).
  exists q, e', j. repeat (split; [assumption|]).
  unfold F32.sqrt, SFsqrt. rewrite Hc.
  assert (R : RoundsTo (4 * q + j) 4 e' (binary_round_aux F32.prec F32.emax false q e' l)).
  { apply binary_round_aux_rounds; [lia|exact HB|].
    right. replace (e' - e' + 23) with 23 by lia. lia. }
  apply (RoundsTo_rebase _ _ _ _ (e' + 149) ltac:(lia)) in R.
  replace (e' - (e' + 149)) with (-149) in R by lia.
  right; left. split; [|exact R].
  assert (0 < 2 ^ (e' + 149)) by (apply Z.pow_pos_nonneg; lia). nia.
Qed.

Lemma sqrt_squeeze (q m : Z) :
  0 <= q -> q * q <= m < (q + 1) * (q + 1) ->
  (IZR q <= sqrt (IZR m) < IZR q + 1)%R.
Proof.
  intros Hq [H1 H2].
  assert (Q0 : (0 <= IZR q)%R) by (apply IZR_le; exact Hq).
  split.
  - rewrite <- (sqrt_square (IZR q)) at 1 by exact Q0.
    apply sqrt_le_1_alt. rewrite <- mult_IZR. apply IZR_le. exact H1.
  - replace (IZR q + 1)%R with (sqrt ((IZR q + 1) * (IZR q + 1)))
      by (apply sqrt_square; lra).
    apply sqrt_lt_1_alt. split.
    + apply IZR_le. nia.
    + replace (IZR q + 1)%R with (IZR (q + 1)) by (rewrite plus_IZR; reflexivity).
      rewrite <- mult_IZR. apply IZR_lt. exact H2.
Qed.

Lemma sqrt_error_real (vr A B C W : R) :
  (Rabs (vr - (B + C)) <= u32 * Rabs (B + C) + eta32 ->
   B <= A < B + W -> IZR (2 ^ 23) * W <= B -> 0 <= C < W ->
   eta32 <= u32 * A ->
   Rabs (vr - A) <= 5 * u32 * A)%R.
Proof.
  unfold u32, eta32.
  change (2 ^ 24) with 16777216. change (2 ^ 23) with 8388608.
  intros H1 H2 H3 H4 H5.
  assert (P : (0 <= B + C)%R) by lra.
  rewrite (Rabs_pos_eq _ P) in H1.
  apply Rabs_le_elim in H1. apply Rabs_le. lra.
Qed.

(** The square root of a float that is not tiny: finite, and within five
    units of rounding of the real square root. *)
Lemma sqrt_error m e :
  F32.valid (S754_finite false m e) = true -> -100 <= e ->
  let S := S754_finite false m e in
  F32.is_finite (F32.sqrt S) = true /\ F32.valid (F32.sqrt S) = true /\
  (Rabs (val (F32.sqrt S) - sqrt (val S)) <= 5 * u32 * sqrt (val S))%R.
Proof.
  intros V H100 S.
  destruct (sqrt_Rep m e V H100) as (q & e' & j & E1 & E2 & E3 & Hq & Hj & Q23 & HR).
  fold S in HR.
  destruct (valid_finite_bounds _ _ _ V) as (He & Hm & _).
  set (m' := Zpos m * 2 ^ (e - 2 * e')) in *.
  assert (P1 : 0 < 2 ^ (e' + 149)) by (apply Z.pow_pos_nonneg; lia).
  assert (P2 : 0 < 2 ^ (e - 2 * e')) by (apply Z.pow_pos_nonneg; lia).
  (* finiteness *)
  assert (Qhi : q < 2 ^ (64 - e')).
  { assert (m' < 2 ^ 24 * 2 ^ (e - 2 * e')) by (unfold m'; nia).
    assert (2 ^ 24 * 2 ^ (e - 2 * e') <= 2 ^ (64 - e') * 2 ^ (64 - e')).
    { rewrite <- !Z.pow_add_r by lia. apply Z.pow_le_mono_r; lia. }
    assert (0 < 2 ^ (64 - e')) by (apply Z.pow_pos_nonneg; lia).
    nia. }
  assert (Ff : F32.is_finite (F32.sqrt S) = true).
  { assert (D4 : 0 < 4) by lia.
    apply (Rep_finite _ _ _ _ (Z.le_refl _) D4 HR).
    replace (-149 - -149) with 0 by lia. rewrite Z.pow_0_r.
    assert ((q + 1) * 2 ^ (e' + 149) <= 2 ^ 213).
    { replace 213 with ((64 - e') + (e' + 149)) by lia.
      rewrite (Z.pow_add_r 2 (64 - e') (e' + 149)) by lia. nia. }
    rewrite Z.abs_eq by nia.
    change (2 ^ 276) with (2 ^ 213 * 2 ^ 63). nia. }
  split; [exact Ff|]. split; [eapply Rep_valid; exact HR|].
  assert (D4 : 0 < 4) by lia.
  pose proof (Rep_error_R _ _ _ _ (Z.le_refl _) D4 HR Ff) as HE.
  cbv zeta in HE.
  set (w := (IZR (2 ^ (e' + 149)) / IZR (2 ^ 149))%R).
  pose proof (IZR_pow2_pos 149 ltac:(lia)) as T149.
  pose proof (IZR_pow2_pos (e' + 149) ltac:(lia)) as Tw.
  assert (W0 : (0 < w)%R) by (apply Rdiv_lt_0_compat; assumption).
  assert (VS : val S = (IZR m' * (w * w))%R).
  { unfold val, S, w, m'. cbn [ival]. rewrite Z.mul_1_l.
    assert (I : 2 ^ (e + 149) * 2 ^ 149
                = 2 ^ (e - 2 * e') * (2 ^ (e' + 149) * 2 ^ (e' + 149))).
    { rewrite <- !Z.pow_add_r by lia. f_equal. lia. }
    apply (f_equal IZR) in I. rewrite !mult_IZR in I. rewrite !mult_IZR.
    apply (Rmult_eq_reg_r (IZR (2 ^ 149) * IZR (2 ^ 149))); [|nra].
    field_simplify; [|lra|lra]. rewrite Rmult_assoc, I. field. }
  assert (SQ : sqrt (val S) = (sqrt (IZR m') * w)%R).
  { rewrite VS, sqrt_mult_alt by (apply IZR_le; nia).
    rewrite sqrt_square by lra. reflexivity. }
  pose proof (sqrt_squeeze q m' ltac:(lia) Hq) as [S1 S2].
  assert (XE : (IZR ((4 * q + j) * 2 ^ (e' + 149)) / (IZR 4 * IZR (2 ^ (- -149)))
                = IZR q * w + IZR j / 4 * w)%R).
  { change (- -149) with 149. unfold w. rewrite mult_IZR, plus_IZR, mult_IZR. field. lra. }
  rewrite XE in HE. rewrite SQ.
  assert (J : (0 <= IZR j < 4)%R) by (split; [apply IZR_le|apply IZR_lt]; lia).
  assert (Q23' : (IZR (2 ^ 23) <= IZR q)%R) by (apply IZR_le; exact Q23).
  assert (T23 : (0 < IZR (2 ^ 23))%R) by (apply IZR_pow2_pos; lia).
  apply (sqrt_error_real _ _ (IZR q * w) (IZR j / 4 * w) w HE).
  - split; [apply Rmult_le_compat_r; lra|].
    replace (IZR q * w + w)%R with ((IZR q + 1) * w)%R by ring.
    apply Rmult_lt_compat_r; lra.
  - apply Rmult_le_compat_r; lra.
  - split; [apply Rmult_le_pos; lra|].
    rewrite <- (Rmult_1_l w) at 2. apply Rmult_lt_compat_r; lra.
  - (* eta32 <= u32 * (sqrt m' * w) *)
    assert (Wlo : (/ IZR (2 ^ 149) <= w)%R).
    { unfold w, Rdiv. rewrite <- (Rmult_1_l (/ IZR (2 ^ 149))) at 1.
      apply Rmult_le_compat_r; [left; apply Rinv_0_lt_compat; exact T149|].
      apply IZR_le. lia. }
    assert (A1 : (IZR (2 ^ 23) * / IZR (2 ^ 149) <= sqrt (IZR m') * w)%R).
    { pose proof (Rinv_0_lt_compat _ T149). apply Rmult_le_compat; lra. }
    unfold u32, eta32 in *.
    assert (K : (/ IZR (2 ^ 150) <= / IZR (2 ^ 24) * (IZR (2 ^ 23) * / IZR (2 ^ 149)))%R).
    { change (2 ^ 150) with (2 ^ 149 * 2). rewrite mult_IZR.
      change (2 ^ 24) with 16777216. change (2 ^ 23) with 8388608.
      rewrite Rinv_mult. lra. }
    eapply Rle_trans; [exact K|].
    apply Rmult_le_compat_l; [|exact A1].
    left. apply Rinv_0_lt_compat. apply IZR_pow2_pos. lia.
Qed.

Open Scope R_scope.

(** ** Real arithmetic of the clamp *)

Lemma Rabs_mult_le (a b x y : R) :
  Rabs a <= x -> Rabs b <= y -> Rabs (a * b) <= x * y.
Proof.
  intros Ha Hb. rewrite Rabs_mult.
  apply Rmult_le_compat; try apply Rabs_pos; assumption.
Qed.

(** Three rounded squares, summed with two rounded additions. *)
Lemma sum_sq_error_real (A1 A2 A3 s1 s2 s3 t S : R) :
  0 <= A1 -> 0 <= A2 -> 0 <= A3 ->
  Rabs (s1 - A1) <= u32 * Rabs A1 + eta32 ->
  Rabs (s2 - A2) <= u32 * Rabs A2 + eta32 ->
  Rabs (s3 - A3) <= u32 * Rabs A3 + eta32 ->
  Rabs (t - (s1 + s2)) <= u32 * Rabs (s1 + s2) + eta32 ->
  Rabs (S - (t + s3)) <= u32 * Rabs (t + s3) + eta32 ->
  Rabs (S - (A1 + A2 + A3)) <= 4 * u32 * (A1 + A2 + A3) + 6 * eta32.
Proof.
  intros P1 P2 P3 H1 H2 H3 Ht HS.
  rewrite (Rabs_pos_eq A1) in H1 by assumption.
  rewrite (Rabs_pos_eq A2) in H2 by assumption.
  rewrite (Rabs_pos_eq A3) in H3 by assumption.
  apply Rabs_le_elim in H1, H2, H3.
  consts.
  assert (B12 : Rabs (s1 + s2) <= (1 + / 16777216) * (A1 + A2) + 2 * / 1427247692705959881058285969449495136382746624)
    by (apply Rabs_le; lra).
  apply Rabs_le_elim in Ht.
  assert (Bt : Rabs (t + s3) <= (1 + 3 * / 16777216) * (A1 + A2 + A3) + 5 * / 1427247692705959881058285969449495136382746624)
    by (apply Rabs_le; lra).
  apply Rabs_le_elim in HS. apply Rabs_le. lra.
Qed.

Lemma sqrt_close (P S eps : R) :
  0 < P -> 0 <= S -> 0 <= eps <= 1 -> Rabs (S - P) <= eps * P ->
  Rabs (sqrt S - sqrt P) <= eps * sqrt P.
Proof.
  intros HP HS He H. apply Rabs_le_elim in H.
  assert (N0 : 0 < sqrt P) by (apply sqrt_lt_R0; exact HP).
  assert (NN : sqrt P * sqrt P = P) by (apply sqrt_sqrt; lra).
  apply Rabs_le. split.
  - assert (L : (1 - eps) * sqrt P <= sqrt S).
    { rewrite <- (sqrt_square ((1 - eps) * sqrt P)) by (apply Rmult_le_pos; lra).
      apply sqrt_le_1_alt.
      replace ((1 - eps) * sqrt P * ((1 - eps) * sqrt P))
        with ((1 - eps) * (1 - eps) * P) by (rewrite <- NN at 1; ring).
      assert ((1 - eps) * (1 - eps) <= 1 - eps) by nra.
      assert ((1 - eps) * (1 - eps) * P <= (1 - eps) * P)
        by (apply Rmult_le_compat_r; lra).
      lra. }
    lra.
  - assert (U : sqrt S <= (1 + eps) * sqrt P).
    { rewrite <- (sqrt_square ((1 + eps) * sqrt P)) by (apply Rmult_le_pos; lra).
      apply sqrt_le_1_alt.
      replace ((1 + eps) * sqrt P * ((1 + eps) * sqrt P))
        with ((1 + eps) * (1 + eps) * P) by (rewrite <- NN at 1; ring).
      assert (1 + eps <= (1 + eps) * (1 + eps)) by nra.
      assert ((1 + eps) * P <= (1 + eps) * (1 + eps) * P)
        by (apply Rmult_le_compat_r; lra).
      lra. }
    lra.
Qed.

(** The reciprocal of a number close to [N], rounded. *)
Lemma inv_close (N r k : R) :
  0 < N -> Rabs (r - N) <= 11 * u32 * N ->
  Rabs (k - 1 / r) <= 2 * u32 * (1 / r) ->
  Rabs (k * N - 1) <= 15 * u32.
Proof.
  intros HN Hr Hk. apply Rabs_le_elim in Hr.
  consts.
  assert (R0 : 0 < r) by nra.
  set (x := N / r).
  assert (X0 : 0 < x) by (apply Rdiv_lt_0_compat; assumption).
  assert (XR : x * r = N) by (unfold x; field; lra).
  assert (X1 : x * (r - (1 - 11 * / 16777216) * N) >= 0) by nra.
  assert (X2 : x * ((1 + 11 * / 16777216) * N - r) >= 0) by nra.
  assert (Xhi : x <= 1 + 12 * / 16777216) by nra.
  assert (Xlo : 1 - 11 * / 16777216 <= x) by nra.
  assert (E : k * N - x = (k - 1 / r) * N) by (unfold x; field; lra).
  assert (B : Rabs ((k - 1 / r) * N) <= 2 * / 16777216 * x).
  { rewrite Rabs_mult, (Rabs_pos_eq N) by lra.
    replace (2 * / 16777216 * x) with (2 * / 16777216 * (1 / r) * N)
      by (unfold x; field; lra).
    apply Rmult_le_compat_r; lra. }
  rewrite <- E in B. apply Rabs_le_elim in B. apply Rabs_le. lra.
Qed.

(** A component scaled by the rounded reciprocal, rounded. *)
Lemma normal_real (a N k g : R) :
  0 < N -> Rabs a <= N -> Rabs (k * N - 1) <= 15 * u32 ->
  Rabs (g - a * k) <= u32 * Rabs (a * k) + eta32 ->
  Rabs (g - a / N) <= 17 * u32.
Proof.
  intros HN Ha Hk Hg.
  assert (A1 : Rabs (a / N) <= 1).
  { unfold Rdiv. rewrite Rabs_mult, (Rabs_pos_eq (/ N))
      by (left; apply Rinv_0_lt_compat; exact HN).
    apply (Rmult_le_reg_r N); [exact HN|].
    rewrite Rmult_assoc, Rinv_l by lra. lra. }
  pose proof (Rabs_mult_le _ _ _ _ A1 Hk) as M.
  replace (a / N * (k * N - 1)) with (a * k - a / N) in M by (field; lra).
  consts. apply Rabs_le_elim in M.
  assert (B : Rabs (a * k) <= 1 + 15 * / 16777216).
  { apply Rabs_le_elim in A1. apply Rabs_le. lra. }
  apply Rabs_le_elim in Hg. apply Rabs_le. lra.
Qed.

(** The unit component times the limit, rounded. *)
Lemma final_real (alpha g L v' : R) :
  Rabs alpha <= 1 -> Rabs (g - alpha) <= 17 * u32 -> 0 < L ->
  eta32 <= u32 * L ->
  Rabs (v' - g * L) <= u32 * Rabs (g * L) + eta32 ->
  Rabs (v' - alpha * L) <= 20 * u32 * L.
Proof.
  intros Ha Hg HL He Hv.
  assert (G1 : Rabs ((g - alpha) * L) <= 17 * u32 * L).
  { rewrite Rabs_mult, (Rabs_pos_eq L) by lra. apply Rmult_le_compat_r; lra. }
  replace ((g - alpha) * L) with (g * L - alpha * L) in G1 by ring.
  assert (A1 : Rabs (alpha * L) <= L).
  { rewrite Rabs_mult, (Rabs_pos_eq L) by lra.
    rewrite <- (Rmult_1_l L) at 2. apply Rmult_le_compat_r; lra. }
  consts. apply Rabs_le_elim in G1, A1.
  assert (G2 : Rabs (g * L) <= (1 + 17 * / 16777216) * L) by (apply Rabs_le; lra).
  apply Rabs_le_elim in Hv. apply Rabs_le. lra.
Qed.

Lemma sq_bound (e eps : R) : Rabs e <= eps -> 0 <= e * e <= eps * eps.
Proof.
  intros H. apply Rabs_le_elim in H. split; nra.
Qed.

(** Three components close to a unit vector: the length is close to one. *)
Lemma unit_length_real (a1 a2 a3 b1 b2 b3 eps : R) :
  a1 * a1 + a2 * a2 + a3 * a3 = 1 ->
  0 <= eps <= / 8 ->
  Rabs (b1 - a1) <= eps -> Rabs (b2 - a2) <= eps -> Rabs (b3 - a3) <= eps ->
  Rabs (sqrt (b1 * b1 + b2 * b2 + b3 * b3) - 1) <= 7 * eps.
Proof.
  intros HU He H1 H2 H3.
  assert (U1 : Rabs a1 <= 1) by (apply Rabs_le; nra).
  assert (U2 : Rabs a2 <= 1) by (apply Rabs_le; nra).
  assert (U3 : Rabs a3 <= 1) by (apply Rabs_le; nra).
  pose proof (Rabs_mult_le _ _ _ _ U1 H1) as M1.
  pose proof (Rabs_mult_le _ _ _ _ U2 H2) as M2.
  pose proof (Rabs_mult_le _ _ _ _ U3 H3) as M3.
  pose proof (sq_bound _ _ H1) as S1.
  pose proof (sq_bound _ _ H2) as S2.
  pose proof (sq_bound _ _ H3) as S3.
  apply Rabs_le_elim in M1, M2, M3.
  set (Q := b1 * b1 + b2 * b2 + b3 * b3).
  assert (EQ : Q = 1 + 2 * (a1 * (b1 - a1) + a2 * (b2 - a2) + a3 * (b3 - a3))
                   + ((b1 - a1) * (b1 - a1) + (b2 - a2) * (b2 - a2)
                      + (b3 - a3) * (b3 - a3)))
    by (unfold Q; rewrite <- HU; ring).
  assert (EE : eps * eps <= / 8 * eps) by nra.
  assert (Qlo : 1 - 6 * eps <= Q) by lra.
  assert (Qhi : Q <= 1 + 7 * eps) by lra.
  apply Rabs_le. split.
  - assert (L : 1 - 7 * eps <= sqrt Q).
    { rewrite <- (sqrt_square (1 - 7 * eps)) by lra.
      apply sqrt_le_1_alt. nra. }
    lra.
  - assert (U : sqrt Q <= 1 + 7 * eps).
    { rewrite <- (sqrt_square (1 + 7 * eps)) by lra.
      apply sqrt_le_1_alt. nra. }
    lra.
Qed.

(** ** Squared length *)

Lemma add_finite_inv x y :
  F32.is_finite (F32.add x y) = true ->
  F32.is_finite x = true /\ F32.is_finite y = true.
Proof.
  destruct x as [sx|sx| |sx mx ex], y as [sy|sy| |sy my ey]; intros H;
    try (split; reflexivity); try discriminate H;
    try (destruct sx, sy; discriminate H).
Qed.

Lemma mul_finite_inv x y :
  F32.is_finite (F32.mul x y) = true ->
  F32.is_finite x = true /\ F32.is_finite y = true.
Proof.
  destruct x as [sx|sx| |sx mx ex], y as [sy|sy| |sy my ey]; intros H;
    try (split; reflexivity); try discriminate H.
Qed.

Lemma mul_error_fin x y :
  F32.valid x = true -> F32.valid y = true ->
  F32.is_finite x = true -> F32.is_finite y = true ->
  F32.is_finite (F32.mul x y) = true ->
  Rabs (val (F32.mul x y) - val x * val y)
  <= u32 * Rabs (val x * val y) + eta32.
Proof.
  intros Vx Vy Fx Fy Ff. pose proof (mul_Rep x y Vx Vy Fx Fy) as HR.
  unfold val in *. rewrite <- val_mul_IZR in *.
  assert (B : (-298 <= -149)%Z) by lia.
  apply (Rep_error_R _ _ _ _ B Z.lt_0_1 HR Ff).
Qed.

Lemma val_pos_shape f :
  0 < val f -> exists m e, f = S754_finite false m e.
Proof.
  unfold val. pose proof (IZR_pow2_pos 149 ltac:(lia)) as T.
  destruct f as [s|s| |[] m e]; cbn [ival]; intros H;
    try (unfold Rdiv in H; rewrite Rmult_0_l in H; lra).
  - exfalso.
    assert (0 < 2 ^ (e + 149) \/ 2 ^ (e + 149) = 0)%Z as [P|P].
    { pose proof (Z.pow_nonneg 2 (e + 149) ltac:(lia)). lia. }
    + assert (IZR (-1 * (Z.pos m * 2 ^ (e + 149))) < 0) by (apply IZR_lt; nia).
      assert (IZR (-1 * (Z.pos m * 2 ^ (e + 149))) / IZR (2 ^ 149) < 0).
      { unfold Rdiv. apply Rmult_lt_reg_r with (IZR (2 ^ 149)); [exact T|].
        rewrite Rmult_assoc, Rinv_l by lra. lra. }
      lra.
    + rewrite P in H. replace (-1 * (Z.pos m * 0))%Z with 0%Z in H by lia.
      unfold Rdiv in H. rewrite Rmult_0_l in H. lra.
  - eauto.
Qed.

Lemma val_le x y : (ival x <= ival y)%Z -> val x <= val y.
Proof.
  intros H. unfold val. pose proof (IZR_pow2_pos 149 ltac:(lia)) as T.
  apply Rmult_le_compat_r; [left; apply Rinv_0_lt_compat; exact T|].
  apply IZR_le. exact H.
Qed.

Lemma val_upper f : F32.valid f = true -> val f <= IZR (2 ^ 128).
Proof.
  intros V. unfold val. pose proof (IZR_pow2_pos 149 ltac:(lia)) as T.
  apply (Rmult_le_reg_r (IZR (2 ^ 149))); [exact T|].
  unfold Rdiv. rewrite Rmult_assoc, Rinv_l, Rmult_1_r by lra.
  rewrite <- mult_IZR. apply IZR_le.
  destruct f as [s|s| |s m e]; cbn [ival];
    [apply Z.lt_le_incl; reflexivity ..|].
  destruct (valid_finite_bounds _ _ _ V) as (He & Hm & _).
  assert (2 ^ (e + 149) <= 2 ^ 253)%Z by (apply Z.pow_le_mono_r; lia).
  assert (0 < 2 ^ (e + 149))%Z by (apply Z.pow_pos_nonneg; lia).
  change (2 ^ 128 * 2 ^ 149)%Z with (2 ^ 24 * 2 ^ 253)%Z.
  destruct s; nia.
Qed.

Lemma val_one : val F32.one = 1.
Proof.
  unfold val. replace (ival F32.one) with (2 ^ 149)%Z by (vm_compute; reflexivity).
  pose proof (IZR_pow2_pos 149 ltac:(lia)). field. lra.
Qed.

Lemma ival_SMALL : (2 ^ 122 <= ival FMath.SMALL_NUMBER)%Z.
Proof. vm_compute. discriminate. Qed.

Lemma valid_SMALL :
  F32.valid FMath.SMALL_NUMBER = true /\ F32.is_finite FMath.SMALL_NUMBER = true.
Proof. split; vm_compute; reflexivity. Qed.

Lemma val_ge_SMALL S :
  F32.valid S = true -> F32.is_finite S = true ->
  F32.ltb S FMath.SMALL_NUMBER = false ->
  / IZR (2 ^ 27) <= val S /\
  exists m e, S = S754_finite false m e /\ (-100 <= e)%Z.
Proof.
  intros V F H. destruct valid_SMALL as (VS & FS).
  assert (I : (ival FMath.SMALL_NUMBER <= ival S)%Z).
  { destruct (Z_le_gt_dec (ival FMath.SMALL_NUMBER) (ival S)) as [L|L]; [exact L|].
    apply Z.gt_lt in L. apply (SFltb_ival S _ V VS F FS) in L.
    unfold F32.ltb in H. congruence. }
  pose proof ival_SMALL as K.
  assert (I2 : (2 ^ 122 <= ival S)%Z) by lia.
  split.
  - pose proof (val_le (S754_finite false 1 (-27)) S) as L.
    replace (val (S754_finite false 1 (-27))) with (/ IZR (2 ^ 27)) in L.
    + apply L. cbn [ival]. change (-27 + 149)%Z with 122%Z. lia.
    + unfold val. cbn [ival]. change (1 * (1 * 2 ^ (-27 + 149)))%Z with (2 ^ 122)%Z.
      change (2 ^ 149)%Z with (2 ^ 122 * 2 ^ 27)%Z. rewrite mult_IZR.
      pose proof (IZR_pow2_pos 122 ltac:(lia)). pose proof (IZR_pow2_pos 27 ltac:(lia)).
      field. lra.
  - destruct S as [s|s| |s m e]; try discriminate F; cbn [ival] in I2;
      [exfalso; apply I2; reflexivity|].
    destruct (valid_finite_bounds _ _ _ V) as (He & Hm & _).
    assert (P : (0 < 2 ^ (e + 149))%Z) by (apply Z.pow_pos_nonneg; lia).
    destruct s; [exfalso; nia|].
    exists m, e. split; [reflexivity|].
    destruct (Z_le_gt_dec (-100) e) as [L|L]; [exact L|exfalso].
    assert (2 ^ (e + 149) <= 2 ^ 49)%Z by (apply Z.pow_le_mono_r; lia).
    change (2 ^ 122)%Z with (2 ^ 24 * 2 ^ 98)%Z in I2.
    assert (2 ^ 49 < 2 ^ 98)%Z by (vm_compute; reflexivity).
    nia.
Qed.

Section SquaredLength.

Variables x y z : float.
Hypothesis Vx : F32.valid x = true.
Hypothesis Vy : F32.valid y = true.
Hypothesis Vz : F32.valid z = true.

Let v := mkFVector x y z.
Let P := val x * val x + val y * val y + val z * val z.

Hypothesis FS : F32.is_finite (Vec.SizeSquared v) = true.
Hypothesis NS : F32.ltb (Vec.SizeSquared v) FMath.SMALL_NUMBER = false.

Lemma SizeSquared_components :
  F32.is_finite x = true /\ F32.is_finite y = true /\ F32.is_finite z = true.
Proof.
  unfold Vec.SizeSquared, v in FS. cbn [Vec.X Vec.Y Vec.Z] in FS.
  apply add_finite_inv in FS. destruct FS as (F12 & F3).
  apply add_finite_inv in F12. destruct F12 as (F1 & F2).
  apply mul_finite_inv in F1, F2, F3. tauto.
Qed.

Lemma SizeSquared_valid : F32.valid (Vec.SizeSquared v) = true.
Proof.
  unfold Vec.SizeSquared, v. cbn [Vec.X Vec.Y Vec.Z].
  repeat apply add_valid; apply mul_valid; assumption.
Qed.

Lemma SizeSquared_error :
  / IZR (2 ^ 28) <= P <= IZR (2 ^ 129) /\
  Rabs (val (Vec.SizeSquared v) - P) <= 5 * u32 * P.
Proof.
  destruct SizeSquared_components as (Fx & Fy & Fz).
  pose proof SizeSquared_valid as VS.
  destruct (val_ge_SMALL _ VS FS NS) as (Lo & _).
  pose proof (val_upper _ VS) as Hi.
  unfold Vec.SizeSquared, v in *. cbn [Vec.X Vec.Y Vec.Z] in *.
  pose proof FS as FS'.
  apply add_finite_inv in FS'. destruct FS' as (F12 & F3).
  pose proof F12 as F12'.
  apply add_finite_inv in F12'. destruct F12' as (F1 & F2).
  pose proof (mul_error_fin x x Vx Vx Fx Fx F1) as E1.
  pose proof (mul_error_fin y y Vy Vy Fy Fy F2) as E2.
  pose proof (mul_error_fin z z Vz Vz Fz Fz F3) as E3.
  pose proof (add_error _ _ (mul_valid _ _ Vx Vx) (mul_valid _ _ Vy Vy) F1 F2 F12) as E12.
  pose proof (add_error _ _ (add_valid _ _ (mul_valid _ _ Vx Vx) (mul_valid _ _ Vy Vy))
                (mul_valid _ _ Vz Vz) F12 F3 FS) as ES.
  pose proof (sum_sq_error_real _ _ _ _ _ _ _ _
                (Rle_0_sqr (val x) : 0 <= val x * val x)
                (Rle_0_sqr (val y) : 0 <= val y * val y)
                (Rle_0_sqr (val z) : 0 <= val z * val z) E1 E2 E3 E12 ES) as H.
  fold P in H |- *.
  set (S := val (F32.add (F32.add (F32.mul x x) (F32.mul y y)) (F32.mul z z))) in *.
  clearbody S. clear - H Lo Hi.
  assert (P0 : 0 <= P).
  { unfold P. pose proof (Rle_0_sqr (val x)). pose proof (Rle_0_sqr (val y)).
    pose proof (Rle_0_sqr (val z)). unfold Rsqr in *. lra. }
  clearbody P. apply Rabs_le_elim in H. consts.
  repeat split; try lra. apply Rabs_le. lra.
Qed.

End SquaredLength.

(** ** Length, reciprocal and unit vector *)

Lemma sqrt_pow2_bounds (P : R) :
  / IZR (2 ^ 28) <= P <= IZR (2 ^ 129) ->
  / IZR (2 ^ 14) <= sqrt P <= IZR (2 ^ 65).
Proof.
  intros [Lo Hi]. split.
  - rewrite <- (sqrt_square (/ IZR (2 ^ 14))).
    + apply sqrt_le_1_alt. consts. lra.
    + consts. lra.
  - rewrite <- (sqrt_square (IZR (2 ^ 65))).
    + apply sqrt_le_1_alt. consts. lra.
    + consts. lra.
Qed.

Lemma Rabs_le_sqrt (a P : R) : 0 <= P -> a * a <= P -> Rabs a <= sqrt P.
Proof.
  intros HP H. rewrite <- (sqrt_square (Rabs a)) by apply Rabs_pos.
  apply sqrt_le_1_alt.
  replace (Rabs a * Rabs a) with (a * a); [exact H|].
  unfold Rabs. destruct (Rcase_abs a); ring.
Qed.

Section Normal.

Variables x y z : float.
Hypothesis Vx : F32.valid x = true.
Hypothesis Vy : F32.valid y = true.
Hypothesis Vz : F32.valid z = true.

Let v := mkFVector x y z.
Let P := val x * val x + val y * val y + val z * val z.
Let N := sqrt P.

Hypothesis FS : F32.is_finite (Vec.SizeSquared v) = true.
Hypothesis NS : F32.ltb (Vec.SizeSquared v) FMath.SMALL_NUMBER = false.

Lemma length_bounds :
  / IZR (2 ^ 14) <= N <= IZR (2 ^ 65) /\
  Rabs (val x) <= N /\ Rabs (val y) <= N /\ Rabs (val z) <= N /\ N * N = P.
Proof.
  destruct (SizeSquared_error x y z Vx Vy Vz FS NS) as (HP & _). fold P in HP.
  split; [apply sqrt_pow2_bounds; exact HP|].
  assert (P0 : 0 <= P) by (consts; lra).
  pose proof (Rle_0_sqr (val x)). pose proof (Rle_0_sqr (val y)).
  pose proof (Rle_0_sqr (val z)). unfold Rsqr in *.
  repeat split; try (apply Rabs_le_sqrt; [exact P0|unfold P; lra]).
  apply sqrt_sqrt. exact P0.
Qed.

(** [Size]: within eleven units of rounding of the real length. *)
Lemma Size_error :
  F32.is_finite (Vec.Size v) = true /\ F32.valid (Vec.Size v) = true /\
  Rabs (val (Vec.Size v) - N) <= 11 * u32 * N /\
  exists m e, Vec.Size v = S754_finite false m e.
Proof.
  destruct (SizeSquared_error x y z Vx Vy Vz FS NS) as (HP & HE). fold P in HP, HE.
  pose proof (SizeSquared_valid x y z Vx Vy Vz) as VS.
  destruct (val_ge_SMALL _ VS FS NS) as (Lo & m & e & ES & He).
  destruct length_bounds as ((N1 & N2) & _).
  unfold Vec.Size. fold v in ES, VS, Lo, HE. rewrite ES in *.
  destruct (sqrt_error m e VS He) as (Fr & Vr & Er).
  set (S := val (S754_finite false m e)) in *.
  set (r := val (F32.sqrt (S754_finite false m e))) in *.
  assert (S0 : 0 <= S) by (consts; lra).
  assert (P0 : 0 < P) by (consts; lra).
  assert (C : Rabs (sqrt S - sqrt P) <= 5 * u32 * sqrt P).
  { apply sqrt_close; try assumption. consts. lra. }
  fold N in C.
  assert (B : Rabs (r - N) <= 11 * u32 * N).
  { apply Rabs_le_elim in C, Er. apply Rabs_le. consts. lra. }
  split; [exact Fr|]. split; [exact Vr|]. split; [exact B|].
  apply val_pos_shape. fold r. apply Rabs_le_elim in B. consts. lra.
Qed.

(** [InvSqrt]: the reciprocal of the length, within fifteen units. *)
Lemma InvSqrt_error :
  let k := FMath.InvSqrt (Vec.SizeSquared v) in
  F32.is_finite k = true /\ F32.valid k = true /\
  Rabs (val k * N - 1) <= 15 * u32.
Proof.
  destruct Size_error as (Fr & Vr & Er & m & e & Sh).
  destruct length_bounds as ((N1 & N2) & _).
  cbv zeta. unfold FMath.InvSqrt. change (F32.sqrt (Vec.SizeSquared v)) with (Vec.Size v).
  rewrite Sh in *.
  set (r := val (S754_finite false m e)) in *.
  assert (R1 : (1 - 11 * u32) * N <= r <= (1 + 11 * u32) * N)
    by (apply Rabs_le_elim in Er; lra).
  assert (R0 : 0 < r) by (consts; lra).
  assert (I1 : / IZR (2 ^ 67) <= 1 / r <= IZR (2 ^ 15)).
  { unfold Rdiv. rewrite Rmult_1_l. split.
    - apply Rinv_le_contravar; [exact R0|]. consts. lra.
    - rewrite <- (Rinv_inv (IZR (2 ^ 15))).
      apply Rinv_le_contravar; consts; lra. }
  assert (V1 : F32.valid F32.one = true) by reflexivity.
  assert (F1 : F32.is_finite F32.one = true) by reflexivity.
  destruct (div_error F32.one m e V1 Vr F1) as (Fk & Vk & Ek).
  { rewrite val_one. fold r. rewrite Rabs_pos_eq by (consts; lra). consts. lra. }
  rewrite val_one in Ek. fold r in Ek.
  split; [exact Fk|]. split; [exact Vk|].
  apply (inv_close N r); [consts; lra|exact Er|].
  rewrite (Rabs_pos_eq (1 / r)) in Ek by (consts; lra).
  eapply Rle_trans; [exact Ek|]. consts. lra.
Qed.

(** Each component of [GetSafeNormal] is finite and within seventeen units
    of the component of the real unit vector. *)
Lemma GetSafeNormal_error :
  let g := Vec.GetSafeNormal v in
  (F32.is_finite (Vec.X g) = true /\ F32.valid (Vec.X g) = true /\
   Rabs (val (Vec.X g) - val x / N) <= 17 * u32) /\
  (F32.is_finite (Vec.Y g) = true /\ F32.valid (Vec.Y g) = true /\
   Rabs (val (Vec.Y g) - val y / N) <= 17 * u32) /\
  (F32.is_finite (Vec.Z g) = true /\ F32.valid (Vec.Z g) = true /\
   Rabs (val (Vec.Z g) - val z / N) <= 17 * u32).
Proof.
  destruct (SizeSquared_components x y z FS) as (Fx & Fy & Fz).
  destruct length_bounds as ((N1 & N2) & Ax & Ay & Az & NN).
  assert (N0 : 0 < N) by (consts; lra).
  cbv zeta. unfold Vec.GetSafeNormal.
  destruct (F32.eqb (Vec.SizeSquared v) F32.one) eqn:E1.
  - (* the squared length rounds to one *)
    destruct (SizeSquared_error x y z Vx Vy Vz FS NS) as (HP & HE).
    fold P in HP, HE. fold v in HE.
    pose proof (SizeSquared_valid x y z Vx Vy Vz) as VS.
    destruct (val_ge_SMALL _ VS FS NS) as (_ & m & e & ES & _).
    fold v in ES. unfold F32.eqb in E1. apply SFeqb_spec in E1.
    destruct E1 as (_ & _ & K). rewrite ES in K, HE.
    change (key F32.one) with (1%Z, (-23)%Z, 8388608%Z) in K. cbn [key] in K.
    injection K as -> ->.
    replace (S754_finite false 8388608 (-23)) with F32.one in HE
      by (vm_compute; reflexivity).
    rewrite val_one in HE.
    assert (C : Rabs (sqrt 1 - sqrt P) <= 5 * u32 * sqrt P).
    { apply sqrt_close; [consts; lra ..|exact HE]. }
    rewrite sqrt_1 in C. fold N in C.
    assert (D : Rabs (N - 1) <= 6 * u32).
    { apply Rabs_le_elim in C. apply Rabs_le. consts. lra. }
    assert (G : forall a, Rabs a <= N -> Rabs (a - a / N) <= 17 * u32).
    { intros a Ha.
      assert (A1 : Rabs (a / N) <= 1).
      { unfold Rdiv. rewrite Rabs_mult, (Rabs_pos_eq (/ N))
          by (left; apply Rinv_0_lt_compat; exact N0).
        apply (Rmult_le_reg_r N); [exact N0|].
        rewrite Rmult_assoc, Rinv_l by lra. lra. }
      pose proof (Rabs_mult_le _ _ _ _ A1 D) as M.
      replace (a / N * (N - 1)) with (a - a / N) in M by (field; lra).
      eapply Rle_trans; [exact M|]. consts. lra. }
    cbn [Vec.X Vec.Y Vec.Z v]. repeat split; auto.
  - fold v in NS. rewrite NS.
    destruct InvSqrt_error as (Fk & Vk & Ek).
    set (k := FMath.InvSqrt (Vec.SizeSquared v)) in *.
    cbn [Vec.scale Vec.X Vec.Y Vec.Z v].
    assert (G : forall a, F32.valid a = true -> F32.is_finite a = true ->
                          Rabs (val a) <= N ->
                          F32.is_finite (F32.mul a k) = true /\
                          F32.valid (F32.mul a k) = true /\
                          Rabs (val (F32.mul a k) - val a / N) <= 17 * u32).
    { intros a Va Fa Ha.
      assert (A1 : Rabs (val a / N) <= 1).
      { unfold Rdiv. rewrite Rabs_mult, (Rabs_pos_eq (/ N))
          by (left; apply Rinv_0_lt_compat; exact N0).
        apply (Rmult_le_reg_r N); [exact N0|].
        rewrite Rmult_assoc, Rinv_l by lra. lra. }
      assert (K1 : Rabs (val k * N) <= 1 + 15 * u32).
      { apply Rabs_le_elim in Ek. apply Rabs_le. consts. lra. }
      pose proof (Rabs_mult_le _ _ _ _ A1 K1) as M.
      replace (val a / N * (val k * N)) with (val a * val k) in M by (field; lra).
      destruct (mul_error a k Va Vk Fa Fk) as (Fg & Vg & Eg).
      { eapply Rle_trans; [exact M|]. consts. lra. }
      split; [exact Fg|]. split; [exact Vg|].
      apply (normal_real (val a) N (val k)); assumption. }
    repeat split; apply G; assumption.
Qed.

End Normal.

(** ** Rescaling to the limit *)

Lemma scale_component_error (alpha : R) (g limit : float) :
  F32.valid g = true -> F32.is_finite g = true ->
  F32.valid limit = true -> F32.is_finite limit = true ->
  Rabs alpha <= 1 -> Rabs (val g - alpha) <= 17 * u32 ->
  / IZR (2 ^ 100) <= val limit <= IZR (2 ^ 100) ->
  F32.is_finite (F32.mul g limit) = true /\
  Rabs (val (F32.mul g limit) - alpha * val limit) <= 20 * u32 * val limit.
Proof.
  intros Vg Fg Vl Fl Ha Hg [L1 L2].
  assert (L0 : 0 < val limit) by (consts; lra).
  assert (G1 : Rabs (val g) <= 1 + 17 * u32).
  { apply Rabs_le_elim in Ha, Hg. apply Rabs_le. lra. }
  assert (G2 : Rabs (val limit) <= IZR (2 ^ 100))
    by (rewrite Rabs_pos_eq; lra).
  pose proof (Rabs_mult_le _ _ _ _ G1 G2) as M.
  destruct (mul_error g limit Vg Vl Fg Fl) as (Ff & _ & Ef).
  { eapply Rle_trans; [exact M|]. consts. lra. }
  split; [exact Ff|].
  apply (final_real alpha (val g)); try assumption. consts. lra.
Qed.

Section Clamp.

Variables x y z limit : float.
Hypothesis Vx : F32.valid x = true.
Hypothesis Vy : F32.valid y = true.
Hypothesis Vz : F32.valid z = true.
Hypothesis Vl : F32.valid limit = true.

Let v := mkFVector x y z.

Hypothesis FS : F32.is_finite (Vec.SizeSquared v) = true.
Hypothesis NS : F32.ltb (Vec.SizeSquared v) FMath.SMALL_NUMBER = false.
Hypothesis HL : / IZR (2 ^ 100) <= val limit <= IZR (2 ^ 100).

Let v' := Vec.scale (Vec.GetSafeNormal v) limit.

Lemma unit_components :
  let N := speed v in
  0 < N /\
  Rabs (val x / N) <= 1 /\ Rabs (val y / N) <= 1 /\ Rabs (val z / N) <= 1 /\
  val x / N * (val x / N) + val y / N * (val y / N) + val z / N * (val z / N) = 1.
Proof.
  cbv zeta. unfold speed, v. cbn [Vec.X Vec.Y Vec.Z].
  destruct (length_bounds x y z Vx Vy Vz FS NS) as ((N1 & N2) & Ax & Ay & Az & NN).
  set (N := sqrt (val x * val x + val y * val y + val z * val z)) in *.
  assert (N0 : 0 < N) by (consts; lra).
  assert (U : forall a, Rabs a <= N -> Rabs (a / N) <= 1).
  { intros a Ha. unfold Rdiv. rewrite Rabs_mult, (Rabs_pos_eq (/ N))
      by (left; apply Rinv_0_lt_compat; exact N0).
    apply (Rmult_le_reg_r N); [exact N0|].
    rewrite Rmult_assoc, Rinv_l by lra. lra. }
  split; [exact N0|]. repeat split; auto.
  replace (val x / N * (val x / N) + val y / N * (val y / N) + val z / N * (val z / N))
    with ((val x * val x + val y * val y + val z * val z) / (N * N)) by (field; lra).
  rewrite NN. field. rewrite <- NN. nra.
Qed.

Lemma limit_finite : F32.is_finite limit = true.
Proof.
  destruct (val_pos_shape limit) as (m & e & ->); [consts; lra|reflexivity].
Qed.

(** Each component of the clamped velocity is finite and within
    [20 * 2^-24] of the limit times the component of the real unit
    vector. *)
Lemma clamp_components :
  let N := speed v in
  (F32.is_finite (Vec.X v') = true /\
   Rabs (val (Vec.X v') - val x / N * val limit) <= 20 * u32 * val limit) /\
  (F32.is_finite (Vec.Y v') = true /\
   Rabs (val (Vec.Y v') - val y / N * val limit) <= 20 * u32 * val limit) /\
  (F32.is_finite (Vec.Z v') = true /\
   Rabs (val (Vec.Z v') - val z / N * val limit) <= 20 * u32 * val limit).
Proof.
  destruct unit_components as (N0 & Ux & Uy & Uz & _).
  destruct (GetSafeNormal_error x y z Vx Vy Vz FS NS)
    as ((Fgx & Vgx & Egx) & (Fgy & Vgy & Egy) & (Fgz & Vgz & Egz)).
  pose proof limit_finite as Fl.
  cbv zeta in *. unfold v', speed, v in *. cbn [Vec.scale Vec.X Vec.Y Vec.Z] in *.
  split; [|split]; apply scale_component_error; assumption.
Qed.

(** The clamped speed is within [140 * 2^-24] of the limit, relatively. *)
Lemma clamp_speed :
  Rabs (speed v' - val limit) <= 140 * u32 * val limit.
Proof.
  destruct unit_components as (N0 & Ux & Uy & Uz & U1).
  destruct clamp_components as ((_ & Ex) & (_ & Ey) & (_ & Ez)).
  cbv zeta in *.
  assert (L0 : 0 < val limit) by (consts; lra).
  set (L := val limit) in *. set (N := speed v) in *.
  assert (D : forall b a, Rabs (b - a * L) <= 20 * u32 * L ->
                          Rabs (b / L - a) <= 20 * u32).
  { intros b a H.
    replace (b / L - a) with ((b - a * L) * / L) by (field; lra).
    rewrite Rabs_mult, (Rabs_pos_eq (/ L)) by (left; apply Rinv_0_lt_compat; exact L0).
    apply (Rmult_le_reg_r L); [exact L0|].
    rewrite Rmult_assoc, Rinv_l by lra. lra. }
  apply D in Ex, Ey, Ez.
  pose proof (unit_length_real _ _ _ _ _ _ (20 * u32) U1
                ltac:(consts; lra) Ex Ey Ez) as H.
  unfold speed at 1.
  set (bx := val (Vec.X v')) in *. set (by_ := val (Vec.Y v')) in *.
  set (bz := val (Vec.Z v')) in *.
  replace (bx * bx + by_ * by_ + bz * bz)
    with (L * L * (bx / L * (bx / L) + by_ / L * (by_ / L) + bz / L * (bz / L)))
    by (field; lra).
  rewrite sqrt_mult_alt by nra. rewrite sqrt_square by lra.
  set (q := sqrt (bx / L * (bx / L) + by_ / L * (by_ / L) + bz / L * (bz / L))) in *.
  replace (L * q - L) with ((q - 1) * L) by ring.
  rewrite Rabs_mult, (Rabs_pos_eq L) by lra.
  apply Rmult_le_compat_r; lra.
Qed.

End Clamp.

Close Scope R_scope.

(** ** The tick *)

Lemma TickComponent_clamped s manager :
  OceanManager (Self s) = Some manager ->
  IsSimulatingPhysics (UpdatedPrimitive s) = true ->
  1 <= Z.of_nat (length (TestPoints (Self s))) ->
  ClampMaxVelocity (Self s) = true ->
  0 < LoopCount (Self s) manager (GetComponentTransform (UpdatedPrimitive s))
        (Visited (F32.of_int (Z.of_nat (length (TestPoints (Self s))))) 0
                 (TestPoints (Self s))) ->
  F32.gtb (Vec.Size (PhysicsLinearVelocity (UpdatedPrimitive s)))
          (MaxUnderwaterVelocity (Self s)) = true ->
  PhysicsLinearVelocity (UpdatedPrimitive (TickComponent s))
  = Vec.scale (Vec.GetSafeNormal (PhysicsLinearVelocity (UpdatedPrimitive s)))
              (MaxUnderwaterVelocity (Self s)).
Proof.
  intros Hm Hsim Hn Hc Hcount Hfast.
  rewrite (TickComponent_visited s manager Hm Hsim Hn). cbv zeta.
  cbn [UpdatedPrimitive]. unfold UpdateDamping, SetAngularDamping, SetLinearDamping.
  cbn [PhysicsLinearVelocity]. unfold ClampVelocity.
  cbn [PhysicsLinearVelocity WithForces].
  rewrite Hc, Hfast.
  match goal with
  | |- context [0 <? ?n] => destruct (Z.ltb_spec 0 n); [|lia]
  end.
  reflexivity.
Qed.

Lemma TickComponent_unclamped s :
  ClampMaxVelocity (Self s) = false ->
  PhysicsLinearVelocity (UpdatedPrimitive (TickComponent s))
  = PhysicsLinearVelocity (UpdatedPrimitive s).
Proof.
  intros Hc. unfold TickComponent.
  destruct (OceanManager (Self s)) as [manager|]; [|reflexivity].
  destruct (negb (IsSimulatingPhysics (UpdatedPrimitive s))); [reflexivity|].
  destruct (F32.ltb _ F32.one); [reflexivity|].
  cbn [UpdatedPrimitive]. unfold UpdateDamping, SetAngularDamping, SetLinearDamping.
  cbn [PhysicsLinearVelocity]. unfold ClampVelocity.
  rewrite PointLoop_Self. cbn [Current]. rewrite Hc. cbn [andb].
  apply PointLoop_velocity.
Qed.

(** A limit below a speed whose square has not overflowed is moderate. *)
Lemma speed_above_limit x y z limit :
  F32.valid x = true -> F32.valid y = true -> F32.valid z = true ->
  F32.valid limit = true ->
  F32.is_finite (Vec.SizeSquared (mkFVector x y z)) = true ->
  F32.ltb (Vec.SizeSquared (mkFVector x y z)) FMath.SMALL_NUMBER = false ->
  (0 < val limit)%R ->
  F32.gtb (Vec.Size (mkFVector x y z)) limit = true ->
  (val limit <= IZR (2 ^ 100))%R.
Proof.
  intros Vx Vy Vz Vl FS NS L1 Hfast.
  destruct (Size_error x y z Vx Vy Vz FS NS) as (Fr & Vr & Er & _).
  destruct (length_bounds x y z Vx Vy Vz FS NS) as ((N1 & N2) & _).
  assert (Fl : F32.is_finite limit = true)
    by (destruct (val_pos_shape limit L1) as (m & e & ->); reflexivity).
  unfold F32.gtb in Hfast.
  apply (SFltb_ival _ _ Vl Vr Fl Fr) in Hfast.
  pose proof (val_le limit (Vec.Size (mkFVector x y z)) ltac:(lia)) as Hle.
  apply Rabs_le_elim in Er. consts. lra.
Qed.

Lemma twenty_units (L : R) : (0 <= L -> 20 * u32 * L <= L / IZR (2 ^ 19))%R.
Proof. intros H. consts. lra. Qed.

Lemma hundred_forty_units (L : R) : (0 <= L -> 140 * u32 * L <= L / IZR (2 ^ 16))%R.
Proof. intros H. consts. lra. Qed.

(** C6 (amended).  With the clamp enabled, at least one visited point under
    water and a speed above [MaxUnderwaterVelocity], for velocity components
    and a limit that are binary32 numbers, when the squared speed computed
    in binary32 has not overflowed and is not below [SMALL_NUMBER], and the
    limit is at least [2^-100]: the velocity after the tick is finite; its
    speed is the limit up to a relative error of [2^-16]; each of its
    components is the limit times the component of the unit vector of the
    velocity before the tick, up to [2^-19] times the limit; and no
    component changes sign.  With the clamp disabled the tick never changes
    the velocity. *)
Theorem C6_velocity_clamp s :
  (forall manager,
      OceanManager (Self s) = Some manager ->
      IsSimulatingPhysics (UpdatedPrimitive s) = true ->
      ClampMaxVelocity (Self s) = true ->
      0 < LoopCount (Self s) manager (GetComponentTransform (UpdatedPrimitive s))
            (Visited (F32.of_int (Z.of_nat (length (TestPoints (Self s))))) 0
                     (TestPoints (Self s))) ->
      let v := PhysicsLinearVelocity (UpdatedPrimitive s) in
      let limit := MaxUnderwaterVelocity (Self s) in
      let v' := PhysicsLinearVelocity (UpdatedPrimitive (TickComponent s)) in
      F32.gtb (Vec.Size v) limit = true ->
      F32.valid (Vec.X v) = true -> F32.valid (Vec.Y v) = true ->
      F32.valid (Vec.Z v) = true -> F32.valid limit = true ->
      F32.is_finite (Vec.SizeSquared v) = true ->
      F32.ltb (Vec.SizeSquared v) FMath.SMALL_NUMBER = false ->
      (/ IZR (2 ^ 100) <= val limit)%R ->
      (F32.is_finite (Vec.X v') = true /\ F32.is_finite (Vec.Y v') = true /\
       F32.is_finite (Vec.Z v') = true) /\
      (Rabs (speed v' - val limit) <= val limit / IZR (2 ^ 16))%R /\
      (Rabs (val (Vec.X v') - val (Vec.X v) / speed v * val limit)
       <= val limit / IZR (2 ^ 19))%R /\
      (Rabs (val (Vec.Y v') - val (Vec.Y v) / speed v * val limit)
       <= val limit / IZR (2 ^ 19))%R /\
      (Rabs (val (Vec.Z v') - val (Vec.Z v) / speed v * val limit)
       <= val limit / IZR (2 ^ 19))%R /\
      keeps_sign (Vec.X v) (Vec.X v') = true /\
      keeps_sign (Vec.Y v) (Vec.Y v') = true /\
      keeps_sign (Vec.Z v) (Vec.Z v') = true) /\
  (ClampMaxVelocity (Self s) = false ->
   PhysicsLinearVelocity (UpdatedPrimitive (TickComponent s))
   = PhysicsLinearVelocity (UpdatedPrimitive s)).
Proof.
  split; [|apply TickComponent_unclamped].
  intros manager Hm Hsim Hc Hcount v limit v' Hfast Vx Vy Vz Vl FS NS Hlo.
  assert (Hn : 1 <= Z.of_nat (length (TestPoints (Self s)))).
  { destruct (TestPoints (Self s)) as [|pt rest]; [|cbn [length]; lia].
    cbn in Hcount. lia. }
  assert (E : v' = Vec.scale (Vec.GetSafeNormal v) limit)
    by (apply (TickComponent_clamped s manager); assumption).
  clearbody v'. subst v'. clearbody limit.
  destruct v as [x y z] eqn:Ev. cbn [Vec.X Vec.Y Vec.Z] in Vx, Vy, Vz |- *.
  assert (L1 : (0 < val limit)%R).
  { pose proof (IZR_pow2_pos 100 ltac:(lia)) as T.
    apply Rinv_0_lt_compat in T. lra. }
  assert (L0 : (0 <= val limit)%R) by lra.
  assert (HL : (/ IZR (2 ^ 100) <= val limit <= IZR (2 ^ 100))%R).
  { split; [exact Hlo|]. apply (speed_above_limit x y z); assumption. }
  destruct (clamp_components x y z limit Vx Vy Vz Vl FS NS HL)
    as ((Fx & Ex) & (Fy & Ey) & (Fz & Ez)).
  pose proof (clamp_speed x y z limit Vx Vy Vz Vl FS NS HL) as ES.
  pose proof (twenty_units _ L0) as T20.
  pose proof (hundred_forty_units _ L0) as T140.
  assert (NL : not_negative limit = true)
    by (destruct (val_pos_shape limit L1) as (m & e & ->); reflexivity).
  destruct (GetSafeNormal_keeps_sign (mkFVector x y z)) as (KX & KY & KZ).
  cbn [Vec.X Vec.Y Vec.Z] in KX, KY, KZ.
  split; [repeat split; assumption|].
  split; [lra|]. split; [lra|]. split; [lra|]. split; [lra|].
  cbn [Vec.scale Vec.X Vec.Y Vec.Z].
  repeat split; apply keeps_sign_mul; assumption.
Qed.

Lemma val_thousand : val (MaxUnderwaterVelocity (Self Diagonal)) = 1000%R.
Proof.
  unfold val.
  replace (ival (MaxUnderwaterVelocity (Self Diagonal))) with (1000 * 2 ^ 149)
    by (vm_compute; reflexivity).
  rewrite mult_IZR. pose proof (IZR_pow2_pos 149 ltac:(lia)). field. lra.
Qed.

Lemma C6_witness :
  (Rabs (speed (PhysicsLinearVelocity (UpdatedPrimitive (TickComponent Diagonal)))
         - val (MaxUnderwaterVelocity (Self Diagonal)))
   <= val (MaxUnderwaterVelocity (Self Diagonal)) / IZR (2 ^ 16))%R /\
  PhysicsLinearVelocity (UpdatedPrimitive (TickComponent (Buoy true)))
  = PhysicsLinearVelocity (UpdatedPrimitive (Buoy true)).
Proof.
  split.
  - apply (proj1 (C6_velocity_clamp Diagonal) (FlatOcean (F32.of_int 5)));
      try reflexivity; try (vm_compute; discriminate).
    rewrite val_thousand. consts. lra.
  - exact (proj2 (C6_velocity_clamp (Buoy true)) eq_refl).
Defined.
